(** * The multi-slit reduction driver [ARMS] and the arc-line loader [load_line_lists]

    A shallow embedding of [src/pypit/arms.py] (the reduction driver with its
    calibration cache, standard-star co-reduction and deferred flux stage) and
    of [load_line_lists] from [src/pypeit/core/wavecal/waveio.py].

    The driver is a sequential program over mutable state that calls many
    collaborators (bias/arc/trace builders, the exposure's own master
    methods, frame loaders, writers).  It is embedded as a state-and-exception
    monad over [RunState]; every collaborator call appends an [Event] to the
    trace and its result is read from an oracle that may depend on the whole
    history of calls, so that a collaborator need not answer twice alike. *)

From Stdlib Require Import ZArith Lia Ascii.
From stdpp Require Import gmap strings list functions.

(** ** Values *)

(** The attributes of a [TraceSlits] object that the driver reads. *)
Record TraceSlits := {
  lcen : list (list Z);
  rcen : list (list Z);
  pixcen : list (list Z);
  pixwid : list (list Z);
  lordpix : list (list Z);
  rordpix : list (list Z);
  slitpix : list (list Z);
}.

(** Python values the driver stores and passes on: [None], a command string
    (the bias may be ['overscan']), an image, a boolean mask, a [TraceSlits]. *)
Inductive Value :=
| VNone
| VStr (s : string)
| VArr (a : list (list Z))
| VMask (m : list bool)
| VSlits (t : TraceSlits).

Definition is_None (v : Value) : bool :=
  match v with VNone => true | _ => false end.

(** [a.shape[1]] of a two-dimensional image. *)
Definition shape1 (v : Value) : nat :=
  match v with VArr (r :: _) => length r | _ => 0 end.

(** ** Keys *)

Abbreviation Setup := string.

(** Calibration product kinds.  [Bias], [Arc], [Bpm] and [Trace] are the keys
    of the per-setup record of [calib_dict]; the 1D wavelength solution
    ([WvCalib]), [Tilt], [Flat] and [Wave] live on the exposure. *)
Inductive Kind := Bias | Arc | Bpm | Trace | WvCalib | Tilt | Flat | Wave.

#[global] Instance Kind_eq_dec : EqDecision Kind.
Proof. solve_decision. Defined.

Definition Kind_to_nat (K : Kind) : nat :=
  match K with
  | Bias => 0 | Arc => 1 | Bpm => 2 | Trace => 3
  | WvCalib => 4 | Tilt => 5 | Flat => 6 | Wave => 7
  end.

Definition Kind_of_nat (n : nat) : option Kind :=
  match n with
  | 0 => Some Bias | 1 => Some Arc | 2 => Some Bpm | 3 => Some Trace
  | 4 => Some WvCalib | 5 => Some Tilt | 6 => Some Flat | 7 => Some Wave
  | _ => None
  end.

Lemma Kind_of_to_nat (K : Kind) : Kind_of_nat (Kind_to_nat K) = Some K.
Proof. by destruct K. Qed.

#[global] Instance Kind_countable : Countable Kind :=
  inj_countable Kind_to_nat Kind_of_nat Kind_of_to_nat.

(** The products the driver keeps in [calib_dict]. *)
Definition cached_kind (K : Kind) : bool :=
  match K with Bias | Arc | Bpm | Trace => true | _ => false end.

(** ** Exposures and the store of their per-detector lists *)

(** The per-detector list attributes of a [ScienceExposure] that [ARMS]
    touches ([slf._pixlocn], [slf._lordloc], ...). *)
Inductive Attr :=
| a_pixlocn | a_lordloc | a_rordloc | a_pixcen | a_pixwid | a_lordpix
| a_rordpix | a_slitpix | a_tilts | a_satmask | a_maskslits | a_slitprof
| a_mspixelflatnrm | a_mswave | a_tiltpar | a_wvcalib | a_specobjs.

#[global] Instance Attr_eq_dec : EqDecision Attr.
Proof. solve_decision. Defined.

(** The attributes [ARMS] hands from the science exposure to its standard. *)
Definition shared_attrs : list Attr :=
  [a_pixlocn; a_lordloc; a_rordloc; a_pixcen; a_pixwid; a_lordpix; a_rordpix;
   a_slitpix; a_tilts; a_satmask; a_maskslits; a_slitprof;
   a_mspixelflatnrm; a_mswave].

(** Identity of an exposure object: the [i]-th science exposure the driver
    builds, the standard exposure built for table row [key], or the [i]-th
    exposure of a list handed in by the caller. *)
Inductive ObjId := SciObj (i : nat) | StdObj (key : nat) | ExtObj (i : nat).

#[global] Instance ObjId_eq_dec : EqDecision ObjId.
Proof. solve_decision. Defined.

(** A per-detector list object is named by the exposure that created it and
    the attribute it was created for; a slot is one index of such a list.
    Every list has one slot per detector, and [det - 1] with
    [1 <= det <= ndet] is always in range. *)
Definition Loc : Type := ObjId * Attr.
Definition Slot : Type := Loc * nat.
Definition Heap : Type := Slot → Value.

(** Modelled from the spec: the class [ScienceExposure] (module [arsciexp])
    is not in the sources; an exposure has a science ID, a base file name and
    an ordered list of per-detector state slots.  [refs] tells which list
    object each attribute is currently bound to, so that two exposures can
    share one list. *)
Record Exposure := {
  sci_ID : nat;
  idx_sci : nat;
  basename : string;
  refs : Attr → Loc;
  extracted : nat → bool;
}.

Definition ScienceExposure (o : ObjId) (sid row : nat) (bn : string) : Exposure :=
  {| sci_ID := sid; idx_sci := row; basename := bn;
     refs := λ a, (o, a); extracted := λ _, false |}.

(** The fresh lists of a new exposure hold [None] in every slot. *)
Definition alloc (o : ObjId) (h : Heap) : Heap :=
  λ s, if decide (s.1.1 = o) then VNone else h s.

Definition set_ref (a : Attr) (l : Loc) (e : Exposure) : Exposure :=
  {| sci_ID := sci_ID e; idx_sci := idx_sci e; basename := basename e;
     refs := <[a := l]> (refs e); extracted := extracted e |}.

Definition set_extracted (i : nat) (b : bool) (e : Exposure) : Exposure :=
  {| sci_ID := sci_ID e; idx_sci := idx_sci e; basename := basename e;
     refs := refs e; extracted := <[i := b]> (extracted e) |}.

(** What an exposure shows on detector [det]: the slot [det - 1] of each of
    its lists. *)
Definition View : Type := Attr → Value.
Definition view (h : Heap) (e : Exposure) (det : nat) : View :=
  λ a, h (refs e a, det - 1).

(** All slots of one attribute, [0 .. ndet-1]. *)
Definition attr_list (h : Heap) (e : Exposure) (a : Attr) (ndet : nat) : list Value :=
  map (λ i, h (refs e a, i)) (seq 0 ndet).

(** ** Events *)

Inductive FrameType := science | standard.

(** [std_idx] is first a list of rows and then rebound to its first entry. *)
Inductive PyIdx := IdxList (l : list nat) | IdxInt (n : nat).

Inductive Event :=
| EvResolve (K : Kind) (S : Setup) (det : nat)
| EvResolved (K : Kind) (S : Setup) (det : nat) (v : Value)
| EvBuild (K : Kind) (S : Setup) (det sid : nat) (inputs : list Value)
| EvLoadMaster (K : Kind) (S : Setup)
| EvSaveMaster (K : Kind) (S : Setup) (det : nat)
| EvMethod (K : Kind) (sid det : nat) (inputs : list Value)
| EvUpdateMasters (sc det : nat) (ftype chktype : string)
| EvLoadFrames (row det : nat) (ft : FrameType) (msbias : Value)
| EvReduce (std : bool) (row det : nat) (inputs : list Value)
| EvSave1d (outfile : string) (specobjs : list Value) (hdr : PyIdx)
| EvSaveObjInfo (row : nat)
| EvSave2d (row : nat)
| EvSensMaster (std_key : nat) (std_specobjs : list Value) (S : Setup)
| EvSensArchival (file : string)
| EvLoadSpecobj (file : string)
| EvFluxScience (file : string) (sensfunc : Value)
| EvWriteScience (file : string).

Definition History : Type := list Event.

(** ** The run's inputs *)

(** What the driver reads from the observation table [fitstbl] (never
    mutated) and from [setup_dict]. *)
Record FitsTbl := {
  tbl_sci_IDs : list nat;
  science_row : nat → nat;
  standard_rows : nat → list nat;
  row_basename : nat → string;
  instr_setup : nat → nat → Setup;
  datasec_trimmed : nat → nat → Value;
}.

(** The entries of [settings.argflag] and [settings.spect] the driver reads. *)
Record Settings := {
  ndet : nat;
  detnum : option (list nat);
  masters_reuse : bool;
  masters_force : bool;
  calibrate_flux : bool;
  sensfunc_archival : string;
  science_dir : string;
}.

(** The collaborators.  Each takes the history of calls made so far. *)
Record Collab := {
  bias_master : History → Setup → nat → nat → Value;
  arc_master : History → Setup → nat → nat → Value → Value;
  bpm_build : History → nat → Value → Value → Value;
  gen_pixloc : Value → nat → Value;
  from_master_files : History → Setup → option TraceSlits;
  trace_slits : History → Setup → nat → nat → Value → Value → Value → TraceSlits;
  MasterWaveCalib : History → View → nat → Value → bool * Value;
  load_master_frame : History → View → Setup → string → Value;
  multislit_tilt : History → View → Value → nat → Value * Value * Value;
  MasterFlatField : History → View → nat → Value → Value → bool * Value * Value;
  MasterWave : History → View → nat → nat → bool * Value;
  UpdateMasters_writes : History → nat → nat → string → string → list (nat * Attr * Value);
  load_frames : History → nat → nat → FrameType → Value → option Value;
  reduce_multislit : History → View → Value → Value → Value → nat → nat → bool → Value;
  save_1d_spectra_fits : History → string → bool;
  sens_master : History → list Value → Setup → nat → Value;
  sens_archival : History → string → Value;
  flux_apply : Value → list Value → list Value;
}.

(** ** The state of one run *)

Record RunState := {
  trace : History;
  calib_dict : gmap Setup (gmap Kind Value);
  heap : Heap;
  sciexp : list (option Exposure);
  std_dict : list (nat * Exposure);
  disk : gmap string (list Value);
  setup_var : option Setup;
  std_idx_var : option PyIdx;
}.

Definition set_trace (f : History → History) (σ : RunState) : RunState :=
  {| trace := f (trace σ); calib_dict := calib_dict σ; heap := heap σ;
     sciexp := sciexp σ; std_dict := std_dict σ; disk := disk σ;
     setup_var := setup_var σ; std_idx_var := std_idx_var σ |}.

Definition set_calib_dict (f : gmap Setup (gmap Kind Value) → gmap Setup (gmap Kind Value))
    (σ : RunState) : RunState :=
  {| trace := trace σ; calib_dict := f (calib_dict σ); heap := heap σ;
     sciexp := sciexp σ; std_dict := std_dict σ; disk := disk σ;
     setup_var := setup_var σ; std_idx_var := std_idx_var σ |}.

Definition set_heap (f : Heap → Heap) (σ : RunState) : RunState :=
  {| trace := trace σ; calib_dict := calib_dict σ; heap := f (heap σ);
     sciexp := sciexp σ; std_dict := std_dict σ; disk := disk σ;
     setup_var := setup_var σ; std_idx_var := std_idx_var σ |}.

Definition set_sciexp (f : list (option Exposure) → list (option Exposure))
    (σ : RunState) : RunState :=
  {| trace := trace σ; calib_dict := calib_dict σ; heap := heap σ;
     sciexp := f (sciexp σ); std_dict := std_dict σ; disk := disk σ;
     setup_var := setup_var σ; std_idx_var := std_idx_var σ |}.

Definition set_std_dict (f : list (nat * Exposure) → list (nat * Exposure))
    (σ : RunState) : RunState :=
  {| trace := trace σ; calib_dict := calib_dict σ; heap := heap σ;
     sciexp := sciexp σ; std_dict := f (std_dict σ); disk := disk σ;
     setup_var := setup_var σ; std_idx_var := std_idx_var σ |}.

Definition set_disk (f : gmap string (list Value) → gmap string (list Value))
    (σ : RunState) : RunState :=
  {| trace := trace σ; calib_dict := calib_dict σ; heap := heap σ;
     sciexp := sciexp σ; std_dict := std_dict σ; disk := f (disk σ);
     setup_var := setup_var σ; std_idx_var := std_idx_var σ |}.

Definition set_setup_var (s : option Setup) (σ : RunState) : RunState :=
  {| trace := trace σ; calib_dict := calib_dict σ; heap := heap σ;
     sciexp := sciexp σ; std_dict := std_dict σ; disk := disk σ;
     setup_var := s; std_idx_var := std_idx_var σ |}.

Definition set_std_idx_var (i : option PyIdx) (σ : RunState) : RunState :=
  {| trace := trace σ; calib_dict := calib_dict σ; heap := heap σ;
     sciexp := sciexp σ; std_dict := std_dict σ; disk := disk σ;
     setup_var := setup_var σ; std_idx_var := i |}.

(** ** The monad: state and Python exceptions *)

Inductive Exn :=
| MissingInputError | WriteFailure | KeyError | NameError | AttributeError
| IndexError | IOError.

Inductive Result (A : Type) :=
| Ok (a : A) (σ : RunState)
| Raise (e : Exn) (σ : RunState).
Arguments Ok {A} a σ.
Arguments Raise {A} e σ.

Definition final {A} (r : Result A) : RunState :=
  match r with Ok _ σ => σ | Raise _ σ => σ end.

Definition M (A : Type) : Type := RunState → Result A.

Definition ret {A} (a : A) : M A := λ σ, Ok a σ.

Definition bind {A B} (m : M A) (k : A → M B) : M B :=
  λ σ, match m σ with Ok a σ' => k a σ' | Raise e σ' => Raise e σ' end.

Definition raise {A} (e : Exn) : M A := λ σ, Raise e σ.

Definition gets {A} (f : RunState → A) : M A := λ σ, Ok (f σ) σ.

Definition modify (f : RunState → RunState) : M unit := λ σ, Ok tt (f σ).

(** A collaborator call: the event is logged and the oracle answers from the
    history before the call. *)
Definition call {A} (ev : Event) (oracle : History → A) : M A :=
  λ σ, Ok (oracle (trace σ)) (set_trace (λ t, t ++ [ev]) σ).

Definition emit (ev : Event) : M unit := call ev (λ _, tt).

Notation "x <- m ;; k" := (bind m (λ x, k))
  (at level 100, m at next level, right associativity, only parsing).
Notation "m ;;; k" := (bind m (λ _, k))
  (at level 100, right associativity, only parsing).

(** [for x in l: body x]. *)
Fixpoint for_each {A} (l : list A) (body : A → M unit) : M unit :=
  match l with
  | [] => ret tt
  | x :: l' => body x ;;; for_each l' body
  end.

(** Python dictionaries that keep insertion order ([std_dict]). *)
Fixpoint dict_get {A} (k : nat) (d : list (nat * A)) : option A :=
  match d with
  | [] => None
  | (k', v) :: d' => if decide (k' = k) then Some v else dict_get k d'
  end.

(** [d[k] = v]: replaces the entry in place, or appends a new one. *)
Fixpoint dict_set {A} (k : nat) (v : A) (d : list (nat * A)) : list (nat * A) :=
  match d with
  | [] => [(k, v)]
  | (k', v') :: d' =>
      if decide (k' = k) then (k, v) :: d' else (k', v') :: dict_set k v d'
  end.

(** In-place mutation of the object stored under [k]. *)
Fixpoint dict_alter {A} (f : A → A) (k : nat) (d : list (nat * A)) : list (nat * A) :=
  match d with
  | [] => []
  | (k', v') :: d' =>
      if decide (k' = k) then (k', f v') :: d' else (k', v') :: dict_alter f k d'
  end.

(** ** The driver

    [ARMS] is followed statement by statement.  Left out are the messages
    ([msgs.info], [msgs.warn]), the dictionary [tsettings] of lines 123-130,
    which only carries settings into the collaborators, and the two dead
    branches of the constant [save_format].  The Python names that outlive
    their block and are read later ([setup], [std_idx]) are part of the
    state.

    The results of the collaborators are taken to be of the kinds the
    driver uses them as: the master arc has a [shape] (lines 165 and 175),
    a loaded stack of frames takes the subscript [[:, :, 0]] (lines 280 and
    302), and the sensitivity function names its standard (the message of
    line 362).  These three operations on a result are not followed: an
    exception they raise on a result of another kind is not part of the
    model. *)

Section Driver.
Variable C : Collab.
Variable tbl : FitsTbl.
Variable cfg : Settings.
Variable reuseMaster : bool.

(** [slf.SetFrame(slf._a, value, det)], i.e. [slf._a[det-1] = value.copy()]. *)
Definition SetFrame (slf : Exposure) (a : Attr) (v : Value) (det : nat) : M unit :=
  modify (set_heap <[(refs slf a, det - 1) := v]>).

(** [slf._a[det-1]] *)
Definition slot (slf : Exposure) (a : Attr) (det : nat) : M Value :=
  gets (λ σ, heap σ (refs slf a, det - 1)).

Definition the_view (slf : Exposure) (det : nat) : M View :=
  gets (λ σ, view (heap σ) slf det).

(** [if setup not in calib_dict.keys(): calib_dict[setup] = {}] *)
Definition init_calib (S : Setup) : M unit :=
  modify (set_calib_dict (λ d,
    match d !! S with Some _ => d | None => <[S := ∅]> d end)).

(** One block of the calibration sequence: the trace records where the
    driver starts on product [K] and the value it goes on with. *)
Definition block (S : Setup) (K : Kind) (det : nat) (body : M Value) : M Value :=
  emit (EvResolve K S det) ;;;
  v <- body ;;
  emit (EvResolved K S det v) ;;;
  ret v.

(** The pattern of the four cached blocks:
    [if K in calib_dict[setup].keys(): v = calib_dict[setup][K]
     else: v = <compute>; calib_dict[setup][K] = v]. *)
Definition lookup_or_compute (S : Setup) (K : Kind) (compute : M Value) : M Value :=
  rec <- gets (λ σ, calib_dict σ !! S) ;;
  match rec with
  | None => raise KeyError
  | Some r =>
      match r !! K with
      | Some v => ret v
      | None =>
          v <- compute ;;
          rec' <- gets (λ σ, calib_dict σ !! S) ;;
          match rec' with
          | None => raise KeyError
          | Some r' =>
              modify (set_calib_dict <[S := <[K := v]> r']>) ;;;
              ret v
          end
      end
  end.

Definition cached (S : Setup) (K : Kind) (det : nat) (compute : M Value) : M Value :=
  block S K det (lookup_or_compute S K compute).

(** Modelled from the docstring of [reuseMaster]: [armbase.UpdateMasters]
    is not in the sources; it hands master frames to science exposures
    later in the list ([gg > sc]) on the same detector.  Which ones, and
    what they receive, is the collaborator's choice. *)
Definition UpdateMasters (sc det : nat) (ftype chktype : string) : M unit :=
  ws <- call (EvUpdateMasters sc det ftype chktype)
             (λ h, UpdateMasters_writes C h sc det ftype chktype) ;;
  modify (λ σ, set_heap (λ h0,
    foldl (λ h (w : nat * Attr * Value),
             if decide (sc < w.1.1) then
               match sciexp σ !! w.1.1 with
               | Some (Some e) => <[(refs e w.1.2, det - 1) := w.2]> h
               | _ => h
               end
             else h) h0 ws) σ).

(** The blocks that go through [calib_dict], lines 132-213: bias, arc,
    bad-pixel mask, pixel locations, slit trace. *)
Definition resolve_cached (slf : Exposure) (det : nat) (setup : Setup)
    : M (Value * Value * Value * Value) :=
  let sid := sci_ID slf in
  (* bias *)
  msbias <- cached setup Bias det
    (call (EvBuild Bias setup det sid [])
          (λ h, bias_master C h setup det sid)) ;;
  (* master arc *)
  msarc <- cached setup Arc det
    (call (EvBuild Arc setup det sid [msbias])
          (λ h, arc_master C h setup det sid msbias)) ;;
  (* bad pixel mask *)
  msbpm <- cached setup Bpm det
    (call (EvBuild Bpm setup det sid [msarc; msbias])
          (λ h, bpm_build C h det msarc msbias)) ;;
  (* physical pixel locations *)
  SetFrame slf a_pixlocn (gen_pixloc C msarc det) det ;;;
  (* slit tracing *)
  Tslits <- cached setup Trace det
    (loaded <- (if masters_reuse cfg || masters_force cfg
                then call (EvLoadMaster Trace setup)
                          (λ h, from_master_files C h setup)
                else ret None) ;;
     match loaded with
     | Some t => ret (VSlits t)
     | None =>
         pix <- slot slf a_pixlocn det ;;
         t <- call (EvBuild Trace setup det sid [msbias; pix; msbpm])
                   (λ h, trace_slits C h setup det sid msbias pix msbpm) ;;
         emit (EvSaveMaster Trace setup det) ;;;
         ret (VSlits t)
     end) ;;
  ret (msbias, msarc, msbpm, Tslits).

(** The blocks that work on the exposure itself, lines 215-258: the trace
    geometry is handed to [slf]; wavelength solution, tilts, flat field
    and wave image are resolved on [slf]. *)
Definition resolve_on_exposure (sc : nat) (slf : Exposure) (det : nat)
    (setup : Setup) (datasec_img msbias msarc Tslits : Value) : M unit :=
  let sid := sci_ID slf in
  match Tslits with
  | VSlits t =>
      SetFrame slf a_lordloc (VArr (lcen t)) det ;;;
      SetFrame slf a_rordloc (VArr (rcen t)) det ;;;
      SetFrame slf a_pixcen (VArr (pixcen t)) det ;;;
      SetFrame slf a_pixwid (VArr (pixwid t)) det ;;;
      SetFrame slf a_lordpix (VArr (lordpix t)) det ;;;
      SetFrame slf a_rordpix (VArr (rordpix t)) det ;;;
      SetFrame slf a_slitpix (VArr (slitpix t)) det
  | _ => raise AttributeError
  end ;;;
  (* maskslits *)
  lord <- slot slf a_lordloc det ;;
  modify (set_heap
    <[(refs slf a_maskslits, det - 1) := VMask (replicate (shape1 lord) false)]>) ;;;
  (* 1D wavelength solution *)
  block setup WvCalib det
    (vw <- the_view slf det ;;
     wc <- call (EvMethod WvCalib sid det [msarc])
                (λ h, MasterWaveCalib C h vw det msarc) ;;
     SetFrame slf a_wvcalib wc.2 det ;;;
     (if wc.1 && reuseMaster then UpdateMasters sc det "arc" "trace" else ret tt) ;;;
     slot slf a_wvcalib det) ;;;
  (* spectral tilt *)
  block setup Tilt det
    (cur <- slot slf a_tilts det ;;
     (if is_None cur then
        vw <- the_view slf det ;;
        tilts <- call (EvLoadMaster Tilt setup)
                      (λ h, load_master_frame C h vw setup "tilts") ;;
        if is_None tilts then
          r <- call (EvBuild Tilt setup det sid [msarc])
                    (λ h, multislit_tilt C h vw msarc det) ;;
          SetFrame slf a_tilts r.1.1 det ;;;
          SetFrame slf a_satmask r.1.2 det ;;;
          SetFrame slf a_tiltpar r.2 det ;;;
          emit (EvSaveMaster Tilt setup det)
        else SetFrame slf a_tilts tilts det
      else ret tt) ;;;
     slot slf a_tilts det) ;;;
  (* pixel flat field *)
  block setup Flat det
    (vw <- the_view slf det ;;
     fl <- call (EvMethod Flat sid det [msbias; datasec_img])
                (λ h, MasterFlatField C h vw det msbias datasec_img) ;;
     SetFrame slf a_mspixelflatnrm fl.1.2 det ;;;
     SetFrame slf a_slitprof fl.2 det ;;;
     (if fl.1.1 && reuseMaster then UpdateMasters sc det "flat" "pixelflat" else ret tt) ;;;
     slot slf a_mspixelflatnrm det) ;;;
  (* master wave frame *)
  block setup Wave det
    (vw <- the_view slf det ;;
     wv <- call (EvMethod Wave sid det [])
                (λ h, MasterWave C h vw sc det) ;;
     SetFrame slf a_mswave wv.2 det ;;;
     (if wv.1 && reuseMaster then UpdateMasters sc det "arc" "wave" else ret tt) ;;;
     slot slf a_mswave det) ;;;
  ret tt.

(** The calibration blocks of one (exposure, detector), lines 132-258. *)
Definition calibrate (sc : nat) (slf : Exposure) (det : nat) (setup : Setup)
    (datasec_img : Value) : M (Value * Value) :=
  r <- resolve_cached slf det setup ;;
  resolve_on_exposure sc slf det setup datasec_img r.1.1.1 r.1.1.2 r.2 ;;;
  ret (r.1.1.1, r.1.2).

(** [arload.load_frames(...)[:, :, 0]]; a frame that cannot be loaded is a
    [MissingInputError]. *)
Definition load_frame (row det : nat) (ft : FrameType) (msbias : Value) : M Value :=
  r <- call (EvLoadFrames row det ft msbias)
            (λ h, load_frames C h row det ft msbias) ;;
  match r with Some f => ret f | None => raise MissingInputError end.

(** Modelled from the spec: [arproc.reduce_multislit] is not in the
    sources; it "produces extracted object spectra and stores them on the
    exposure's Detector State". *)
Definition reduce (e : Exposure) (frame msbpm datasec_img : Value)
    (row det : nat) (std : bool) : M unit :=
  vw <- the_view e det ;;
  spec <- call (EvReduce std row det [frame; msbpm; datasec_img])
               (λ h, reduce_multislit C h vw frame msbpm datasec_img row det std) ;;
  SetFrame e a_specobjs spec det.

(** [for iattr in [...]: setattr(stdslf, '_'+iattr, getattr(slf, '_'+iattr))] *)
Definition share_attrs (slf stdslf : Exposure) : Exposure :=
  foldl (λ e a, set_ref a (refs slf a) e) stdslf shared_attrs.

(** Lines 286-307: the standard star of the science exposure. *)
Definition reduce_standard (slf : Exposure) (det : nat)
    (msbias msbpm datasec_img : Value) : M unit :=
  let std_idx := standard_rows tbl (sci_ID slf) in
  modify (set_std_idx_var (Some (IdxList std_idx))) ;;;
  match std_idx with
  | [] => ret tt
  | k :: _ =>
      modify (set_std_idx_var (Some (IdxInt k))) ;;;
      d <- gets std_dict ;;
      match dict_get k d with
      | None => raise KeyError
      | Some stdslf =>
          if extracted stdslf (det - 1) then ret tt
          else
            modify (set_std_dict (dict_alter (share_attrs slf) k)) ;;;
            stdframe <- load_frame k det standard msbias ;;
            reduce (share_attrs slf stdslf) stdframe msbpm datasec_img k det true ;;;
            modify (set_std_dict (dict_alter (set_extracted (det - 1) true) k))
      end
  end.

Definition det_skipped (det : nat) : bool :=
  match detnum cfg with
  | Some l => negb (bool_decide (det ∈ l))
  | None => false
  end.

(** The body of the loop on detectors, lines 95-307. *)
Definition reduce_detector (sc : nat) (slf : Exposure) (det : nat) : M unit :=
  if det_skipped det then ret tt
  else
    let setup := instr_setup tbl (sci_ID slf) det in
    modify (set_setup_var (Some setup)) ;;;
    let datasec_img := datasec_trimmed tbl det (idx_sci slf) in
    init_calib setup ;;;
    ms <- calibrate sc slf det setup datasec_img ;;
    sciframe <- load_frame (idx_sci slf) det science ms.1 ;;
    reduce slf sciframe ms.2 datasec_img (idx_sci slf) det false ;;;
    reduce_standard slf det ms.1 ms.2 datasec_img.

Definition spec1d_file (bn : string) : string :=
  science_dir cfg +:+ "/spec1d_" +:+ bn +:+ ".fits".

(** Modelled from the spec: the output writer ([arsave]) is not in the
    sources; a write that succeeds leaves the spectra in the file, a write
    that fails is a [WriteFailure]. *)
Definition save_1d (outfile : string) (specobjs : list Value) (hdr : PyIdx) : M unit :=
  ok <- call (EvSave1d outfile specobjs hdr) (λ h, save_1d_spectra_fits C h outfile) ;;
  if ok then modify (set_disk <[outfile := specobjs]>) else raise WriteFailure.

(** Lines 309-326. *)
Definition write_exposure (slf : Exposure) : M unit :=
  h <- gets heap ;;
  save_1d (spec1d_file (basename slf)) (attr_list h slf a_specobjs (ndet cfg))
          (IdxInt (idx_sci slf)) ;;;
  emit (EvSaveObjInfo (idx_sci slf)) ;;;
  emit (EvSave2d (idx_sci slf)).

(** The body of the loop on science exposures, lines 83-328. *)
Definition reduce_exposure (sc : nat) : M unit :=
  l <- gets sciexp ;;
  match l !! sc with
  | Some (Some slf) =>
      for_each (seq 1 (ndet cfg)) (reduce_detector sc slf) ;;;
      write_exposure slf ;;;
      modify (set_sciexp <[sc := None]>)
  | Some None => raise AttributeError
  | None => raise IndexError
  end.

(** Lines 330-334; the header row is the leftover [std_idx]. *)
Definition write_standards : M unit :=
  d <- gets std_dict ;;
  for_each d (λ p,
    h <- gets heap ;;
    hdr <- gets std_idx_var ;;
    match hdr with
    | None => raise NameError
    | Some i => save_1d (spec1d_file (basename p.2))
                        (attr_list h p.2 a_specobjs (ndet cfg)) i
    end).

(** One science file of the flux loop, lines 364-375. *)
Definition flux_one (sensfunc : Value) (basenames : list string) (kk : nat) : M unit :=
  match basenames !! kk with
  | None => raise IndexError
  | Some bn =>
      let f := spec1d_file bn in
      emit (EvLoadSpecobj f) ;;;
      dk <- gets disk ;;
      match dk !! f with
      | None => raise IOError
      | Some sci_specobjs =>
          emit (EvFluxScience f sensfunc) ;;;
          emit (EvWriteScience f) ;;;
          modify (set_disk <[f := flux_apply C sensfunc sci_specobjs]>)
      end
  end.

(** Lines 351-360: the sensitivity function comes from the standard at the
    first key of [std_dict], or from the archival file. *)
Definition build_sensfunc (d : list (nat * Exposure)) : M Value :=
  if String.eqb (sensfunc_archival cfg) "None" then
    match d with
    | [] => raise IndexError
    | (std_key, x) :: _ =>
        h <- gets heap ;;
        s <- gets setup_var ;;
        match s with
        | None => raise NameError
        | Some setup =>
            let std_specobjs := attr_list h x a_specobjs (ndet cfg) in
            call (EvSensMaster std_key std_specobjs setup)
                 (λ hi, sens_master C hi std_specobjs setup std_key)
        end
    end
  else call (EvSensArchival (sensfunc_archival cfg))
            (λ hi, sens_archival C hi (sensfunc_archival cfg)).

(** Lines 362-375: [for kk, sci_ID in enumerate(all_sci_ID)]. *)
Definition flux_all (sensfunc : Value) (all_sci_ID : option (list nat))
    (basenames : list string) : M unit :=
  match all_sci_ID with
  | None => raise NameError
  | Some ids => for_each (seq 0 (length ids)) (flux_one sensfunc basenames)
  end.

(** Lines 336-375. *)
Definition flux_stage (all_sci_ID : option (list nat)) (basenames : list string) : M unit :=
  d <- gets std_dict ;;
  if calibrate_flux cfg && bool_decide (0 < length d) then
    sensfunc <- build_sensfunc d ;;
    flux_all sensfunc all_sci_ID basenames
  else ret tt.

(** Lines 57-76: one [ScienceExposure] per science ID, and one per first
    standard not seen before. *)
Fixpoint init_loop (ids : list nat) (i : nat) (sv_std_idx : list nat)
    (basenames : list string) : M (list string) :=
  match ids with
  | [] => ret basenames
  | sid :: ids' =>
      let row := science_row tbl sid in
      let e := ScienceExposure (SciObj i) sid row (row_basename tbl row) in
      modify (set_heap (alloc (SciObj i))) ;;;
      modify (set_sciexp (λ l, l ++ [Some e])) ;;;
      let std_idx := standard_rows tbl sid in
      modify (set_std_idx_var (Some (IdxList std_idx))) ;;;
      sv <- match std_idx with
            | k :: _ =>
                if bool_decide (k ∈ sv_std_idx) then ret sv_std_idx
                else
                  modify (set_heap (alloc (StdObj k))) ;;;
                  modify (set_std_dict
                    (dict_set k (ScienceExposure (StdObj k) sid k (row_basename tbl k)))) ;;;
                  ret (sv_std_idx ++ [k])
            | [] => ret sv_std_idx
            end ;;
      init_loop ids' (S i) sv (basenames ++ [basename e])
  end.

(** Lines 57-77: the list of science exposures is built from the table
    unless the caller hands one in, in which case [all_sci_ID] stays
    unbound and [basenames] and [std_dict] stay empty. *)
Definition init_sciexp (sciexp_arg : option (list Exposure))
    : M (option (list nat) * list string) :=
  match sciexp_arg with
  | None =>
      bn <- init_loop (tbl_sci_IDs tbl) 0 [] [] ;;
      ret (Some (tbl_sci_IDs tbl), bn)
  | Some l =>
      modify (set_sciexp (λ _, Some <$> l)) ;;;
      ret (None, [])
  end.

(** [ARMS(fitstbl, setup_dict, reuseMaster, reloadMaster, sciexp)]. *)
Definition ARMS (sciexp_arg : option (list Exposure)) : M nat :=
  let status := 0 in
  names <- init_sciexp sciexp_arg ;;
  numsci <- gets (λ σ, length (sciexp σ)) ;;
  for_each (seq 0 numsci) reduce_exposure ;;;
  write_standards ;;;
  flux_stage names.1 names.2 ;;;
  ret status.

End Driver.

(** The state a run starts from: the caller's memory and disk. *)
Definition init_state (h0 : Heap) (disk0 : gmap string (list Value)) : RunState :=
  {| trace := []; calib_dict := ∅; heap := h0; sciexp := []; std_dict := [];
     disk := disk0; setup_var := None; std_idx_var := None |}.

(** * Reasoning about runs *)

(** ** Basic equations of the monad *)

Lemma bind_Ok {A B} (m : M A) (k : A → M B) σ a σ' :
  m σ = Ok a σ' → bind m k σ = k a σ'.
Proof. unfold bind. by intros ->. Qed.

Lemma bind_Raise {A B} (m : M A) (k : A → M B) σ e σ' :
  m σ = Raise e σ' → bind m k σ = Raise e σ'.
Proof. unfold bind. by intros ->. Qed.

Lemma bind_inv_Ok {A B} (m : M A) (k : A → M B) σ b σ' :
  bind m k σ = Ok b σ' → ∃ a σ1, m σ = Ok a σ1 ∧ k a σ1 = Ok b σ'.
Proof. unfold bind. destruct (m σ) as [a σ1|e σ1]; [eauto | done]. Qed.

Lemma for_each_app {A} (l1 l2 : list A) (body : A → M unit) σ :
  for_each (l1 ++ l2) body σ =
  match for_each l1 body σ with
  | Ok _ σ1 => for_each l2 body σ1
  | Raise e σ1 => Raise e σ1
  end.
Proof.
  revert σ. induction l1 as [|x l1 IH]; intros σ; simpl; [done|].
  unfold bind. destruct (body x σ) as [[] σ1|e σ1]; [apply IH | done].
Qed.

(** ** Properties that relate the state before and after a step

    [rel_spec R m]: whatever [m] does, and whether it returns or raises, the
    state it leaves is related by [R] to the state it started from.  For a
    preorder [R] this composes along [bind] and loops. *)

Definition rel_spec {A} (R : relation RunState) (m : M A) : Prop :=
  ∀ σ, R σ (final (m σ)).

Section rel.
Context (R : relation RunState) `{!PreOrder R}.

Lemma rel_ret {A} (a : A) : rel_spec R (ret a).
Proof. intros σ. simpl. reflexivity. Qed.

Lemma rel_raise {A} e : rel_spec R (@raise A e).
Proof. intros σ. simpl. reflexivity. Qed.

Lemma rel_gets {A} (f : RunState → A) : rel_spec R (gets f).
Proof. intros σ. simpl. reflexivity. Qed.

Lemma rel_bind {A B} (m : M A) (k : A → M B) :
  rel_spec R m → (∀ a, rel_spec R (k a)) → rel_spec R (bind m k).
Proof.
  intros Hm Hk σ. unfold bind. specialize (Hm σ).
  destruct (m σ) as [a σ1|e σ1]; simpl in *; [|done].
  etrans; [exact Hm | apply Hk].
Qed.

Lemma rel_for_each {A} (l : list A) (body : A → M unit) :
  (∀ x, rel_spec R (body x)) → rel_spec R (for_each l body).
Proof.
  intros Hb. induction l as [|x l IH]; simpl.
  - apply rel_ret.
  - apply rel_bind; [apply Hb | intros _; apply IH].
Qed.

Lemma rel_modify (f : RunState → RunState) :
  (∀ σ, R σ (f σ)) → rel_spec R (modify f).
Proof. intros Hf σ. apply Hf. Qed.

Lemma rel_call {A} ev (oracle : History → A) :
  (∀ σ, R σ (set_trace (λ t, t ++ [ev]) σ)) → rel_spec R (call ev oracle).
Proof. intros Hf σ. apply Hf. Qed.
End rel.

(** Walks through the binds, loops and branches of a program, trying
    [leaf] on each piece first; what is left are the pieces [leaf] does not
    know. *)
Ltac rel_walk_with leaf :=
  repeat first
    [ match goal with |- PreOrder _ => apply _ end
    | solve [leaf]
    | simple apply rel_ret | simple apply rel_raise | simple apply rel_gets
    | simple apply rel_bind
    | simple apply rel_for_each
    | match goal with
      | |- ∀ _, _ => intros ?
      | |- rel_spec _ (match ?x with _ => _ end) => destruct x
      | |- rel_spec _ (let _ := _ in _) => cbv zeta
      end ].

(** ** The trace only grows *)

Definition extends (σ σ' : RunState) : Prop := ∃ evs, trace σ' = trace σ ++ evs.

#[global] Instance extends_preorder : PreOrder extends.
Proof.
  split.
  - intros σ. exists []. by rewrite app_nil_r.
  - intros σ1 σ2 σ3 [e1 H1] [e2 H2]. exists (e1 ++ e2).
    by rewrite H2, H1, app_assoc.
Qed.

(** The events a step adds to the trace. *)
Definition emitted {A} (m : M A) (σ : RunState) : History :=
  drop (length (trace σ)) (trace (final (m σ))).


Lemma extends_modify (f : RunState → RunState) :
  (∀ σ, trace (f σ) = trace σ) → rel_spec extends (modify f).
Proof.
  intros Hf. apply rel_modify. intros σ. exists [].
  by rewrite Hf, app_nil_r.
Qed.

Lemma extends_call {A} ev (oracle : History → A) : rel_spec extends (call ev oracle).
Proof. apply rel_call. intros σ. by exists [ev]. Qed.

Create HintDb ext.
#[global] Hint Resolve extends_call : ext.
#[global] Hint Extern 1 (rel_spec extends (modify _)) =>
  (apply extends_modify; intros ?; reflexivity) : ext.

Ltac ext_walk := rel_walk_with ltac:(auto with ext).

Section DriverExtends.
Variable C : Collab.
Variable tbl : FitsTbl.
Variable cfg : Settings.
Variable reuseMaster : bool.

Lemma SetFrame_extends slf a v det : rel_spec extends (SetFrame slf a v det).
Proof. unfold SetFrame. ext_walk. Qed.

Lemma emit_extends ev : rel_spec extends (emit ev).
Proof. unfold emit. ext_walk. Qed.

Lemma block_extends S K det body :
  rel_spec extends body → rel_spec extends (block S K det body).
Proof. intros Hc. unfold block, emit. ext_walk. Qed.

Lemma cached_extends S K det compute :
  rel_spec extends compute → rel_spec extends (cached S K det compute).
Proof.
  intros Hc. unfold cached, lookup_or_compute. apply block_extends. ext_walk.
Qed.

Lemma UpdateMasters_extends sc det ft ct :
  rel_spec extends (UpdateMasters C sc det ft ct).
Proof. unfold UpdateMasters. ext_walk. Qed.

Hint Resolve SetFrame_extends emit_extends cached_extends UpdateMasters_extends : ext.

Lemma resolve_cached_extends slf det setup :
  rel_spec extends (resolve_cached C cfg slf det setup).
Proof.
  unfold resolve_cached, slot. ext_walk.
  all: apply cached_extends; ext_walk.
Qed.

Lemma resolve_on_exposure_extends sc slf det setup datasec_img msbias msarc Tslits :
  rel_spec extends
    (resolve_on_exposure C reuseMaster sc slf det setup datasec_img msbias msarc Tslits).
Proof.
  unfold resolve_on_exposure, slot, the_view. ext_walk.
  all: apply block_extends; ext_walk.
Qed.

Hint Resolve resolve_cached_extends resolve_on_exposure_extends : ext.

Lemma calibrate_extends sc slf det setup datasec_img :
  rel_spec extends (calibrate C cfg reuseMaster sc slf det setup datasec_img).
Proof. unfold calibrate. ext_walk. Qed.

Lemma load_frame_extends row det ft msbias :
  rel_spec extends (load_frame C row det ft msbias).
Proof. unfold load_frame. ext_walk. Qed.

Lemma reduce_extends e frame msbpm datasec_img row det std :
  rel_spec extends (reduce C e frame msbpm datasec_img row det std).
Proof. unfold reduce, the_view. ext_walk. Qed.

Hint Resolve calibrate_extends load_frame_extends reduce_extends : ext.

Lemma reduce_standard_extends slf det msbias msbpm datasec_img :
  rel_spec extends (reduce_standard C tbl slf det msbias msbpm datasec_img).
Proof. unfold reduce_standard. ext_walk. Qed.

Hint Resolve reduce_standard_extends : ext.

Lemma reduce_detector_extends sc slf det :
  rel_spec extends (reduce_detector C tbl cfg reuseMaster sc slf det).
Proof. unfold reduce_detector, init_calib. ext_walk. Qed.

Lemma save_1d_extends outfile specobjs hdr :
  rel_spec extends (save_1d C outfile specobjs hdr).
Proof. unfold save_1d. ext_walk. Qed.

Hint Resolve reduce_detector_extends save_1d_extends : ext.

Lemma write_exposure_extends slf : rel_spec extends (write_exposure C cfg slf).
Proof. unfold write_exposure. ext_walk. Qed.

Hint Resolve write_exposure_extends : ext.

Lemma reduce_exposure_extends sc :
  rel_spec extends (reduce_exposure C tbl cfg reuseMaster sc).
Proof. unfold reduce_exposure. ext_walk. Qed.

Lemma write_standards_extends : rel_spec extends (write_standards C cfg).
Proof. unfold write_standards. ext_walk. Qed.

Lemma flux_one_extends sensfunc basenames kk :
  rel_spec extends (flux_one C cfg sensfunc basenames kk).
Proof. unfold flux_one. ext_walk. Qed.

Hint Resolve flux_one_extends : ext.

Lemma flux_stage_extends ids basenames :
  rel_spec extends (flux_stage C cfg ids basenames).
Proof. unfold flux_stage, build_sensfunc, flux_all. ext_walk. Qed.

Lemma init_loop_extends ids i sv bn :
  rel_spec extends (init_loop tbl ids i sv bn).
Proof.
  revert i sv bn. induction ids as [|sid ids IH]; intros i sv bn; simpl.
  - ext_walk.
  - ext_walk.
Qed.

Hint Resolve reduce_exposure_extends write_standards_extends
  flux_stage_extends init_loop_extends : ext.

Lemma ARMS_extends arg : rel_spec extends (ARMS C tbl cfg reuseMaster arg).
Proof. unfold ARMS, init_sciexp. ext_walk. Qed.

End DriverExtends.

(** ** The calibration cache *)

Definition count (p : Event → bool) (t : History) : nat := length (List.filter p t).

Lemma count_app p t1 t2 : count p (t1 ++ t2) = count p t1 + count p t2.
Proof. unfold count. by rewrite List.filter_app, length_app. Qed.

Lemma count_zero p t : Forall (λ ev, p ev = false) t → count p t = 0.
Proof.
  unfold count. induction 1 as [|ev t Hev _ IH]; simpl; [done|]. by rewrite Hev.
Qed.

(** A collaborator computes product [K] of setup [S]. *)
Definition is_build (S : Setup) (K : Kind) (ev : Event) : bool :=
  match ev with
  | EvBuild K' S' _ _ _ => bool_decide (K' = K ∧ S' = S)
  | _ => false
  end.

(** The master-product store is asked for product [K] of setup [S]. *)
Definition is_load (S : Setup) (K : Kind) (ev : Event) : bool :=
  match ev with
  | EvLoadMaster K' S' => bool_decide (K' = K ∧ S' = S)
  | _ => false
  end.

(** [calib_dict[S][K]], when both keys are there. *)
Definition stored (S : Setup) (K : Kind) (σ : RunState) : option Value :=
  calib_dict σ !! S ≫= λ r, r !! K.


(** Block [K] of setup [S] ends with value [v]. *)
Definition is_resolved (S : Setup) (K : Kind) (ev : Event) : bool :=
  match ev with
  | EvResolved K' S' _ _ => bool_decide (K' = K ∧ S' = S)
  | _ => false
  end.

(** The events that say something about product [K] of setup [S]. *)
Definition about (S : Setup) (K : Kind) (ev : Event) : bool :=
  is_build S K ev || is_load S K ev || is_resolved S K ev.

(** How one cached product fares over a stretch of a run that adds the
    events [evs]: a stored value stays, is neither computed nor loaded
    again, and every block goes on with it; a product that is not stored
    either stays untouched, or is loaded and computed at most once each
    and at least once together, stored, and handed on as stored. *)
Definition key_step (S : Setup) (K : Kind) (σ σ' : RunState) (evs : History) : Prop :=
  match stored S K σ, stored S K σ' with
  | Some v, o' =>
      o' = Some v ∧ count (is_build S K) evs = 0 ∧ count (is_load S K) evs = 0 ∧
      ∀ det v', EvResolved K S det v' ∈ evs → v' = v
  | None, None =>
      count (is_build S K) evs = 0 ∧ count (is_load S K) evs = 0 ∧
      ∀ det v', EvResolved K S det v' ∉ evs
  | None, Some v =>
      count (is_build S K) evs ≤ 1 ∧ count (is_load S K) evs ≤ 1 ∧
      1 ≤ count (is_build S K) evs + count (is_load S K) evs ∧
      ∀ det v', EvResolved K S det v' ∈ evs → v' = v
  end.

Definition cache_step : relation RunState := λ σ σ',
  ∃ evs, trace σ' = trace σ ++ evs ∧
         ∀ S K, cached_kind K = true → key_step S K σ σ' evs.

Lemma about_false S K ev :
  about S K ev = false →
  is_build S K ev = false ∧ is_load S K ev = false ∧
  ∀ det v, ev ≠ EvResolved K S det v.
Proof.
  unfold about. intros [[H1 H2]%orb_false_elim H3]%orb_false_elim.
  split_and!; [done | done |]. intros det v ->. simpl in H3.
  apply bool_decide_eq_false in H3. by destruct H3.
Qed.

Lemma key_step_quiet S K σ σ' evs :
  stored S K σ' = stored S K σ →
  Forall (λ ev, about S K ev = false) evs →
  key_step S K σ σ' evs.
Proof.
  intros Hs Hq. unfold key_step. rewrite Hs.
  assert (Hb : count (is_build S K) evs = 0).
  { apply count_zero. eapply List.Forall_impl; [|exact Hq].
    intros ev Hev. by apply about_false in Hev as (? & ? & ?). }
  assert (Hl : count (is_load S K) evs = 0).
  { apply count_zero. eapply List.Forall_impl; [|exact Hq].
    intros ev Hev. by apply about_false in Hev as (? & ? & ?). }
  assert (Hr : ∀ det v, EvResolved K S det v ∉ evs).
  { intros det v Hin. rewrite list.Forall_forall in Hq.
    apply Hq, about_false in Hin as (_ & _ & Hin). by eapply Hin. }
  destruct (stored S K σ) as [v|]; [|done].
  split_and!; [done | done | done |]. intros det v' Hin. by apply Hr in Hin.
Qed.

#[global] Instance cache_step_preorder : PreOrder cache_step.
Proof.
  split.
  - intros σ. exists []. split; [by rewrite app_nil_r|]. intros S K _.
    by apply key_step_quiet.
  - intros σ1 σ2 σ3 (e1 & Ht1 & H1) (e2 & Ht2 & H2). exists (e1 ++ e2).
    split; [by rewrite Ht2, Ht1, app_assoc|]. intros S K HK.
    specialize (H1 S K HK). specialize (H2 S K HK). unfold key_step in *.
    rewrite !count_app.
    destruct (stored S K σ1) as [v1|], (stored S K σ2) as [v2|],
      (stored S K σ3) as [v3|]; try (destruct H1 as (? & _); congruence);
      try (destruct H2 as (? & _); congruence).
    + destruct H1 as ([= <-] & ? & ? & Hr1), H2 as ([= <-] & ? & ? & Hr2).
      split_and!; [done | lia | lia |].
      intros det v' [?|?]%elem_of_app; eauto.
    + destruct H1 as (? & ? & ? & Hr1), H2 as ([= <-] & ? & ? & Hr2).
      split_and!; [lia | lia | lia |].
      intros det v' [?|?]%elem_of_app; eauto.
    + destruct H1 as (? & ? & Hr1), H2 as (? & ? & ? & Hr2).
      split_and!; [lia | lia | lia |].
      intros det v' [Hin|?]%elem_of_app; [by apply Hr1 in Hin | eauto].
    + destruct H1 as (? & ? & Hr1), H2 as (? & ? & Hr2).
      split_and!; [lia | lia |].
      intros det v' [Hin|Hin]%elem_of_app; [by apply Hr1 in Hin | by apply Hr2 in Hin].
Qed.

(** Events that say nothing about a cached product. *)
Definition benign (ev : Event) : bool :=
  match ev with
  | EvBuild K _ _ _ _ | EvLoadMaster K _ | EvResolved K _ _ _ => negb (cached_kind K)
  | _ => true
  end.

Lemma benign_about S K ev :
  cached_kind K = true → benign ev = true → about S K ev = false.
Proof.
  intros HK Hb. unfold about.
  destruct ev; simpl in *; try done; rewrite ?orb_false_r;
    apply bool_decide_eq_false; intros [-> _]; by rewrite HK in Hb.
Qed.

Lemma cache_step_benign σ σ' evs :
  trace σ' = trace σ ++ evs → calib_dict σ' = calib_dict σ →
  Forall (λ ev, benign ev = true) evs → cache_step σ σ'.
Proof.
  intros Ht Hc Hb. exists evs. split; [done|]. intros S K HK.
  apply key_step_quiet; [unfold stored; by rewrite Hc|].
  eapply List.Forall_impl; [|exact Hb]. intros ev. by apply benign_about.
Qed.

Lemma cache_step_call {A} ev (oracle : History → A) :
  benign ev = true → rel_spec cache_step (call ev oracle).
Proof.
  intros Hb. apply rel_call. intros σ.
  apply (cache_step_benign σ _ [ev]); [done | done | by constructor].
Qed.

Lemma cache_step_modify (f : RunState → RunState) :
  (∀ σ, trace (f σ) = trace σ) → (∀ σ, calib_dict (f σ) = calib_dict σ) →
  rel_spec cache_step (modify f).
Proof.
  intros Ht Hc. apply rel_modify. intros σ.
  apply (cache_step_benign σ _ []); [by rewrite Ht, app_nil_r | done | constructor].
Qed.

(** A new setup gets an empty record: nothing becomes stored. *)
Lemma stored_init_calib S S' K σ :
  stored S' K (set_calib_dict (λ d,
      match d !! S with Some _ => d | None => <[S := ∅]> d end) σ) = stored S' K σ.
Proof.
  unfold stored. simpl. destruct (calib_dict σ !! S) eqn:E; [done|].
  destruct (decide (S = S')) as [->|Hne].
  - by rewrite lookup_insert_eq, E.
  - by rewrite lookup_insert_ne.
Qed.

Lemma cache_step_init_calib S : rel_spec cache_step (init_calib S).
Proof.
  apply rel_modify. intros σ. exists []. split; [by rewrite app_nil_r|].
  intros S' K _. apply key_step_quiet; [apply stored_init_calib | constructor].
Qed.

(** What [cached] needs of the computation it guards: it returns, leaves
    [calib_dict] alone, and of the cached products it touches only [K] of
    [S], which it loads or builds, each at most once. *)
Definition computes (S : Setup) (K : Kind) (compute : M Value) : Prop :=
  ∀ σ, ∃ v σ' evs,
    compute σ = Ok v σ' ∧ trace σ' = trace σ ++ evs ∧
    calib_dict σ' = calib_dict σ ∧
    count (is_build S K) evs ≤ 1 ∧ count (is_load S K) evs ≤ 1 ∧
    1 ≤ count (is_build S K) evs + count (is_load S K) evs ∧
    Forall (λ ev, benign ev = true ∨ is_build S K ev = true ∨ is_load S K ev = true) evs.

Lemma own_event_other S K S' K' ev :
  cached_kind K' = true → (S', K') ≠ (S, K) →
  benign ev = true ∨ is_build S K ev = true ∨ is_load S K ev = true →
  about S' K' ev = false.
Proof.
  intros HK Hne [Hb|[Hb|Hb]].
  - by apply benign_about.
  - unfold about. destruct ev; simpl in *; try done. rewrite !orb_false_r.
    apply bool_decide_eq_true in Hb as [-> ->].
    apply bool_decide_eq_false. by intros [-> ->].
  - unfold about. destruct ev; simpl in *; try done. rewrite !orb_false_r.
    apply bool_decide_eq_true in Hb as [-> ->].
    apply bool_decide_eq_false. by intros [-> ->].
Qed.

Lemma own_event_not_resolved S K S' K' det v ev :
  cached_kind K' = true →
  benign ev = true ∨ is_build S K ev = true ∨ is_load S K ev = true →
  ev ≠ EvResolved K' S' det v.
Proof.
  intros HK [Hb|[Hb|Hb]] ->; simpl in *; try done. by rewrite HK in Hb.
Qed.

Lemma stored_insert S K v r S' K' σ :
  stored S' K' (set_calib_dict <[S := <[K := v]> r]> σ) =
  if decide (S = S') then (<[K := v]> r) !! K' else stored S' K' σ.
Proof.
  unfold stored. simpl. rewrite lookup_insert. by case_decide.
Qed.

Lemma stored_set_trace S K f σ : stored S K (set_trace f σ) = stored S K σ.
Proof. done. Qed.

Lemma cache_step_cached S K det compute :
  cached_kind K = true → computes S K compute →
  rel_spec cache_step (cached S K det compute).
Proof.
  intros HK Hcomp σ.
  unfold cached, block, emit, lookup_or_compute, bind, call, gets. simpl.
  destruct (calib_dict σ !! S) as [r|] eqn:Er.
  2:{ simpl. apply (cache_step_benign σ _ [EvResolve K S det]);
        [done | done | by constructor]. }
  destruct (r !! K) as [v|] eqn:Ev; simpl.
  - (* hit *)
    exists [EvResolve K S det; EvResolved K S det v].
    split; [simpl; by rewrite <- app_assoc|]. intros S' K' HK'.
    destruct (decide ((S', K') = (S, K))) as [[= -> ->]|Hne].
    + unfold key_step, stored. simpl. rewrite Er. simpl. rewrite Ev.
      split_and!; [done | | |].
      * unfold count. simpl. done.
      * unfold count. simpl. done.
      * intros det0 v' Hin. apply list_elem_of_In in Hin.
        destruct Hin as [Hin|[Hin|[]]]; [done|]. by injection Hin as ->.
    + apply key_step_quiet; [done|].
      repeat apply Forall_cons; [done | | apply Forall_nil].
      unfold about. simpl. apply bool_decide_eq_false. intros [-> ->]. done.
  - (* miss *)
    destruct (Hcomp (set_trace (λ t, t ++ [EvResolve K S det]) σ))
      as (v & σc & evs & -> & Ht & Hc & Hb & Hl & Hbl & Hown).
    simpl in Hc, Ht. rewrite Hc, Er. simpl.
    exists ([EvResolve K S det] ++ evs ++ [EvResolved K S det v]).
    split; [simpl; rewrite Ht; by rewrite <- !app_assoc|]. intros S' K' HK'.
    destruct (decide ((S', K') = (S, K))) as [[= -> ->]|Hne].
    + unfold key_step. rewrite stored_set_trace, stored_insert.
      rewrite decide_True by done. rewrite lookup_insert_eq.
      assert (Hs : stored S K σ = None) by (unfold stored; by rewrite Er).
      rewrite Hs. rewrite !count_app.
      change (count (is_build S K) [EvResolve K S det]) with 0.
      change (count (is_load S K) [EvResolve K S det]) with 0.
      change (count (is_build S K) [EvResolved K S det v]) with 0.
      change (count (is_load S K) [EvResolved K S det v]) with 0.
      split_and!; [lia | lia | lia |].
      intros det0 v' [Hin|[Hin|Hin]%elem_of_app]%elem_of_app.
      * by apply list_elem_of_singleton in Hin.
      * rewrite list.Forall_forall in Hown. specialize (Hown _ Hin).
        by eapply own_event_not_resolved in Hown.
      * apply list_elem_of_singleton in Hin. by injection Hin as ->.
    + apply key_step_quiet.
      * rewrite stored_set_trace, stored_insert. case_decide as Hd; [|
          unfold stored; by rewrite Hc].
        subst S'. unfold stored. rewrite Er. simpl.
        rewrite lookup_insert_ne; [done|]. congruence.
      * apply Forall_app. split; [by repeat constructor|].
        apply Forall_app. split.
        -- eapply List.Forall_impl; [|exact Hown]. intros ev.
           by apply own_event_other.
        -- repeat apply Forall_cons; [|apply Forall_nil].
           unfold about. simpl. apply bool_decide_eq_false. by intros [-> ->].
Qed.

(** After a cached block has returned, its product is stored. *)
Lemma cached_stored S K det compute σ v σ' :
  (∀ σ, calib_dict (final (compute σ)) = calib_dict σ) →
  cached S K det compute σ = Ok v σ' → stored S K σ' = Some v.
Proof.
  intros Hc. unfold cached, block, emit, lookup_or_compute, bind, call, gets.
  simpl. destruct (calib_dict σ !! S) as [r|] eqn:Er; [|done].
  destruct (r !! K) as [v0|] eqn:Ev; simpl.
  - intros [= <- <-]. unfold stored. simpl. by rewrite Er.
  - specialize (Hc (set_trace (λ t, t ++ [EvResolve K S det]) σ)).
    destruct (compute _) as [v1 σc|e σc]; [|done]. simpl in Hc.
    rewrite Hc, Er. simpl. intros [= <- <-].
    rewrite stored_set_trace, stored_insert, decide_True by done.
    by rewrite lookup_insert_eq.
Qed.

(** A hit hands on the stored value and calls no collaborator. *)
Lemma cached_hit S K det compute σ v :
  stored S K σ = Some v →
  cached S K det compute σ =
  Ok v (set_trace (λ t, t ++ [EvResolve K S det; EvResolved K S det v]) σ).
Proof.
  unfold stored, cached, block, emit, lookup_or_compute, bind, call, gets.
  simpl. destruct (calib_dict σ !! S) as [r|]; [|done]. simpl.
  intros ->. simpl. unfold set_trace. simpl. by rewrite <- app_assoc.
Qed.

Create HintDb cache.
#[global] Hint Extern 1 (rel_spec cache_step (call _ _)) =>
  (apply cache_step_call; reflexivity) : cache.
#[global] Hint Extern 1 (rel_spec cache_step (modify _)) =>
  (apply cache_step_modify; intros ?; reflexivity) : cache.
#[global] Hint Resolve cache_step_init_calib : cache.

Ltac cache_walk := rel_walk_with ltac:(auto with cache).

Ltac count_tac :=
  unfold count; simpl; rewrite ?bool_decide_eq_true_2 by done; simpl; lia.

Ltac own_tac :=
  repeat (apply Forall_cons;
          [ first [ left; reflexivity
                  | right; left; simpl; by apply bool_decide_eq_true
                  | right; right; simpl; by apply bool_decide_eq_true ] | ]);
  apply Forall_nil.

Section DriverCache.
Variable C : Collab.
Variable tbl : FitsTbl.
Variable cfg : Settings.
Variable reuseMaster : bool.

Lemma computes_call S K det sid inputs (oracle : History → Value) :
  computes S K (call (EvBuild K S det sid inputs) oracle).
Proof.
  intros σ. eexists _, _, [_]. split_and!; [done | done | done | | | |].
  - count_tac.
  - count_tac.
  - count_tac.
  - own_tac.
Qed.

Lemma computes_trace S det sid slf msbias msbpm :
  computes S Trace
    (loaded <- (if masters_reuse cfg || masters_force cfg
                then call (EvLoadMaster Trace S)
                          (λ h, from_master_files C h S)
                else ret None) ;;
     match loaded with
     | Some t => ret (VSlits t)
     | None =>
         pix <- slot slf a_pixlocn det ;;
         t <- call (EvBuild Trace S det sid [msbias; pix; msbpm])
                   (λ h, trace_slits C h S det sid msbias pix msbpm) ;;
         emit (EvSaveMaster Trace S det) ;;;
         ret (VSlits t)
     end).
Proof.
  intros σ. unfold bind, call, emit, slot, gets, ret, call.
  destruct (masters_reuse cfg || masters_force cfg); simpl.
  - destruct (from_master_files C (trace σ) S); simpl.
    + eexists _, _, [_]. split_and!; [done | done | done | | | | ].
      * count_tac.
      * count_tac.
      * count_tac.
      * own_tac.
    + eexists _, _, [_; _; _]. split_and!; [done | | done | | | | ].
      * simpl. by rewrite <- !app_assoc.
      * count_tac.
      * count_tac.
      * count_tac.
      * own_tac.
  - eexists _, _, [_; _]. split_and!; [done | | done | | | | ].
    + simpl. by rewrite <- !app_assoc.
    + count_tac.
    + count_tac.
    + count_tac.
    + own_tac.
Qed.

Lemma SetFrame_cache_step slf a v det : rel_spec cache_step (SetFrame slf a v det).
Proof. unfold SetFrame. cache_walk. Qed.

Lemma UpdateMasters_cache_step sc det ft ct :
  rel_spec cache_step (UpdateMasters C sc det ft ct).
Proof. unfold UpdateMasters. cache_walk. Qed.

Hint Resolve SetFrame_cache_step UpdateMasters_cache_step : cache.

Lemma resolve_cached_cache_step slf det setup :
  rel_spec cache_step (resolve_cached C cfg slf det setup).
Proof.
  unfold resolve_cached. cache_walk.
  all: apply cache_step_cached;
    [reflexivity | first [apply computes_call | apply computes_trace]].
Qed.

Lemma resolve_on_exposure_cache_step sc slf det setup datasec_img msbias msarc Tslits :
  rel_spec cache_step
    (resolve_on_exposure C reuseMaster sc slf det setup datasec_img msbias msarc Tslits).
Proof.
  unfold resolve_on_exposure, block, emit, slot, the_view. cache_walk.
Qed.

Hint Resolve resolve_cached_cache_step resolve_on_exposure_cache_step : cache.

Lemma calibrate_cache_step sc slf det setup datasec_img :
  rel_spec cache_step (calibrate C cfg reuseMaster sc slf det setup datasec_img).
Proof. unfold calibrate. cache_walk. Qed.

Lemma load_frame_cache_step row det ft msbias :
  rel_spec cache_step (load_frame C row det ft msbias).
Proof. unfold load_frame. cache_walk. Qed.

Lemma reduce_cache_step e frame msbpm datasec_img row det std :
  rel_spec cache_step (reduce C e frame msbpm datasec_img row det std).
Proof. unfold reduce, the_view. cache_walk. Qed.

Hint Resolve calibrate_cache_step load_frame_cache_step reduce_cache_step : cache.

Lemma reduce_standard_cache_step slf det msbias msbpm datasec_img :
  rel_spec cache_step (reduce_standard C tbl slf det msbias msbpm datasec_img).
Proof. unfold reduce_standard. cache_walk. Qed.

Hint Resolve reduce_standard_cache_step : cache.

Lemma reduce_detector_cache_step sc slf det :
  rel_spec cache_step (reduce_detector C tbl cfg reuseMaster sc slf det).
Proof. unfold reduce_detector. cache_walk. Qed.

Lemma save_1d_cache_step outfile specobjs hdr :
  rel_spec cache_step (save_1d C outfile specobjs hdr).
Proof. unfold save_1d. cache_walk. Qed.

Hint Resolve reduce_detector_cache_step save_1d_cache_step : cache.

Lemma reduce_exposure_cache_step sc :
  rel_spec cache_step (reduce_exposure C tbl cfg reuseMaster sc).
Proof. unfold reduce_exposure, write_exposure, emit. cache_walk. Qed.

Lemma write_standards_cache_step : rel_spec cache_step (write_standards C cfg).
Proof. unfold write_standards. cache_walk. Qed.

Lemma flux_stage_cache_step ids basenames :
  rel_spec cache_step (flux_stage C cfg ids basenames).
Proof. unfold flux_stage, build_sensfunc, flux_all, flux_one, emit. cache_walk. Qed.

Lemma init_loop_cache_step ids i sv bn :
  rel_spec cache_step (init_loop tbl ids i sv bn).
Proof.
  revert i sv bn. induction ids as [|sid ids IH]; intros i sv bn; simpl; cache_walk.
Qed.

Hint Resolve reduce_exposure_cache_step write_standards_cache_step
  flux_stage_cache_step init_loop_cache_step : cache.

Lemma ARMS_cache_step arg : rel_spec cache_step (ARMS C tbl cfg reuseMaster arg).
Proof. unfold ARMS, init_sciexp. cache_walk. Qed.

End DriverCache.


(** C1.  Over a whole run of [ARMS], each product the driver keeps in
    [calib_dict] (bias, arc, bad-pixel mask, trace) is built at most once
    and loaded from the master store at most once for a setup, and every
    block that resolves it, on whatever exposure and detector, goes on with
    one and the same value: the one stored by the first resolution. *)
Theorem calibration_product_computed_once
    C tbl cfg reuseMaster arg h0 disk0 (S : Setup) (K : Kind) :
  cached_kind K = true →
  let t := trace (final (ARMS C tbl cfg reuseMaster arg (init_state h0 disk0))) in
  count (is_build S K) t ≤ 1 ∧ count (is_load S K) t ≤ 1 ∧
  ∀ det1 det2 v1 v2,
    EvResolved K S det1 v1 ∈ t → EvResolved K S det2 v2 ∈ t → v1 = v2.
Proof.
  intros HK.
  destruct (ARMS_cache_step C tbl cfg reuseMaster arg (init_state h0 disk0))
    as (evs & Ht & Hk).
  specialize (Hk S K HK). simpl in Ht. cbv zeta. rewrite Ht. clear Ht.
  unfold key_step in Hk. change (stored S K (init_state h0 disk0)) with (@None Value) in Hk.
  destruct (stored S K _) as [v|].
  - destruct Hk as (Hb & Hl & _ & Hr). split_and!; [done | done |].
    intros det1 det2 v1 v2 Hin1 Hin2. by rewrite (Hr _ _ Hin1), (Hr _ _ Hin2).
  - destruct Hk as (-> & -> & Hr). split_and!; [lia | lia |].
    intros det1 det2 v1 v2 Hin1. by apply Hr in Hin1.
Qed.

#[global] Hint Resolve SetFrame_cache_step UpdateMasters_cache_step
  resolve_cached_cache_step resolve_on_exposure_cache_step
  calibrate_cache_step load_frame_cache_step reduce_cache_step
  reduce_standard_cache_step reduce_detector_cache_step : cache.

#[global] Hint Resolve SetFrame_extends emit_extends block_extends cached_extends
  UpdateMasters_extends resolve_cached_extends resolve_on_exposure_extends
  calibrate_extends load_frame_extends reduce_extends reduce_standard_extends
  reduce_detector_extends : ext.

Lemma rel_spec_Ok {A} R (m : M A) σ a σ' :
  rel_spec R m → m σ = Ok a σ' → R σ σ'.
Proof. intros Hr Hm. specialize (Hr σ). by rewrite Hm in Hr. Qed.

Lemma bind_assoc {A B D} (m : M A) (k1 : A → M B) (k2 : B → M D) σ :
  bind (bind m k1) k2 σ = bind m (λ a, bind (k1 a) k2) σ.
Proof. unfold bind. by destruct (m σ). Qed.

Lemma emitted_Ok {A} (m : M A) σ a σ' evs :
  m σ = Ok a σ' → trace σ' = trace σ ++ evs → emitted m σ = evs.
Proof.
  intros Hm Ht. unfold emitted. rewrite Hm. simpl. by rewrite Ht, drop_app_length.
Qed.

Lemma emitted_final {A} (m : M A) σ evs :
  trace (final (m σ)) = trace σ ++ evs → emitted m σ = evs.
Proof. intros Ht. unfold emitted. by rewrite Ht, drop_app_length. Qed.

(** A stored product stays stored, with its value, over any stretch that
    respects the cache. *)
Lemma cache_step_stored S K σ σ' v :
  cached_kind K = true → cache_step σ σ' → stored S K σ = Some v →
  stored S K σ' = Some v.
Proof.
  intros HK (evs & _ & Hk) Hs. specialize (Hk S K HK). unfold key_step in Hk.
  rewrite Hs in Hk. by destruct Hk.
Qed.

(** No master is ever asked of the store for bias, arc or bad-pixel mask. *)
Definition load_kind_ok (ev : Event) : bool :=
  match ev with
  | EvLoadMaster K _ => match K with Trace | Tilt => true | _ => false end
  | _ => true
  end.

Definition emits_only (P : Event → bool) : relation RunState := λ σ σ',
  ∃ evs, trace σ' = trace σ ++ evs ∧ Forall (λ ev, P ev = true) evs.

#[global] Instance emits_only_preorder P : PreOrder (emits_only P).
Proof.
  split.
  - intros σ. exists []. split; [by rewrite app_nil_r | constructor].
  - intros σ1 σ2 σ3 (e1 & H1 & F1) (e2 & H2 & F2). exists (e1 ++ e2).
    split; [by rewrite H2, H1, app_assoc | by apply Forall_app].
Qed.

Lemma emits_only_call {A} P ev (oracle : History → A) :
  P ev = true → rel_spec (emits_only P) (call ev oracle).
Proof.
  intros HP. apply rel_call. intros σ. exists [ev]. split; [done | by constructor].
Qed.

Lemma emits_only_modify P (f : RunState → RunState) :
  (∀ σ, trace (f σ) = trace σ) → rel_spec (emits_only P) (modify f).
Proof.
  intros Hf. apply rel_modify. intros σ. exists [].
  split; [by rewrite Hf, app_nil_r | constructor].
Qed.

Create HintDb only.
#[global] Hint Extern 1 (rel_spec (emits_only _) (call _ _)) =>
  (apply emits_only_call; reflexivity) : only.
#[global] Hint Extern 1 (rel_spec (emits_only _) (modify _)) =>
  (apply emits_only_modify; intros ?; reflexivity) : only.

Ltac only_walk := rel_walk_with ltac:(auto with only).

(** Unfolds the body of the loop on detectors down to the monad's
    primitives. *)
Ltac unfold_detector :=
  unfold reduce_detector, init_calib, calibrate, reduce_standard,
    resolve_cached, resolve_on_exposure, cached, block, lookup_or_compute,
    UpdateMasters, load_frame, reduce, SetFrame, slot, the_view, emit.

Lemma reduce_detector_load_kinds C tbl cfg reuseMaster sc slf det :
  rel_spec (emits_only load_kind_ok)
    (reduce_detector C tbl cfg reuseMaster sc slf det).
Proof. unfold_detector. only_walk. Qed.

Lemma count_load_zero S K evs :
  K ≠ Trace → K ≠ Tilt →
  Forall (λ ev, load_kind_ok ev = true) evs → count (is_load S K) evs = 0.
Proof.
  intros H1 H2 Hf. apply count_zero. eapply List.Forall_impl; [|exact Hf].
  intros ev Hev. destruct ev; simpl in *; try done.
  apply bool_decide_eq_false. intros [-> _]. by destruct K.
Qed.

Section TwoReductions.
Variable C : Collab.
Variable tbl : FitsTbl.
Variable cfg : Settings.
Variable reuseMaster : bool.

(** When the cached blocks return, what they return is what is stored. *)
Lemma resolve_cached_stored slf det S σ r σ' :
  resolve_cached C cfg slf det S σ = Ok r σ' →
  stored S Bias σ' = Some r.1.1.1 ∧ stored S Arc σ' = Some r.1.1.2 ∧
  stored S Bpm σ' = Some r.1.2 ∧ stored S Trace σ' = Some r.2.
Proof.
  unfold resolve_cached. intros H.
  apply bind_inv_Ok in H as (msbias & σ1 & H1 & H).
  apply bind_inv_Ok in H as (msarc & σ2 & H2 & H).
  apply bind_inv_Ok in H as (msbpm & σ3 & H3 & H).
  apply bind_inv_Ok in H as ([] & σ4 & H4 & H).
  apply bind_inv_Ok in H as (Tslits & σ5 & H5 & H).
  injection H as <- <-. simpl.
  apply cached_stored in H1 as S1; [|done].
  apply cached_stored in H2 as S2; [|done].
  apply cached_stored in H3 as S3; [|done].
  apply cached_stored in H5 as S5.
  2:{ intros σ0. destruct (computes_trace C cfg S det (sci_ID slf) slf msbias msbpm σ0)
        as (v & σc & evs & -> & _ & Hc & _). done. }
  assert (R2 : cache_step σ1 σ2).
  { eapply rel_spec_Ok; [|exact H2]. apply cache_step_cached; [done|apply computes_call]. }
  assert (R3 : cache_step σ2 σ3).
  { eapply rel_spec_Ok; [|exact H3]. apply cache_step_cached; [done|apply computes_call]. }
  assert (R4 : cache_step σ3 σ4).
  { eapply rel_spec_Ok; [|exact H4]. apply SetFrame_cache_step. }
  assert (R5 : cache_step σ4 σ5).
  { eapply rel_spec_Ok; [|exact H5]. apply cache_step_cached; [done|apply computes_trace]. }
  split_and!; [| | |done].
  - by do 4 (eapply cache_step_stored; [done | eassumption |]).
  - by do 3 (eapply cache_step_stored; [done | eassumption |]).
  - by do 2 (eapply cache_step_stored; [done | eassumption |]).
Qed.

(** After a per-detector reduction has returned, the four cached products
    of its setup are stored. *)
Lemma reduce_detector_stored sc slf det σ σ' K :
  det_skipped cfg det = false → cached_kind K = true →
  reduce_detector C tbl cfg reuseMaster sc slf det σ = Ok tt σ' →
  is_Some (stored (instr_setup tbl (sci_ID slf) det) K σ').
Proof.
  intros Hskip HK. unfold reduce_detector. rewrite Hskip. cbv zeta.
  set (S := instr_setup tbl (sci_ID slf) det). intros H.
  apply bind_inv_Ok in H as ([] & σ1 & _ & H).
  apply bind_inv_Ok in H as ([] & σ2 & _ & H).
  apply bind_inv_Ok in H as (ms & σ3 & H3 & H).
  assert (R : cache_step σ3 σ').
  { eapply rel_spec_Ok; [|exact H]. cache_walk. }
  unfold calibrate in H3.
  apply bind_inv_Ok in H3 as (r & σa & Ha & H3).
  assert (Ra : cache_step σa σ3).
  { eapply rel_spec_Ok; [|exact H3]. cache_walk. }
  apply resolve_cached_stored in Ha as (S1 & S2 & S3 & S4).
  destruct K; try done; eexists;
    (eapply cache_step_stored; [done | exact R |]);
    (eapply cache_step_stored; [done | exact Ra |]); eassumption.
Qed.

(** With all four products stored, the cached blocks hand on the stored
    values and call no collaborator. *)
Lemma resolve_cached_hits slf det S σ v1 v2 v3 v4 :
  stored S Bias σ = Some v1 → stored S Arc σ = Some v2 →
  stored S Bpm σ = Some v3 → stored S Trace σ = Some v4 →
  ∃ σ', resolve_cached C cfg slf det S σ = Ok (v1, v2, v3, v4) σ' ∧
        calib_dict σ' = calib_dict σ ∧
        trace σ' = trace σ ++
          [EvResolve Bias S det; EvResolved Bias S det v1;
           EvResolve Arc S det; EvResolved Arc S det v2;
           EvResolve Bpm S det; EvResolved Bpm S det v3;
           EvResolve Trace S det; EvResolved Trace S det v4].
Proof.
  intros S1 S2 S3 S4. unfold resolve_cached.
  erewrite bind_Ok; [|by apply cached_hit].
  erewrite bind_Ok; [|by apply cached_hit].
  erewrite bind_Ok; [|by apply cached_hit].
  unfold SetFrame at 1. unfold modify at 1. unfold bind at 1.
  erewrite bind_Ok; [|by apply cached_hit].
  eexists. split; [done|]. split; [done|]. simpl.
  by rewrite <- !app_assoc.
Qed.

Lemma stored_calib_dict S K σ σ' :
  calib_dict σ' = calib_dict σ → stored S K σ' = stored S K σ.
Proof. unfold stored. by intros ->. Qed.

(** With all four products stored, a per-detector reduction starts with
    the four cached blocks handing on the stored values. *)
Lemma reduce_detector_warm sc slf det σ v1 v2 v3 v4 :
  det_skipped cfg det = false →
  let S := instr_setup tbl (sci_ID slf) det in
  stored S Bias σ = Some v1 → stored S Arc σ = Some v2 →
  stored S Bpm σ = Some v3 → stored S Trace σ = Some v4 →
  ∃ more, emitted (reduce_detector C tbl cfg reuseMaster sc slf det) σ =
    [EvResolve Bias S det; EvResolved Bias S det v1;
     EvResolve Arc S det; EvResolved Arc S det v2;
     EvResolve Bpm S det; EvResolved Bpm S det v3;
     EvResolve Trace S det; EvResolved Trace S det v4] ++ more.
Proof.
  intros Hskip S S1 S2 S3 S4.
  cut (∃ more, trace (final (reduce_detector C tbl cfg reuseMaster sc slf det σ)) =
         trace σ ++ [EvResolve Bias S det; EvResolved Bias S det v1;
           EvResolve Arc S det; EvResolved Arc S det v2;
           EvResolve Bpm S det; EvResolved Bpm S det v3;
           EvResolve Trace S det; EvResolved Trace S det v4] ++ more).
  { intros [more Hm]. exists more. by apply emitted_final. }
  unfold reduce_detector. rewrite Hskip. cbv zeta. fold S.
  set (σa := set_setup_var (Some S) σ).
  assert (Hb : ∃ σb, init_calib S σa = Ok tt σb ∧ calib_dict σb = calib_dict σ ∧
                     trace σb = trace σ).
  { unfold init_calib, modify. eexists. split; [done|]. simpl.
    unfold stored in S1. destruct (calib_dict σ !! S); done. }
  destruct Hb as (σb & Hb & Hcb & Htb).
  destruct (resolve_cached_hits slf det S σb v1 v2 v3 v4) as (σr & Hr & Hcr & Htr);
    [by rewrite (stored_calib_dict _ _ _ _ Hcb).. |].
  erewrite bind_Ok; [|done]. erewrite bind_Ok; [|exact Hb].
  unfold calibrate. rewrite bind_assoc. erewrite (bind_Ok _ _ _ _ _ Hr).
  match goal with
  | |- context [final (?m σr)] =>
      assert (He : rel_spec extends m) by ext_walk;
      destruct (He σr) as [more Hmore]
  end.
  exists more. by rewrite Hmore, Htr, Htb, <- app_assoc.
Qed.

(** C2 (amended).  Two science exposures share setup and detector.  The
    first per-detector reduction, on a setup that has no record in
    [calib_dict] yet, builds bias, arc and bad-pixel mask once each and
    resolves the trace through one build or one load of its master.  The
    second builds and loads none of these four: each of its cached blocks
    goes on with the value the first one stored.  (Tilt, flat and wave are
    not in [calib_dict]; they are resolved on the exposure.) *)
Theorem second_reduction_reuses_cached_products sc1 e1 sc2 e2 det σ σ1 σ2 :
  det_skipped cfg det = false →
  instr_setup tbl (sci_ID e2) det = instr_setup tbl (sci_ID e1) det →
  calib_dict σ !! instr_setup tbl (sci_ID e1) det = None →
  reduce_detector C tbl cfg reuseMaster sc1 e1 det σ = Ok tt σ1 →
  calib_dict σ2 = calib_dict σ1 →
  let S := instr_setup tbl (sci_ID e1) det in
  let first := emitted (reduce_detector C tbl cfg reuseMaster sc1 e1 det) σ in
  let second := emitted (reduce_detector C tbl cfg reuseMaster sc2 e2 det) σ2 in
  (count (is_build S Bias) first = 1 ∧ count (is_build S Arc) first = 1 ∧
   count (is_build S Bpm) first = 1 ∧ count (is_build S Trace) first ≤ 1 ∧
   1 ≤ count (is_build S Trace) first + count (is_load S Trace) first) ∧
  ∀ K, cached_kind K = true →
    count (is_build S K) second = 0 ∧ count (is_load S K) second = 0 ∧
    ∃ v, stored S K σ1 = Some v ∧ EvResolved K S det v ∈ second ∧
         ∀ det' v', EvResolved K S det' v' ∈ second → v' = v.
Proof.
  intros Hskip HS Hcold H1 Hc2 S first second.
  assert (Hst : ∀ K, cached_kind K = true → is_Some (stored S K σ1)).
  { intros K HK. by eapply reduce_detector_stored. }
  split.
  - destruct (rel_spec_Ok _ _ _ _ _
      (reduce_detector_cache_step C tbl cfg reuseMaster sc1 e1 det) H1)
      as (evs & Ht & Hk).
    destruct (rel_spec_Ok _ _ _ _ _
      (reduce_detector_load_kinds C tbl cfg reuseMaster sc1 e1 det) H1)
      as (evs' & Ht' & Hl).
    assert (evs' = evs) as -> by (rewrite Ht in Ht'; by apply app_inv_head in Ht').
    assert (first = evs) as -> by (by eapply emitted_Ok).
    assert (Hnone : ∀ K, stored S K σ = None).
    { intros K. unfold stored. fold S in Hcold. by rewrite Hcold. }
    assert (Hkey : ∀ K, cached_kind K = true →
              count (is_build S K) evs ≤ 1 ∧ count (is_load S K) evs ≤ 1 ∧
              1 ≤ count (is_build S K) evs + count (is_load S K) evs).
    { intros K HK. specialize (Hk S K HK). unfold key_step in Hk.
      rewrite Hnone in Hk. destruct (Hst K HK) as [v Hv]. rewrite Hv in Hk.
      tauto. }
    pose proof (Hkey Bias eq_refl). pose proof (Hkey Arc eq_refl).
    pose proof (Hkey Bpm eq_refl). pose proof (Hkey Trace eq_refl).
    pose proof (count_load_zero S Bias evs ltac:(done) ltac:(done) Hl).
    pose proof (count_load_zero S Arc evs ltac:(done) ltac:(done) Hl).
    pose proof (count_load_zero S Bpm evs ltac:(done) ltac:(done) Hl).
    lia.
  - intros K HK. destruct (Hst K HK) as [v Hv].
    assert (Hv2 : stored S K σ2 = Some v) by (by rewrite (stored_calib_dict _ _ _ _ Hc2)).
    destruct (reduce_detector_cache_step C tbl cfg reuseMaster sc2 e2 det σ2)
      as (evs & Ht & Hk).
    assert (second = evs) as -> by (by apply emitted_final).
    specialize (Hk S K HK). unfold key_step in Hk. rewrite Hv2 in Hk.
    destruct Hk as (_ & Hb & Hl & Hr). split_and!; [done | done |].
    exists v. split_and!; [done | | done].
    destruct (Hst Bias eq_refl) as [v1 Hv1]. destruct (Hst Arc eq_refl) as [v2' Hv2'].
    destruct (Hst Bpm eq_refl) as [v3 Hv3]. destruct (Hst Trace eq_refl) as [v4 Hv4].
    destruct (reduce_detector_warm sc2 e2 det σ2 v1 v2' v3 v4 Hskip) as [more Hm];
      try (rewrite HS; fold S; by rewrite (stored_calib_dict _ _ _ _ Hc2)).
    rewrite (emitted_final _ _ _ Ht) in Hm. rewrite Hm, HS. fold S.
    destruct K; try done; rewrite Hv in *; simplify_eq; set_solver.
Qed.
End TwoReductions.

(** ** The order of the calibration blocks *)

(** The driver starts on a product, or goes on with its value. *)
Inductive Mark := Begin (K : Kind) | End (K : Kind).

Definition mark_of (ev : Event) : option Mark :=
  match ev with
  | EvResolve K _ _ => Some (Begin K)
  | EvResolved K _ _ _ => Some (End K)
  | _ => None
  end.

Definition marks (evs : History) : list Mark := omap mark_of evs.

Definition unmarked (ev : Event) : bool :=
  match mark_of ev with Some _ => false | None => true end.

(** The blocks in the order of the source. *)
Definition chain : list Kind := [Bias; Arc; Bpm; Trace; WvCalib; Tilt; Flat; Wave].

Definition block_marks : list Mark := flat_map (λ K, [Begin K; End K]) chain.

(** The place of a product in the dependency order of the specification:
    bias, then arc and bad-pixel mask, then trace, then tilt, then flat,
    then wave.  The 1D wavelength solution, which the driver resolves
    between trace and tilt, is given that place. *)
Definition rank (K : Kind) : nat :=
  match K with
  | Bias => 0 | Arc => 1 | Bpm => 1 | Trace => 2
  | WvCalib => 3 | Tilt => 4 | Flat => 5 | Wave => 6
  end.

(** [m] adds the marks [L] to the trace when it returns, and a prefix of
    them when it raises. *)
Definition runs_marks {A} (m : M A) (L : list Mark) : Prop :=
  ∀ σ, ∃ evs, trace (final (m σ)) = trace σ ++ evs ∧
    match m σ with
    | Ok _ _ => marks evs = L
    | Raise _ _ => marks evs `prefix_of` L
    end.

Lemma marks_app e1 e2 : marks (e1 ++ e2) = marks e1 ++ marks e2.
Proof. unfold marks. apply omap_app. Qed.

Lemma marks_unmarked evs :
  Forall (λ ev, unmarked ev = true) evs → marks evs = [].
Proof.
  induction 1 as [|ev evs Hev _ IH]; [done|]. unfold marks in *. simpl.
  unfold unmarked in Hev. destruct (mark_of ev); [done|]. exact IH.
Qed.

Lemma runs_marks_quiet {A} (m : M A) L :
  rel_spec (emits_only unmarked) m → L = [] → runs_marks m L.
Proof.
  intros Hm -> σ. destruct (Hm σ) as (evs & Ht & Hu). exists evs.
  split; [done|]. rewrite (marks_unmarked _ Hu). by destruct (m σ).
Qed.

Lemma runs_marks_bind {A B} (m : M A) (k : A → M B) L1 L2 L :
  runs_marks m L1 → (∀ a, runs_marks (k a) L2) → L = L1 ++ L2 →
  runs_marks (bind m k) L.
Proof.
  intros Hm Hk -> σ. unfold bind. destruct (Hm σ) as (e1 & Ht1 & H1).
  destruct (m σ) as [a σ1|e σ1]; simpl in *.
  - destruct (Hk a σ1) as (e2 & Ht2 & H2). exists (e1 ++ e2).
    split; [by rewrite Ht2, Ht1, app_assoc|]. rewrite marks_app, H1.
    destruct (k a σ1); [by rewrite H2 | by apply prefix_app].
  - exists e1. split; [done|]. by apply prefix_app_r.
Qed.

Lemma runs_marks_call {A} ev (oracle : History → A) L :
  L = marks [ev] → runs_marks (call ev oracle) L.
Proof. intros -> σ. exists [ev]. by split. Qed.

Lemma runs_marks_ret {A} (a : A) L : L = [] → runs_marks (ret a) L.
Proof. intros -> σ. exists []. split; [by rewrite app_nil_r | done]. Qed.

Lemma runs_marks_block S K det body L :
  runs_marks body [] → L = [Begin K; End K] →
  runs_marks (block S K det body) L.
Proof.
  intros Hb ->. unfold block, emit.
  eapply runs_marks_bind; [by apply runs_marks_call | | reflexivity]. intros _.
  eapply runs_marks_bind; [exact Hb | | reflexivity]. intros v.
  eapply runs_marks_bind; [by apply runs_marks_call | | reflexivity]. intros _.
  by apply runs_marks_ret.
Qed.

#[global] Hint Extern 1 (rel_spec (emits_only _) (raise _)) => apply rel_raise : only.

Section DriverMarks.
Variable C : Collab.
Variable tbl : FitsTbl.
Variable cfg : Settings.
Variable reuseMaster : bool.

Lemma runs_marks_cached S K det compute L :
  rel_spec (emits_only unmarked) compute → L = [Begin K; End K] →
  runs_marks (cached S K det compute) L.
Proof.
  intros Hc ->. unfold cached. apply runs_marks_block; [|done].
  apply runs_marks_quiet; [|done]. unfold lookup_or_compute. only_walk.
Qed.

Lemma runs_marks_resolve_cached slf det S :
  runs_marks (resolve_cached C cfg slf det S)
    [Begin Bias; End Bias; Begin Arc; End Arc;
     Begin Bpm; End Bpm; Begin Trace; End Trace].
Proof.
  unfold resolve_cached. cbv zeta.
  eapply runs_marks_bind;
    [apply runs_marks_cached; [only_walk | reflexivity] | intros msbias | reflexivity].
  eapply runs_marks_bind;
    [apply runs_marks_cached; [only_walk | reflexivity] | intros msarc | reflexivity].
  eapply runs_marks_bind;
    [apply runs_marks_cached; [only_walk | reflexivity] | intros msbpm | reflexivity].
  eapply runs_marks_bind;
    [apply runs_marks_quiet; [unfold SetFrame; only_walk | reflexivity]
    | intros _ | reflexivity].
  eapply runs_marks_bind;
    [apply runs_marks_cached; [unfold slot, emit; only_walk | reflexivity]
    | intros Tslits | reflexivity].
  by apply runs_marks_ret.
Qed.

Lemma runs_marks_resolve_on_exposure sc slf det S datasec_img msbias msarc Tslits :
  runs_marks
    (resolve_on_exposure C reuseMaster sc slf det S datasec_img msbias msarc Tslits)
    [Begin WvCalib; End WvCalib; Begin Tilt; End Tilt;
     Begin Flat; End Flat; Begin Wave; End Wave].
Proof.
  unfold resolve_on_exposure. cbv zeta.
  eapply runs_marks_bind;
    [apply runs_marks_quiet; [unfold SetFrame; only_walk | reflexivity]
    | intros _ | reflexivity].
  eapply runs_marks_bind;
    [apply runs_marks_quiet; [unfold slot; only_walk | reflexivity]
    | intros lord | reflexivity].
  eapply runs_marks_bind;
    [apply runs_marks_quiet; [only_walk | reflexivity] | intros _ | reflexivity].
  do 4 (eapply runs_marks_bind;
    [apply runs_marks_block;
       [apply runs_marks_quiet;
          [unfold UpdateMasters, SetFrame, slot, the_view, emit; only_walk | reflexivity]
       | reflexivity]
    | intros _ | reflexivity]).
  by apply runs_marks_ret.
Qed.

Lemma runs_marks_reduce_detector sc slf det :
  runs_marks (reduce_detector C tbl cfg reuseMaster sc slf det)
    (if det_skipped cfg det then [] else block_marks).
Proof.
  unfold reduce_detector. destruct (det_skipped cfg det).
  { by apply runs_marks_ret. }
  cbv zeta.
  eapply runs_marks_bind;
    [apply runs_marks_quiet; [only_walk | reflexivity] | intros _ | reflexivity].
  eapply runs_marks_bind;
    [apply runs_marks_quiet; [unfold init_calib; only_walk | reflexivity]
    | intros _ | reflexivity].
  eapply (runs_marks_bind _ _ block_marks []); [| intros ms | reflexivity].
  { unfold calibrate.
    eapply runs_marks_bind; [apply runs_marks_resolve_cached | intros r | reflexivity].
    eapply runs_marks_bind;
      [apply runs_marks_resolve_on_exposure | intros _ | reflexivity].
    by apply runs_marks_ret. }
  apply runs_marks_quiet; [|reflexivity].
  unfold reduce_standard, load_frame, reduce, SetFrame, the_view. only_walk.
Qed.
End DriverMarks.

(** In the full sequence of marks every block starts after the blocks of
    lower rank have ended. *)
Lemma block_marks_begin i K :
  block_marks !! i = Some (Begin K) → i = 2 * Kind_to_nat K.
Proof.
  do 16 (destruct i as [|i]; [simpl; intros [= <-]; done || done|]). done.
Qed.

Lemma block_marks_end K : block_marks !! (2 * Kind_to_nat K + 1) = Some (End K).
Proof. by destruct K. Qed.

Lemma rank_position K K' : rank K' < rank K → Kind_to_nat K' < Kind_to_nat K.
Proof. destruct K, K'; simpl; lia. Qed.

Lemma prefix_marks_order (ms : list Mark) i K K' :
  ms `prefix_of` block_marks → ms !! i = Some (Begin K) → rank K' < rank K →
  ∃ j, j < i ∧ ms !! j = Some (End K').
Proof.
  intros Hp Hi Hr. pose proof (prefix_lookup_Some _ _ _ _ Hi Hp) as Hb.
  apply block_marks_begin in Hb. apply rank_position in Hr.
  exists (2 * Kind_to_nat K' + 1). split; [lia|].
  destruct Hp as [rest Hp].
  assert (Hlen : 2 * Kind_to_nat K' + 1 < length ms).
  { apply lookup_lt_Some in Hi. lia. }
  pose proof (block_marks_end K') as He. rewrite Hp in He.
  by rewrite lookup_app_l in He.
Qed.

(** *** What the collaborators are asked, and when *)

(** The product a collaborator call works on: the product is built, asked
    of the master store, saved to it, or resolved by a method of the
    exposure. *)
Definition step_kind (ev : Event) : option Kind :=
  match ev with
  | EvBuild K _ _ _ _ | EvLoadMaster K _ | EvSaveMaster K _ _ | EvMethod K _ _ _ => Some K
  | _ => None
  end.

(** The calibration products a call hands to its collaborator, as the
    source passes them: [msbias] to the arc, [msarc.shape] and [msbias] to
    the bad-pixel mask, [msbias] and [msbpm] to the slit tracing, [msarc] to
    the wavelength solution and to the tilts, [msbias] to the flat field and
    to the frame loader, [msbpm] to the reduction. *)
Definition inputs_of (ev : Event) : list (Kind * Value) :=
  match ev with
  | EvBuild Arc _ _ _ [b] => [(Bias, b)]
  | EvBuild Bpm _ _ _ [a; b] => [(Arc, a); (Bias, b)]
  | EvBuild Trace _ _ _ [b; _; m] => [(Bias, b); (Bpm, m)]
  | EvBuild Tilt _ _ _ [a] => [(Arc, a)]
  | EvMethod WvCalib _ _ [a] => [(Arc, a)]
  | EvMethod Flat _ _ [b; _] => [(Bias, b)]
  | EvLoadFrames _ _ _ b => [(Bias, b)]
  | EvReduce _ _ _ [_; m; _] => [(Bpm, m)]
  | _ => []
  end.

(** A science or standard frame is loaded or reduced. *)
Definition is_frame_event (ev : Event) : bool :=
  match ev with EvLoadFrames _ _ _ _ | EvReduce _ _ _ _ => true | _ => false end.

(** Before the [i]-th event the block of product [K] has ended, for this
    setup and detector, with value [v]. *)
Definition resolved_before (S : Setup) (det : nat) (evs : list Event)
    (i : nat) (K : Kind) (v : Value) : Prop :=
  ∃ j, j < i ∧ evs !! j = Some (EvResolved K S det v).

(** The values the blocks of a stretch have ended with. *)
Definition resolved (evs : list Event) : list (Kind * Setup * nat * Value) :=
  omap (λ ev, match ev with
              | EvResolved K s d v => Some (K, s, d, v)
              | _ => None
              end) evs.

Lemma resolved_app (e1 e2 : list Event) : resolved (e1 ++ e2) = resolved e1 ++ resolved e2.
Proof. unfold resolved. apply omap_app. Qed.

Lemma elem_of_resolved_take (evs : list Event) i K S det v :
  (K, S, det, v) ∈ resolved (take i evs) ↔ resolved_before S det evs i K v.
Proof.
  unfold resolved, resolved_before. rewrite list_elem_of_omap. split.
  - intros (ev & Hin & Hev). destruct ev; try discriminate Hev.
    injection Hev as -> -> -> ->.
    apply list_elem_of_lookup in Hin as [j Hj].
    apply lookup_take_Some in Hj as [Hj Hlt]. by exists j.
  - intros (j & Hlt & Hj). exists (EvResolved K S det v). split; [|done].
    apply list_elem_of_lookup. exists j. by rewrite lookup_take_lt.
Qed.

Section Flow.
Variable S : Setup.
Variable det : nat.

(** What the driver may ask of a collaborator once the blocks have ended
    with the values [pre]: a call that works on product [K] comes after the
    blocks of all products of lower rank and before the end of its own; the
    products it is handed are values those blocks ended with; a frame is
    loaded or reduced after all the blocks. *)
Definition allowed (pre : list (Kind * Setup * nat * Value)) (ev : Event) : Prop :=
  (∀ K, step_kind ev = Some K →
        (∀ K', rank K' < rank K → ∃ v, (K', S, det, v) ∈ pre) ∧
        ∀ v, (K, S, det, v) ∉ pre) ∧
  (∀ K v, (K, v) ∈ inputs_of ev → (K, S, det, v) ∈ pre) ∧
  (is_frame_event ev = true → ∀ K, ∃ v, (K, S, det, v) ∈ pre).

Definition good_from (pre : list (Kind * Setup * nat * Value)) (evs : list Event) : Prop :=
  ∀ i ev, evs !! i = Some ev → allowed (pre ++ resolved (take i evs)) ev.

Lemma good_from_nil pre : good_from pre [].
Proof. intros i ev Hi. by destruct i. Qed.

Lemma good_from_app pre (e1 e2 : list Event) :
  good_from pre e1 → good_from (pre ++ resolved e1) e2 → good_from pre (e1 ++ e2).
Proof.
  intros H1 H2 i ev Hi. destruct (decide (i < length e1)) as [Hlt|Hge].
  - rewrite lookup_app_l in Hi by done. rewrite take_app_le by lia. by apply H1.
  - rewrite lookup_app_r in Hi by lia. rewrite take_app_ge by lia.
    rewrite resolved_app, app_assoc. by apply H2.
Qed.

(** [m] started after [pre] asks only what is allowed, and when it returns
    [a] the blocks have ended with values that satisfy [Q a]. *)
Definition flows {A} (pre : list (Kind * Setup * nat * Value)) (m : M A)
    (Q : A → list (Kind * Setup * nat * Value) → Prop) : Prop :=
  ∀ σ, ∃ evs, trace (final (m σ)) = trace σ ++ evs ∧ good_from pre evs ∧
    match m σ with
    | Ok a _ => Q a (pre ++ resolved evs)
    | Raise _ _ => True
    end.

Lemma flows_ret {A} pre (a : A) (Q : A → _ → Prop) : Q a pre → flows pre (ret a) Q.
Proof.
  intros HQ σ. exists []. simpl. rewrite !app_nil_r.
  split_and!; [done | apply good_from_nil | done].
Qed.

Lemma flows_bind {A B} pre (m : M A) (k : A → M B) Q1 Q2 :
  flows pre m Q1 → (∀ a pre', Q1 a pre' → flows pre' (k a) Q2) →
  flows pre (bind m k) Q2.
Proof.
  intros Hm Hk σ. unfold bind. destruct (Hm σ) as (e1 & Ht1 & G1 & H1).
  destruct (m σ) as [a σ1|e σ1]; simpl in *.
  - destruct (Hk a _ H1 σ1) as (e2 & Ht2 & G2 & H2). exists (e1 ++ e2).
    split_and!; [by rewrite Ht2, Ht1, app_assoc | by apply good_from_app |].
    destruct (k a σ1); [|done]. by rewrite resolved_app, app_assoc.
  - exists e1. by split_and!.
Qed.

(** Events that are allowed after [pre] and end no block. *)
Definition quiet (pre : list (Kind * Setup * nat * Value)) : relation RunState :=
  λ σ σ', ∃ evs, trace σ' = trace σ ++ evs ∧
    Forall (λ ev, allowed pre ev ∧ resolved [ev] = []) evs.

#[global] Instance quiet_preorder pre : PreOrder (quiet pre).
Proof.
  split.
  - intros σ. exists []. split; [by rewrite app_nil_r | constructor].
  - intros σ1 σ2 σ3 (e1 & H1 & F1) (e2 & H2 & F2). exists (e1 ++ e2).
    split; [by rewrite H2, H1, app_assoc | by apply Forall_app].
Qed.

Lemma quiet_resolved pre (evs : list Event) :
  Forall (λ ev, allowed pre ev ∧ resolved [ev] = []) evs → resolved evs = [].
Proof.
  induction 1 as [|ev evs [_ Hev] _ IH]; [done|].
  change (ev :: evs) with ([ev] ++ evs). by rewrite resolved_app, Hev, IH.
Qed.

Lemma quiet_good pre (evs : list Event) :
  Forall (λ ev, allowed pre ev ∧ resolved [ev] = []) evs → good_from pre evs.
Proof.
  intros Hf i ev Hi.
  assert (Hpre : resolved (take i evs) = []).
  { apply (quiet_resolved pre). by apply Forall_take. }
  rewrite Hpre, app_nil_r. rewrite list.Forall_forall in Hf.
  apply Hf. by eapply list_elem_of_lookup_2.
Qed.

Lemma flows_quiet {A} pre (m : M A) (Q : A → _ → Prop) :
  rel_spec (quiet pre) m → (∀ a, Q a pre) → flows pre m Q.
Proof.
  intros Hm HQ σ. destruct (Hm σ) as (evs & Ht & Hf). exists evs.
  split_and!; [done | by apply quiet_good |].
  rewrite (quiet_resolved pre evs Hf), app_nil_r. destruct (m σ); [apply HQ | done].
Qed.

Lemma quiet_call {A} pre ev (oracle : History → A) :
  allowed pre ev → resolved [ev] = [] → rel_spec (quiet pre) (call ev oracle).
Proof.
  intros Ha Hr. apply rel_call. intros σ. exists [ev]. split; [done|].
  by constructor.
Qed.

Lemma quiet_modify pre (f : RunState → RunState) :
  (∀ σ, trace (f σ) = trace σ) → rel_spec (quiet pre) (modify f).
Proof.
  intros Hf. apply rel_modify. intros σ. exists [].
  split; [by rewrite Hf, app_nil_r | constructor].
Qed.

(** A mark neither asks a collaborator nor touches a frame. *)
Lemma allowed_mark pre ev :
  step_kind ev = None → inputs_of ev = [] → is_frame_event ev = false →
  allowed pre ev.
Proof.
  intros H1 H2 H3. split_and!.
  - intros K HK. congruence.
  - intros K v Hin. rewrite H2 in Hin. by apply elem_of_nil in Hin.
  - intros Hf. congruence.
Qed.

Lemma flows_block pre K (body : M Value) (Q : Value → _ → Prop) :
  rel_spec (quiet pre) body →
  (∀ v, Q v (pre ++ [(K, S, det, v)])) →
  flows pre (block S K det body) Q.
Proof.
  intros Hb HQ. unfold block, emit.
  eapply flows_bind.
  { apply (flows_quiet _ _ (λ _ pre', pre' = pre)); [|done].
    apply quiet_call; [by apply allowed_mark | done]. }
  intros _ pre' ->. eapply flows_bind.
  { apply (flows_quiet _ _ (λ _ pre', pre' = pre)); [exact Hb | done]. }
  intros v pre' ->.
  eapply (flows_bind _ _ _ (λ _ pre', pre' = pre ++ [(K, S, det, v)])).
  { intros σ. exists [EvResolved K S det v]. simpl.
    split_and!; [done | | reflexivity].
    intros i ev Hi. destruct i as [|i]; [|by destruct i].
    injection Hi as <-. simpl. rewrite app_nil_r. by apply allowed_mark. }
  intros _ pre' ->. by apply flows_ret.
Qed.

End Flow.

(** Membership in the short lists of values the blocks have ended with. *)
Ltac in_pre :=
  repeat first [ apply list_elem_of_here | apply list_elem_of_further ].

Ltac not_in_pre H :=
  repeat (apply elem_of_cons in H as [H|H]; [discriminate H|]);
  by apply elem_of_nil in H.

(** A collaborator call of the source against the values at hand. *)
Ltac allowed_call :=
  split_and!;
  [ let K := fresh "K" in let HK := fresh "HK" in
    intros K HK; simpl in HK; first
      [ discriminate HK
      | injection HK as <-; split;
        [ let K' := fresh "K'" in let Hr := fresh "Hr" in
          intros K' Hr; destruct K'; simpl in Hr; try lia; eexists; in_pre
        | let v := fresh "v" in let Hv := fresh "Hv" in
          intros v Hv; simpl in Hv; not_in_pre Hv ] ]
  | let K := fresh "K" in let v := fresh "v" in let Hin := fresh "Hin" in
    intros K v Hin; simpl in Hin;
    repeat (apply elem_of_cons in Hin as [Hin|Hin];
            [injection Hin as -> ->; in_pre|]);
    by apply elem_of_nil in Hin
  | let Hf := fresh "Hf" in
    intros Hf; simpl in Hf; first
      [ discriminate Hf
      | let K := fresh "K" in intros K; destruct K; eexists; in_pre ] ].

Create HintDb flow.
#[global] Hint Extern 1 (rel_spec (quiet _ _ _) (call _ _)) =>
  (apply quiet_call; [allowed_call | reflexivity]) : flow.
#[global] Hint Extern 1 (rel_spec (quiet _ _ _) (modify _)) =>
  (apply quiet_modify; intros ?; reflexivity) : flow.

Ltac quiet_walk := rel_walk_with ltac:(auto with flow).

Section DriverFlow.
Variable C : Collab.
Variable tbl : FitsTbl.
Variable cfg : Settings.
Variable reuseMaster : bool.

Lemma flows_cached S det pre K (compute : M Value) (Q : Value → _ → Prop) :
  rel_spec (quiet S det pre) compute →
  (∀ v, Q v (pre ++ [(K, S, det, v)])) →
  flows S det pre (cached S K det compute) Q.
Proof.
  intros Hc HQ. unfold cached. apply flows_block; [|done].
  unfold lookup_or_compute. quiet_walk.
Qed.

Lemma flows_resolve_cached slf det S :
  flows S det [] (resolve_cached C cfg slf det S)
    (λ r pre, pre = [(Bias, S, det, r.1.1.1); (Arc, S, det, r.1.1.2);
                     (Bpm, S, det, r.1.2); (Trace, S, det, r.2)]).
Proof.
  unfold resolve_cached. cbv zeta.
  eapply flows_bind.
  { apply (flows_cached _ _ _ _ _ (λ v pre, pre = [(Bias, S, det, v)])); [|done].
    quiet_walk. }
  intros msbias ? ->. eapply flows_bind.
  { apply (flows_cached _ _ _ _ _
      (λ v pre, pre = [(Bias, S, det, msbias); (Arc, S, det, v)])); [|done].
    quiet_walk. }
  intros msarc ? ->. eapply flows_bind.
  { apply (flows_cached _ _ _ _ _
      (λ v pre, pre = [(Bias, S, det, msbias); (Arc, S, det, msarc);
                       (Bpm, S, det, v)])); [|done].
    quiet_walk. }
  intros msbpm ? ->. eapply flows_bind.
  { apply (flows_quiet _ _ _ _ (λ _ pre, pre =
      [(Bias, S, det, msbias); (Arc, S, det, msarc); (Bpm, S, det, msbpm)])); [|done].
    unfold SetFrame. quiet_walk. }
  intros _ ? ->. eapply flows_bind.
  { apply (flows_cached _ _ _ _ _
      (λ v pre, pre = [(Bias, S, det, msbias); (Arc, S, det, msarc);
                       (Bpm, S, det, msbpm); (Trace, S, det, v)])); [|done].
    unfold slot, emit. quiet_walk. }
  intros Tslits ? ->. by apply flows_ret.
Qed.

Lemma flows_resolve_on_exposure sc slf det S datasec_img msbias msarc msbpm Tslits :
  let pre := [(Bias, S, det, msbias); (Arc, S, det, msarc);
              (Bpm, S, det, msbpm); (Trace, S, det, Tslits)] in
  flows S det pre
    (resolve_on_exposure C reuseMaster sc slf det S datasec_img msbias msarc Tslits)
    (λ _ post, ∃ v1 v2 v3 v4,
       post = pre ++ [(WvCalib, S, det, v1); (Tilt, S, det, v2);
                      (Flat, S, det, v3); (Wave, S, det, v4)]).
Proof.
  intros pre. unfold pre, resolve_on_exposure. cbv zeta.
  eapply flows_bind.
  { apply (flows_quiet _ _ _ _ (λ _ post, post = pre)); [|done].
    unfold SetFrame. quiet_walk. }
  intros _ ? ->. eapply flows_bind.
  { apply (flows_quiet _ _ _ _ (λ _ post, post = pre)); [|done].
    unfold slot. quiet_walk. }
  intros lord ? ->. eapply flows_bind.
  { apply (flows_quiet _ _ _ _ (λ _ post, post = pre)); [|done]. quiet_walk. }
  intros _ ? ->. unfold pre. eapply flows_bind.
  { apply (flows_block _ _ _ _ _ (λ v post, post = pre ++ [(WvCalib, S, det, v)]));
      [|done].
    unfold UpdateMasters, SetFrame, slot, the_view, emit. quiet_walk. }
  intros v1 ? ->. unfold pre. simpl. eapply flows_bind.
  { apply (flows_block _ _ _ _ _
      (λ v post, post = pre ++ [(WvCalib, S, det, v1); (Tilt, S, det, v)])); [|done].
    unfold UpdateMasters, SetFrame, slot, the_view, emit. quiet_walk. }
  intros v2 ? ->. unfold pre. simpl. eapply flows_bind.
  { apply (flows_block _ _ _ _ _
      (λ v post, post = pre ++ [(WvCalib, S, det, v1); (Tilt, S, det, v2);
                               (Flat, S, det, v)])); [|done].
    unfold UpdateMasters, SetFrame, slot, the_view, emit. quiet_walk. }
  intros v3 ? ->. unfold pre. simpl. eapply flows_bind.
  { apply (flows_block _ _ _ _ _
      (λ v post, post = pre ++ [(WvCalib, S, det, v1); (Tilt, S, det, v2);
                               (Flat, S, det, v3); (Wave, S, det, v)])); [|done].
    unfold UpdateMasters, SetFrame, slot, the_view, emit. quiet_walk. }
  intros v4 ? ->. apply flows_ret. by exists v1, v2, v3, v4.
Qed.

(** Every product has been resolved, the bias with [b] and the bad-pixel
    mask with [m]. *)
Definition calibrated (S : Setup) (det : nat) (b m : Value)
    (pre : list (Kind * Setup * nat * Value)) : Prop :=
  ∃ a t v1 v2 v3 v4,
    pre = [(Bias, S, det, b); (Arc, S, det, a); (Bpm, S, det, m); (Trace, S, det, t);
           (WvCalib, S, det, v1); (Tilt, S, det, v2); (Flat, S, det, v3);
           (Wave, S, det, v4)].

Lemma flows_calibrate sc slf det S datasec_img :
  flows S det [] (calibrate C cfg reuseMaster sc slf det S datasec_img)
    (λ ms pre, calibrated S det ms.1 ms.2 pre).
Proof.
  unfold calibrate. eapply flows_bind; [apply flows_resolve_cached|].
  intros [[[msbias msarc] msbpm] Tslits] ? ->. cbn [fst snd].
  eapply flows_bind; [apply flows_resolve_on_exposure|].
  intros _ ? (v1 & v2 & v3 & v4 & ->). apply flows_ret. cbn [fst snd].
  by exists msarc, Tslits, v1, v2, v3, v4.
Qed.

Lemma flows_reduce_detector sc slf det :
  flows (instr_setup tbl (sci_ID slf) det) det []
    (reduce_detector C tbl cfg reuseMaster sc slf det) (λ _ _, True).
Proof.
  unfold reduce_detector. destruct (det_skipped cfg det).
  { by apply flows_ret. }
  cbv zeta. set (S := instr_setup tbl (sci_ID slf) det).
  eapply flows_bind.
  { apply (flows_quiet _ _ _ _ (λ _ post, post = [])); [|done]. quiet_walk. }
  intros _ ? ->. eapply flows_bind.
  { apply (flows_quiet _ _ _ _ (λ _ post, post = [])); [|done].
    unfold init_calib. quiet_walk. }
  intros _ ? ->. eapply flows_bind; [apply flows_calibrate|].
  intros [b m] ? (a & t & v1 & v2 & v3 & v4 & ->). cbn [fst snd].
  apply flows_quiet; [|done].
  unfold reduce_standard, load_frame, reduce, SetFrame, the_view. quiet_walk.
Qed.

End DriverFlow.

Lemma good_from_resolved S det (evs : list Event) i ev :
  good_from S det [] evs → evs !! i = Some ev →
  (∀ K, step_kind ev = Some K →
        (∀ K', rank K' < rank K → ∃ v, resolved_before S det evs i K' v) ∧
        ∀ v, ¬ resolved_before S det evs i K v) ∧
  (∀ K v, (K, v) ∈ inputs_of ev → resolved_before S det evs i K v) ∧
  (is_frame_event ev = true → ∀ K, ∃ v, resolved_before S det evs i K v).
Proof.
  intros Hg Hi. destruct (Hg i ev Hi) as (H1 & H2 & H3). simpl in *. split_and!.
  - intros K HK. destruct (H1 K HK) as [Hlow Hnot]. split.
    + intros K' Hr. destruct (Hlow K' Hr) as [v Hv]. exists v.
      by apply elem_of_resolved_take.
    + intros v Hv. apply (Hnot v). by apply elem_of_resolved_take.
  - intros K v Hin. apply elem_of_resolved_take. by apply H2.
  - intros Hf K. destruct (H3 Hf K) as [v Hv]. exists v.
    by apply elem_of_resolved_take.
Qed.

(** The first event of a stretch. *)
Definition starts_with {A} (ev : Event) (m : M A) : Prop :=
  ∀ σ, ∃ rest, trace (final (m σ)) = trace σ ++ ev :: rest.

Lemma starts_with_call {A} ev (oracle : History → A) : starts_with ev (call ev oracle).
Proof. intros σ. by exists []. Qed.

Lemma starts_with_bind {A B} ev (m : M A) (k : A → M B) :
  starts_with ev m → (∀ a, rel_spec extends (k a)) → starts_with ev (bind m k).
Proof.
  intros Hm Hk σ. unfold bind. destruct (Hm σ) as [r1 H1].
  destruct (m σ) as [a σ1|e σ1]; simpl in *; [|by exists r1].
  destruct (Hk a σ1) as [r2 H2]. exists (r1 ++ r2).
  by rewrite H2, H1, <- app_assoc.
Qed.

Lemma starts_with_after ev (f : RunState → RunState) {B} (k : M B) :
  (∀ σ, trace (f σ) = trace σ) → starts_with ev k →
  starts_with ev (bind (modify f) (λ _, k)).
Proof.
  intros Hf Hk σ. unfold bind, modify. destruct (Hk (f σ)) as [rest Hr].
  exists rest. by rewrite Hr, Hf.
Qed.

(** A reduction of a detector that is not skipped starts on the bias. *)
Lemma reduce_detector_starts C tbl cfg reuseMaster sc slf det σ :
  det_skipped cfg det = false →
  emitted (reduce_detector C tbl cfg reuseMaster sc slf det) σ !! 0 =
  Some (EvResolve Bias (instr_setup tbl (sci_ID slf) det) det).
Proof.
  intros Hskip. set (S := instr_setup tbl (sci_ID slf) det).
  assert (Hs : starts_with (EvResolve Bias S det)
                 (reduce_detector C tbl cfg reuseMaster sc slf det)).
  { unfold reduce_detector. rewrite Hskip. cbv zeta. fold S.
    apply starts_with_after; [done|].
    unfold init_calib. apply starts_with_after; [done|].
    apply starts_with_bind.
    2:{ intros ms. unfold_detector. ext_walk. }
    unfold calibrate. apply starts_with_bind.
    2:{ intros r. unfold_detector. ext_walk. }
    unfold resolve_cached. cbv zeta. apply starts_with_bind.
    2:{ intros msbias. unfold_detector. ext_walk. }
    unfold cached, block. apply starts_with_bind.
    2:{ intros _. unfold_detector. ext_walk. }
    apply starts_with_call. }
  destruct (Hs σ) as [rest Hr]. by rewrite (emitted_final _ _ _ Hr).
Qed.

(** C3.  In every per-detector reduction the calibration products are
    resolved in the order bias, arc, bad-pixel mask, trace, (1D wavelength
    solution,) tilt, flat, wave, and no collaborator is asked for a step
    before the products of lower rank have been resolved for this setup and
    detector.  The blocks: the marks the reduction leaves are a prefix of
    the sequence, beginning with the bias unless the detector is skipped,
    and the whole of it when the reduction returns; a block starts after
    the blocks of lower rank have ended.  The collaborators: a call that
    builds, loads, saves or resolves product [K] comes after the blocks of
    all products of lower rank have ended; every calibration product a call
    is handed is the value the block of that product ended with before the
    call; the calls follow each other in the order of the ranks; a science
    or standard frame is loaded and reduced after all eight blocks have
    ended.  The cache: the value a block of bias, arc, bad-pixel mask or
    trace ends with is what [calib_dict] holds for the setup when the
    reduction is over. *)
Theorem calibration_resolved_in_dependency_order
    C tbl cfg reuseMaster sc slf det σ :
  let run := reduce_detector C tbl cfg reuseMaster sc slf det in
  let S := instr_setup tbl (sci_ID slf) det in
  let evs := emitted run σ in
  let ms := marks evs in
  (ms `prefix_of` block_marks ∧
   (det_skipped cfg det = false → evs !! 0 = Some (EvResolve Bias S det)) ∧
   (∀ σ', run σ = Ok tt σ' →
          ms = if det_skipped cfg det then [] else block_marks) ∧
   ∀ i K K', ms !! i = Some (Begin K) → rank K' < rank K →
             ∃ j, j < i ∧ ms !! j = Some (End K')) ∧
  (∀ i ev K, evs !! i = Some ev → step_kind ev = Some K →
     ∀ K', rank K' < rank K → ∃ v, resolved_before S det evs i K' v) ∧
  (∀ i ev K v, evs !! i = Some ev → (K, v) ∈ inputs_of ev →
     resolved_before S det evs i K v) ∧
  (∀ i j ev ev' K K', i < j → evs !! i = Some ev → evs !! j = Some ev' →
     step_kind ev = Some K → step_kind ev' = Some K' → rank K ≤ rank K') ∧
  (∀ i ev, evs !! i = Some ev → is_frame_event ev = true →
     ∀ K, ∃ v, resolved_before S det evs i K v) ∧
  (∀ i K v, cached_kind K = true → evs !! i = Some (EvResolved K S det v) →
     stored S K (final (run σ)) = Some v).
Proof.
  intros run S evs ms.
  destruct (runs_marks_reduce_detector C tbl cfg reuseMaster sc slf det σ)
    as (evs1 & Ht & Hm). fold run in Ht, Hm.
  assert (Hevs : evs = evs1) by (unfold evs; by rewrite (emitted_final _ _ _ Ht)).
  assert (Hms : ms = marks evs1) by (unfold ms; by rewrite Hevs).
  assert (Hp : ms `prefix_of` block_marks).
  { rewrite Hms. destruct (run σ).
    - rewrite Hm. destruct (det_skipped cfg det); [apply prefix_nil | done].
    - destruct (det_skipped cfg det); [|done].
      apply prefix_nil_inv in Hm as ->. apply prefix_nil. }
  destruct (flows_reduce_detector C tbl cfg reuseMaster sc slf det σ)
    as (evs2 & Ht2 & Hg & _). fold run S in Ht2, Hg.
  assert (Hevs2 : evs = evs2) by (unfold evs; by rewrite (emitted_final _ _ _ Ht2)).
  rewrite <- Hevs2 in Hg. clear evs2 Ht2 Hevs2.
  split_and!.
  - exact Hp.
  - intros Hskip. by apply reduce_detector_starts.
  - intros σ' Hrun. rewrite Hrun in Hm. by rewrite Hms.
  - intros i K K'. by apply prefix_marks_order.
  - intros i ev K Hi HK K' Hr.
    destruct (good_from_resolved S det evs i ev Hg Hi) as (H1 & _ & _).
    by apply (H1 K HK).
  - intros i ev K v Hi Hin.
    destruct (good_from_resolved S det evs i ev Hg Hi) as (_ & H2 & _).
    by apply H2.
  - intros i j ev ev' K K' Hij Hi Hj HK HK'.
    destruct (decide (rank K ≤ rank K')) as [|Hn]; [done|]. exfalso.
    destruct (good_from_resolved S det evs i ev Hg Hi) as (H1 & _ & _).
    destruct (good_from_resolved S det evs j ev' Hg Hj) as (H1' & _ & _).
    destruct (H1 K HK) as [Hlow _]. destruct (H1' K' HK') as [_ Hnot].
    destruct (Hlow K') as (v & j0 & Hj0 & Hev); [lia|].
    apply (Hnot v). exists j0. split; [lia | done].
  - intros i ev Hi Hf.
    destruct (good_from_resolved S det evs i ev Hg Hi) as (_ & _ & H3).
    by apply H3.
  - intros i K v HK Hi.
    destruct (reduce_detector_cache_step C tbl cfg reuseMaster sc slf det σ)
      as (evs3 & Ht3 & Hk). fold run in Ht3, Hk.
    assert (Hevs3 : evs = evs3) by (unfold evs; by rewrite (emitted_final _ _ _ Ht3)).
    specialize (Hk S K HK). unfold key_step in Hk.
    assert (Hin : EvResolved K S det v ∈ evs3).
    { rewrite <- Hevs3. by eapply list_elem_of_lookup_2. }
    destruct (stored S K σ) as [v0|], (stored S K (final (run σ))) as [v1|].
    + destruct Hk as (-> & _ & _ & Hv). f_equal. symmetry. by eapply Hv.
    + by destruct Hk.
    + destruct Hk as (_ & _ & _ & Hv). f_equal. symmetry. by eapply Hv.
    + destruct Hk as (_ & _ & Hv). by destruct (Hv det v).
Qed.

(** ** The standard star: reduced at most once per detector *)

(** A property of the state that a step keeps once it holds. *)
Definition keeps (I : RunState → Prop) : relation RunState := λ σ σ', I σ → I σ'.

#[global] Instance keeps_preorder I : PreOrder (keeps I).
Proof. split; unfold keeps; [intros σ | intros σ1 σ2 σ3]; tauto. Qed.

(** The standard of table row [k] is reduced on detector [det]. *)
Definition is_std_reduce (k det : nat) (ev : Event) : bool :=
  match ev with
  | EvReduce true k' det' _ => bool_decide (k' = k ∧ det' = det)
  | _ => false
  end.

(** [std_dict[k].extracted[i]], [False] when there is no such standard. *)
Definition std_flag (k i : nat) (σ : RunState) : bool :=
  match dict_get k (std_dict σ) with
  | Some x => extracted x i
  | None => false
  end.

(** A standard that is not marked as extracted on a detector has not been
    reduced there, and one that is marked has been reduced there at most
    once. *)
Definition std_inv (σ : RunState) : Prop :=
  ∀ k det, count (is_std_reduce k det) (trace σ) ≤
           if std_flag k (det - 1) σ then 1 else 0.

Definition not_std_reduce (ev : Event) : bool :=
  match ev with EvReduce std _ _ _ => negb std | _ => true end.

Lemma not_std_reduce_count k det ev :
  not_std_reduce ev = true → count (is_std_reduce k det) [ev] = 0.
Proof. destruct ev; try done. simpl. by intros ->%negb_true_iff. Qed.

Lemma keeps_std_call {A} ev (oracle : History → A) :
  not_std_reduce ev = true → rel_spec (keeps std_inv) (call ev oracle).
Proof.
  intros Hev. apply rel_call. intros σ Hinv k det. specialize (Hinv k det).
  unfold std_flag in *. simpl. rewrite count_app, not_std_reduce_count by done. lia.
Qed.

Lemma keeps_std_modify (f : RunState → RunState) :
  (∀ σ, trace (f σ) = trace σ) → (∀ σ, std_dict (f σ) = std_dict σ) →
  rel_spec (keeps std_inv) (modify f).
Proof.
  intros Ht Hd. apply rel_modify. intros σ Hinv k det. specialize (Hinv k det).
  unfold std_flag in *. by rewrite Ht, Hd.
Qed.

Lemma dict_get_alter {A} (f : A → A) k k' (d : list (nat * A)) :
  dict_get k (dict_alter f k' d) =
  if decide (k' = k) then f <$> dict_get k d else dict_get k d.
Proof.
  induction d as [|[k0 v] d IH]; simpl.
  - by case_decide.
  - destruct (decide (k0 = k')) as [->|Hne]; simpl.
    + destruct (decide (k' = k)) as [->|Hne']; simpl; by rewrite ?decide_True, ?decide_False.
    + destruct (decide (k0 = k)) as [->|Hne']; simpl.
      * by rewrite decide_False by done.
      * exact IH.
Qed.

Lemma extracted_share_attrs slf x : extracted (share_attrs slf x) = extracted x.
Proof.
  unfold share_attrs. generalize shared_attrs. intros l. revert x.
  induction l as [|a l IH]; intros x; simpl; [done|]. by rewrite IH.
Qed.

Create HintDb std.
#[global] Hint Extern 1 (rel_spec (keeps std_inv) (call _ _)) =>
  (apply keeps_std_call; reflexivity) : std.
#[global] Hint Extern 1 (rel_spec (keeps std_inv) (modify _)) =>
  (apply keeps_std_modify; intros ?; reflexivity) : std.

Ltac std_walk := rel_walk_with ltac:(auto with std).

Section DriverStandard.
Variable C : Collab.
Variable tbl : FitsTbl.
Variable cfg : Settings.
Variable reuseMaster : bool.

Lemma reduce_standard_keeps_std slf det msbias msbpm datasec_img :
  rel_spec (keeps std_inv) (reduce_standard C tbl slf det msbias msbpm datasec_img).
Proof.
  unfold reduce_standard. destruct (standard_rows tbl (sci_ID slf)) as [|k rows].
  { std_walk. }
  intros σ Hinv. unfold bind, modify, gets. simpl.
  destruct (dict_get k (std_dict σ)) as [stdslf|] eqn:Ek; [|exact Hinv].
  destruct (extracted stdslf (det - 1)) eqn:Ex; [exact Hinv|]. simpl.
  unfold load_frame, bind, call. simpl.
  destruct (load_frames C (trace σ) k det standard msbias) as [frame|]; simpl.
  - intros k' det'. specialize (Hinv k' det'). unfold std_flag in *. simpl.
    rewrite !dict_get_alter, !count_app.
    change (count (is_std_reduce k' det') [EvLoadFrames k det standard msbias]) with 0.
    set (n := count (is_std_reduce k' det') (trace σ)) in *.
    destruct (decide (k = k')) as [<-|Hne].
    + rewrite Ek in *. simpl. rewrite ?extracted_share_attrs.
      unfold insert, fn_insert. destruct (decide (det - 1 = det' - 1)) as [Hd|Hd].
      * rewrite <- Hd, Ex in Hinv. unfold count. simpl.
        case_bool_decide; simpl; lia.
      * unfold count. simpl. rewrite bool_decide_eq_false_2; [simpl; lia|].
        intros [_ <-]. done.
    + unfold count. simpl. rewrite bool_decide_eq_false_2; [simpl; lia|].
      intros [? _]. done.
  - intros k' det'. specialize (Hinv k' det'). unfold std_flag in *. simpl.
    rewrite dict_get_alter, count_app.
    change (count (is_std_reduce k' det') [EvLoadFrames k det standard msbias]) with 0.
    destruct (decide (k = k')) as [<-|Hne]; [|lia].
    rewrite Ek in *. simpl. rewrite ?extracted_share_attrs. lia.
Qed.

Hint Resolve reduce_standard_keeps_std : std.

Lemma reduce_exposure_keeps_std sc :
  rel_spec (keeps std_inv) (reduce_exposure C tbl cfg reuseMaster sc).
Proof.
  unfold reduce_exposure, write_exposure, save_1d.
  unfold reduce_detector, init_calib, calibrate,
    resolve_cached, resolve_on_exposure, cached, block, lookup_or_compute,
    UpdateMasters, load_frame, reduce, SetFrame, slot, the_view, emit.
  std_walk.
Qed.

Lemma write_standards_keeps_std : rel_spec (keeps std_inv) (write_standards C cfg).
Proof. unfold write_standards, save_1d. std_walk. Qed.

Lemma flux_stage_keeps_std ids basenames :
  rel_spec (keeps std_inv) (flux_stage C cfg ids basenames).
Proof. unfold flux_stage, build_sensfunc, flux_all, flux_one, emit. std_walk. Qed.

Hint Resolve reduce_exposure_keeps_std write_standards_keeps_std
  flux_stage_keeps_std : std.

(** Setting up the exposures calls no collaborator. *)
Lemma init_loop_silent ids i sv bn :
  rel_spec (emits_only (λ _, false)) (init_loop tbl ids i sv bn).
Proof.
  revert i sv bn. induction ids as [|sid ids IH]; intros i sv bn; simpl; only_walk.
Qed.

Lemma std_inv_no_events σ : trace σ = [] → std_inv σ.
Proof. intros Ht k det. rewrite Ht. unfold count. simpl. lia. Qed.

Lemma ARMS_std_inv arg h0 disk0 :
  std_inv (final (ARMS C tbl cfg reuseMaster arg (init_state h0 disk0))).
Proof.
  unfold ARMS. cbv zeta.
  match goal with |- std_inv (final (bind ?m ?k _)) =>
    assert (Hm : rel_spec (emits_only (λ _, false)) m);
    [|assert (Hk : ∀ a, rel_spec (keeps std_inv) (k a)) by std_walk]
  end.
  { unfold init_sciexp.
    destruct arg; rel_walk_with ltac:(auto using init_loop_silent with only). }
  unfold bind at 1. destruct (Hm (init_state h0 disk0)) as (evs & Ht & Hf).
  assert (evs = []) as -> by (by destruct Hf).
  simpl in Ht.
  match goal with |- context [match ?r with _ => _ end] => destruct r as [a σ1|e σ1] end;
    simpl in *.
  - apply Hk. by apply std_inv_no_events.
  - by apply std_inv_no_events.
Qed.
End DriverStandard.

(** C4.  Over a whole run of [ARMS], a standard-star exposure (table row
    [k]) is reduced at most once on each detector, however many science
    exposures point at it. *)
Theorem standard_reduced_at_most_once
    C tbl cfg reuseMaster arg h0 disk0 (k det : nat) :
  count (is_std_reduce k det)
    (trace (final (ARMS C tbl cfg reuseMaster arg (init_state h0 disk0)))) ≤ 1.
Proof.
  pose proof (ARMS_std_inv C tbl cfg reuseMaster arg h0 disk0 k det) as H.
  destruct (std_flag _ _ _); lia.
Qed.

(** ** The standard star: calibration fields handed over *)

(** A component of the state that a step leaves as it is. *)
Definition same {X} (f : RunState → X) : relation RunState := λ σ σ', f σ' = f σ.

#[global] Instance same_preorder {X} (f : RunState → X) : PreOrder (same f).
Proof.
  split; unfold same; [intros σ | intros σ1 σ2 σ3 H1 H2]; [done | by rewrite H2].
Qed.

Create HintDb same.
#[global] Hint Extern 1 (rel_spec (same _) (call _ _)) =>
  (apply rel_call; intros ?; reflexivity) : same.
#[global] Hint Extern 1 (rel_spec (same _) (modify _)) =>
  (apply rel_modify; intros ?; reflexivity) : same.

Ltac same_walk := rel_walk_with ltac:(auto with same).



Section DriverShare.
Variable C : Collab.
Variable tbl : FitsTbl.
Variable cfg : Settings.
Variable reuseMaster : bool.


End DriverShare.


(** ** Failures and the status *)

Lemma seq_split_at n sc :
  sc < n → seq 0 n = seq 0 sc ++ sc :: seq (S sc) (n - S sc).
Proof.
  intros H. replace n with (sc + S (n - S sc)) at 1 by lia.
  by rewrite seq_app.
Qed.

(** C6 (amended).  A failure raised while one exposure is reduced or written
    is not caught by the loop on exposures: the exception ends the run in
    the state in which it was raised, so no later exposure is processed, the
    standards are not written, the flux stage does not run and no status is
    returned. *)
Theorem exposure_failure_aborts_run
    C tbl cfg reuseMaster arg σ0 names σ1 sc σ2 e σ3 :
  init_sciexp tbl arg σ0 = Ok names σ1 →
  sc < length (sciexp σ1) →
  for_each (seq 0 sc) (reduce_exposure C tbl cfg reuseMaster) σ1 = Ok tt σ2 →
  reduce_exposure C tbl cfg reuseMaster sc σ2 = Raise e σ3 →
  ARMS C tbl cfg reuseMaster arg σ0 = Raise e σ3.
Proof.
  intros Hinit Hsc Hpre Hfail. unfold ARMS. cbv zeta.
  erewrite bind_Ok by exact Hinit.
  unfold gets at 1. unfold bind at 1. unfold bind at 1.
  rewrite (seq_split_at _ _ Hsc), for_each_app, Hpre. simpl.
  unfold bind at 1. by rewrite Hfail.
Qed.

(** The exposures that are still to come are not touched. *)
Definition later_same (n : nat) : relation RunState := λ σ σ',
  ∀ j, n ≤ j → sciexp σ' !! j = sciexp σ !! j.

#[global] Instance later_same_preorder n : PreOrder (later_same n).
Proof.
  split; unfold later_same; [by intros σ j _|]. intros σ1 σ2 σ3 H1 H2 j Hj.
  by rewrite H2, H1.
Qed.

Lemma later_same_modify n (f : RunState → RunState) :
  (∀ σ, sciexp (f σ) = sciexp σ) → rel_spec (later_same n) (modify f).
Proof. intros Hf. apply rel_modify. intros σ j _. by rewrite Hf. Qed.

Lemma later_same_release n sc :
  sc < n → rel_spec (later_same n) (modify (set_sciexp <[sc := None]>)).
Proof.
  intros Hsc. apply rel_modify. intros σ j Hj. simpl.
  apply list_lookup_insert_ne. lia.
Qed.

Create HintDb later.
#[global] Hint Extern 1 (rel_spec (later_same _) (call _ _)) =>
  (apply rel_call; intros ? ? ?; reflexivity) : later.
#[global] Hint Extern 1 (rel_spec (later_same _) (modify _)) =>
  (apply later_same_modify; intros ?; reflexivity) : later.
#[global] Hint Extern 2 (rel_spec (later_same _) (modify (set_sciexp _))) =>
  (apply later_same_release; assumption) : later.

Ltac later_walk := rel_walk_with ltac:(auto with later).

Lemma for_each_inv {A} (l : list A) (body : A → M unit) σ σ' x :
  (∀ y, rel_spec extends (body y)) →
  for_each l body σ = Ok tt σ' → x ∈ l →
  ∃ σa σb, body x σa = Ok tt σb ∧ extends σb σ'.
Proof.
  intros Hext. revert σ. induction l as [|y l IH]; intros σ H Hin.
  - by apply elem_of_nil in Hin.
  - simpl in H. apply bind_inv_Ok in H as ([] & σm & Hy & H).
    apply elem_of_cons in Hin as [->|Hin].
    + exists σ, σm. split; [done|].
      eapply rel_spec_Ok; [|exact H]. apply rel_for_each; first [apply _ | exact Hext].
    + by eapply IH.
Qed.

Section DriverStatus.
Variable C : Collab.
Variable tbl : FitsTbl.
Variable cfg : Settings.
Variable reuseMaster : bool.

Lemma reduce_exposure_later_same n sc :
  sc < n → rel_spec (later_same n) (reduce_exposure C tbl cfg reuseMaster sc).
Proof.
  intros Hsc. unfold reduce_exposure, write_exposure, save_1d.
  unfold reduce_detector, init_calib, calibrate, reduce_standard,
    resolve_cached, resolve_on_exposure, cached, block, lookup_or_compute,
    UpdateMasters, load_frame, reduce, SetFrame, slot, the_view, emit.
  later_walk.
Qed.

(** When the loop on exposures returns, every exposure of the range has
    been through its iteration, which found it where the loop had started
    from. *)
Lemma exposure_loop_inv n a σ σ' sc :
  for_each (seq a n) (reduce_exposure C tbl cfg reuseMaster) σ = Ok tt σ' →
  a ≤ sc < a + n →
  ∃ σa σb, sciexp σa !! sc = sciexp σ !! sc ∧
           reduce_exposure C tbl cfg reuseMaster sc σa = Ok tt σb ∧
           extends σb σ'.
Proof.
  revert a σ. induction n as [|n IH]; intros a σ H Hsc; [lia|].
  simpl in H. apply bind_inv_Ok in H as ([] & σm & Ha & H).
  destruct (decide (sc = a)) as [->|Hne].
  - exists σ, σm. split_and!; [done | done |].
    eapply rel_spec_Ok; [|exact H].
    apply rel_for_each; first [apply _ | intros x; apply reduce_exposure_extends].
  - destruct (IH (S a) σm H ltac:(lia)) as (σa & σb & Hs & Hb & He).
    exists σa, σb. split_and!; [|done|done].
    rewrite Hs. eapply (rel_spec_Ok (later_same sc)); [|exact Ha|done].
    apply reduce_exposure_later_same. lia.
Qed.

(** A per-detector reduction that returns has reduced the science frame. *)
Lemma reduce_detector_reduces sc slf det σ σ' :
  det_skipped cfg det = false →
  reduce_detector C tbl cfg reuseMaster sc slf det σ = Ok tt σ' →
  ∃ inputs, EvReduce false (idx_sci slf) det inputs ∈ trace σ'.
Proof.
  intros Hskip. unfold reduce_detector. rewrite Hskip. cbv zeta. intros H.
  apply bind_inv_Ok in H as ([] & σ1 & _ & H).
  apply bind_inv_Ok in H as ([] & σ2 & _ & H).
  apply bind_inv_Ok in H as (ms & σ3 & _ & H).
  apply bind_inv_Ok in H as (sciframe & σ4 & _ & H).
  apply bind_inv_Ok in H as ([] & σ5 & H5 & H).
  assert (He : extends σ5 σ').
  { eapply rel_spec_Ok; [|exact H]. apply reduce_standard_extends. }
  destruct He as [more He]. unfold reduce, the_view, bind, gets, call, SetFrame, modify in H5.
  injection H5 as <-. eexists. rewrite He. simpl.
  apply elem_of_app; left. apply elem_of_app; right.
  by apply list_elem_of_singleton.
Qed.

(** An exposure whose iteration returns has been reduced on every selected
    detector and written. *)
Lemma reduce_exposure_done sc slf σ σ' :
  sciexp σ !! sc = Some (Some slf) →
  reduce_exposure C tbl cfg reuseMaster sc σ = Ok tt σ' →
  EvSave2d (idx_sci slf) ∈ trace σ' ∧
  (∃ specobjs, EvSave1d (spec1d_file cfg (basename slf)) specobjs
                        (IdxInt (idx_sci slf)) ∈ trace σ') ∧
  ∀ det, 1 ≤ det ≤ ndet cfg → det_skipped cfg det = false →
         ∃ inputs, EvReduce false (idx_sci slf) det inputs ∈ trace σ'.
Proof.
  intros Hl. unfold reduce_exposure. unfold bind at 1. unfold gets at 1.
  rewrite Hl. intros H.
  apply bind_inv_Ok in H as ([] & σ1 & Hdets & H).
  apply bind_inv_Ok in H as ([] & σ2 & Hw & H). injection H as <-. simpl.
  assert (Hw' : ∃ specobjs, trace σ2 = trace σ1 ++
            [EvSave1d (spec1d_file cfg (basename slf)) specobjs (IdxInt (idx_sci slf));
             EvSaveObjInfo (idx_sci slf); EvSave2d (idx_sci slf)]).
  { unfold write_exposure, save_1d, emit, bind, gets, call, modify in Hw.
    destruct (save_1d_spectra_fits C _ _); [|done]. injection Hw as <-.
    eexists. simpl. by rewrite <- !app_assoc. }
  destruct Hw' as [specobjs Ht2]. rewrite Ht2. split_and!.
  - set_solver.
  - exists specobjs. set_solver.
  - intros det Hdet Hskip.
    destruct (for_each_inv _ _ _ _ det
      (reduce_detector_extends C tbl cfg reuseMaster sc slf) Hdets)
      as (σa & σb & Hb & [more He]).
    { apply elem_of_seq. lia. }
    destruct (reduce_detector_reduces _ _ _ _ _ Hskip Hb) as [inputs Hin].
    exists inputs. rewrite He. apply elem_of_app. left. apply elem_of_app. by left.
Qed.
End DriverStatus.

(** The status is bound to 0 at the start and never assigned again. *)
Lemma ARMS_status C tbl cfg reuseMaster arg σ0 s σ' :
  ARMS C tbl cfg reuseMaster arg σ0 = Ok s σ' → s = 0.
Proof.
  unfold ARMS. cbv zeta. intros H.
  apply bind_inv_Ok in H as (names & σ1 & _ & H).
  apply bind_inv_Ok in H as (numsci & σ1' & _ & H).
  apply bind_inv_Ok in H as ([] & σ2 & _ & H).
  apply bind_inv_Ok in H as ([] & σ3 & _ & H).
  apply bind_inv_Ok in H as ([] & σ4 & _ & H). by injection H as <- _.
Qed.

(** C7 (amended).  Whenever [ARMS] returns, the status it returns is 0, and
    it returns only after every exposure of the list has been reduced on
    every selected detector and written.  No path returns 1. *)
Theorem returned_status_is_zero C tbl cfg reuseMaster arg σ0 s σ' :
  ARMS C tbl cfg reuseMaster arg σ0 = Ok s σ' →
  s = 0 ∧
  ∃ names σ1, init_sciexp tbl arg σ0 = Ok names σ1 ∧
    ∀ sc, sc < length (sciexp σ1) →
      ∃ slf, sciexp σ1 !! sc = Some (Some slf) ∧
        EvSave2d (idx_sci slf) ∈ trace σ' ∧
        (∃ specobjs, EvSave1d (spec1d_file cfg (basename slf)) specobjs
                              (IdxInt (idx_sci slf)) ∈ trace σ') ∧
        ∀ det, 1 ≤ det ≤ ndet cfg → det_skipped cfg det = false →
               ∃ inputs, EvReduce false (idx_sci slf) det inputs ∈ trace σ'.
Proof.
  unfold ARMS. cbv zeta. intros H.
  apply bind_inv_Ok in H as (names & σ1 & Hinit & H).
  apply bind_inv_Ok in H as (numsci & σ1' & Hn & H). injection Hn as <- <-.
  apply bind_inv_Ok in H as ([] & σ2 & Hloop & H).
  assert (He : extends σ2 σ').
  { eapply rel_spec_Ok; [|exact H].
    rel_walk_with ltac:(auto using write_standards_extends, flux_stage_extends with ext). }
  apply bind_inv_Ok in H as ([] & σ3 & _ & H).
  apply bind_inv_Ok in H as ([] & σ4 & _ & H). injection H as <- _.
  split; [done|]. exists names, σ1. split; [done|]. intros sc Hsc.
  destruct (exposure_loop_inv C tbl cfg reuseMaster _ _ _ _ sc Hloop ltac:(lia))
    as (σa & σb & Hs & Hb & [m1 Hb']).
  destruct He as [m2 He].
  assert (Hslf : ∃ slf, sciexp σa !! sc = Some (Some slf)).
  { unfold reduce_exposure in Hb. unfold bind at 1 in Hb. unfold gets at 1 in Hb.
    destruct (sciexp σa !! sc) as [[slf|]|]; [by exists slf | done | done]. }
  destruct Hslf as [slf Hslf]. exists slf. split; [by rewrite <- Hs|].
  destruct (reduce_exposure_done C tbl cfg reuseMaster sc slf σa σb Hslf Hb)
    as (H1 & [specobjs H2] & H3).
  rewrite He, Hb'. split_and!.
  - set_solver.
  - exists specobjs. set_solver.
  - intros det Hdet Hskip. destruct (H3 det Hdet Hskip) as [inputs Hin].
    exists inputs. apply elem_of_app. left. apply elem_of_app. by left.
Qed.

(** ** The deferred flux stage *)

(** The sensitivity function is built from a standard or read from a file. *)
Definition is_sens_event (ev : Event) : bool :=
  match ev with
  | EvSensMaster _ _ _ | EvSensArchival _ => true
  | _ => false
  end.

(** What the flux loop adds to the trace: each file is read, fluxed and
    written back. *)
Definition flux_events (cfg : Settings) (sensfunc : Value) (basenames : list string)
    : History :=
  flat_map (λ bn, let f := spec1d_file cfg bn in
                  [EvLoadSpecobj f; EvFluxScience f sensfunc; EvWriteScience f])
           basenames.

(** What the flux loop does to the disk. *)
Definition flux_disk (C : Collab) (cfg : Settings) (sensfunc : Value)
    (basenames : list string) (d : gmap string (list Value)) : gmap string (list Value) :=
  foldl (λ d bn, alter (flux_apply C sensfunc) (spec1d_file cfg bn) d) d basenames.

Section FluxStage.
Variable C : Collab.
Variable cfg : Settings.

Lemma flux_one_ok sensfunc basenames kk bn specobjs σ :
  basenames !! kk = Some bn → disk σ !! spec1d_file cfg bn = Some specobjs →
  flux_one C cfg sensfunc basenames kk σ =
  Ok tt (set_disk (alter (flux_apply C sensfunc) (spec1d_file cfg bn))
           (set_trace (λ t, t ++ flux_events cfg sensfunc [bn]) σ)).
Proof.
  intros Hk Hd. unfold flux_one. rewrite Hk. cbv zeta.
  unfold bind, emit, call, gets, modify. simpl. rewrite Hd. simpl.
  unfold set_disk, set_trace. simpl. f_equal. f_equal.
  - by rewrite <- !app_assoc.
  - apply map_eq. intros f. rewrite lookup_alter, lookup_insert.
    case_decide; [subst; by rewrite Hd | done].
Qed.

Lemma flux_loop sensfunc pre bns σ :
  (∀ bn, bn ∈ bns → is_Some (disk σ !! spec1d_file cfg bn)) →
  ∃ σ', for_each (seq (length pre) (length bns))
                 (flux_one C cfg sensfunc (pre ++ bns)) σ = Ok tt σ' ∧
        trace σ' = trace σ ++ flux_events cfg sensfunc bns ∧
        disk σ' = flux_disk C cfg sensfunc bns (disk σ).
Proof.
  revert pre σ. induction bns as [|bn bns IH]; intros pre σ Hd; simpl.
  - exists σ. by rewrite app_nil_r.
  - destruct (Hd bn) as [specobjs Hs]; [set_solver|].
    unfold bind at 1.
    erewrite flux_one_ok; [|by apply list_lookup_middle|exact Hs].
    destruct (IH (pre ++ [bn])
      (set_disk (alter (flux_apply C sensfunc) (spec1d_file cfg bn))
         (set_trace (λ t, t ++ flux_events cfg sensfunc [bn]) σ)))
      as (σ' & Hrun & Ht & Hk).
    { intros bn' Hin. simpl. rewrite lookup_alter.
      case_decide; [subst; rewrite Hs; by eexists | apply Hd; set_solver]. }
    rewrite length_app, Nat.add_1_r, <- app_assoc in Hrun. simpl in Hrun.
    exists σ'. split_and!; [done | |done].
    rewrite Ht. simpl. by rewrite <- !app_assoc.
Qed.

(** Files that are not fluxed twice hold their spectra with the
    sensitivity function applied once. *)
Lemma flux_disk_lookup sensfunc basenames d bn :
  NoDup (spec1d_file cfg <$> basenames) → bn ∈ basenames →
  flux_disk C cfg sensfunc basenames d !! spec1d_file cfg bn =
  flux_apply C sensfunc <$> d !! spec1d_file cfg bn.
Proof.
  revert d. induction basenames as [|b l IH]; intros d Hnd Hin.
  - by apply elem_of_nil in Hin.
  - rewrite fmap_cons in Hnd. apply list.NoDup_cons in Hnd as [Hb Hnd].
    unfold flux_disk in *. simpl.
    apply elem_of_cons in Hin as [->|Hin].
    + assert (Hfr : ∀ d' : gmap string (list Value), foldl (λ d0 bn0, alter (flux_apply C sensfunc)
                                 (spec1d_file cfg bn0) d0) d' l !! spec1d_file cfg b
                     = d' !! spec1d_file cfg b).
      { clear IH Hnd. induction l as [|c l IHl]; intros d'; simpl; [done|].
        rewrite fmap_cons in Hb. apply not_elem_of_cons in Hb as [Hne Hb].
        rewrite IHl by done. by rewrite lookup_alter_ne. }
      by rewrite Hfr, lookup_alter_eq.
    + rewrite IH by done. rewrite lookup_alter_ne; [done|].
      intros Heq. apply Hb. rewrite Heq. by apply list_elem_of_fmap_2.
Qed.

Lemma flux_stage_eq ids basenames σ :
  flux_stage C cfg ids basenames σ =
  if calibrate_flux cfg && bool_decide (0 < length (std_dict σ))
  then bind (build_sensfunc C cfg (std_dict σ))
            (λ sensfunc, flux_all C cfg sensfunc ids basenames) σ
  else Ok tt σ.
Proof.
  unfold flux_stage, bind, gets.
  by destruct (calibrate_flux cfg && bool_decide (0 < length (std_dict σ))).
Qed.

Lemma build_sensfunc_master k x d (S : Setup) σ :
  sensfunc_archival cfg = "None"%string → setup_var σ = Some S →
  build_sensfunc C cfg ((k, x) :: d) σ =
  Ok (sens_master C (trace σ) (attr_list (heap σ) x a_specobjs (ndet cfg)) S k)
     (set_trace (λ t, t ++ [EvSensMaster k
        (attr_list (heap σ) x a_specobjs (ndet cfg)) S]) σ).
Proof.
  intros Ha Hs. unfold build_sensfunc. rewrite Ha. simpl.
  unfold bind, gets. by rewrite Hs.
Qed.

Lemma build_sensfunc_unbound k x d σ :
  sensfunc_archival cfg = "None"%string → setup_var σ = None →
  build_sensfunc C cfg ((k, x) :: d) σ = Raise NameError σ.
Proof.
  intros Ha Hs. unfold build_sensfunc. rewrite Ha. simpl.
  unfold bind, gets. by rewrite Hs.
Qed.

Lemma build_sensfunc_archival d σ :
  sensfunc_archival cfg ≠ "None"%string →
  build_sensfunc C cfg d σ =
  Ok (sens_archival C (trace σ) (sensfunc_archival cfg))
     (set_trace (λ t, t ++ [EvSensArchival (sensfunc_archival cfg)]) σ).
Proof.
  intros Ha. unfold build_sensfunc.
  destruct (String.eqb_spec (sensfunc_archival cfg) "None"); done.
Qed.

(** The gate of the stage. *)
Definition flux_gate (σ : RunState) : Prop :=
  calibrate_flux cfg = true ∧ std_dict σ ≠ [].

Lemma flux_stage_closed ids basenames σ :
  ¬ flux_gate σ → flux_stage C cfg ids basenames σ = Ok tt σ.
Proof.
  intros Hg. rewrite flux_stage_eq.
  destruct (calibrate_flux cfg) eqn:Ef; [|done].
  destruct (std_dict σ) as [|p d] eqn:Ed; [done|].
  exfalso. apply Hg. split; [done|]. by rewrite Ed.
Qed.

Lemma flux_all_extends sensfunc ids basenames :
  rel_spec extends (flux_all C cfg sensfunc ids basenames).
Proof.
  unfold flux_all. rel_walk_with ltac:(auto using flux_one_extends with ext).
Qed.

Lemma flux_stage_open ids basenames σ :
  flux_gate σ →
  flux_stage C cfg ids basenames σ = Raise NameError σ ∨
  ∃ ev more, is_sens_event ev = true ∧
    trace (final (flux_stage C cfg ids basenames σ)) = trace σ ++ ev :: more.
Proof.
  intros [Hf Hd]. rewrite flux_stage_eq, Hf.
  destruct (std_dict σ) as [|[k x] d] eqn:Ed; [done|]. simpl.
  destruct (decide (sensfunc_archival cfg = "None"%string)) as [Ha|Ha].
  - destruct (setup_var σ) as [S|] eqn:Es.
    + right. erewrite bind_Ok; [|by apply build_sensfunc_master].
      match goal with |- context [final (flux_all C cfg ?s ids basenames ?σ1)] =>
        destruct (flux_all_extends s ids basenames σ1) as [more Hm] end.
      eexists _, more. split; [|rewrite Hm; simpl; by rewrite <- app_assoc]. done.
    + left. erewrite bind_Raise; [done|]. by apply build_sensfunc_unbound.
  - right. erewrite bind_Ok; [|by apply build_sensfunc_archival].
    match goal with |- context [final (flux_all C cfg ?s ids basenames ?σ1)] =>
      destruct (flux_all_extends s ids basenames σ1) as [more Hm] end.
    eexists _, more. split; [|rewrite Hm; simpl; by rewrite <- app_assoc]. done.
Qed.
End FluxStage.

(** C8.  Flux calibration is requested, no archival sensitivity function is
    given, and the science files are on disk.  Then the stage builds the
    sensitivity function once, from the spectra of the standard at the first
    key of [std_dict], whatever other standards there are, and for every
    science exposure, in order, reads its file, applies that sensitivity
    function and writes the file back; a file fluxed once holds its spectra
    with the sensitivity function applied. *)
Theorem flux_uses_first_standard C cfg ids basenames σ k x rest (S : Setup) :
  calibrate_flux cfg = true → sensfunc_archival cfg = "None"%string →
  std_dict σ = (k, x) :: rest → setup_var σ = Some S →
  length ids = length basenames →
  (∀ bn, bn ∈ basenames → is_Some (disk σ !! spec1d_file cfg bn)) →
  let std_specobjs := attr_list (heap σ) x a_specobjs (ndet cfg) in
  let sensfunc := sens_master C (trace σ) std_specobjs S k in
  ∃ σ', flux_stage C cfg (Some ids) basenames σ = Ok tt σ' ∧
    trace σ' = trace σ ++ EvSensMaster k std_specobjs S ::
                 flux_events cfg sensfunc basenames ∧
    disk σ' = flux_disk C cfg sensfunc basenames (disk σ) ∧
    (NoDup (spec1d_file cfg <$> basenames) →
     ∀ bn, bn ∈ basenames →
       disk σ' !! spec1d_file cfg bn =
       flux_apply C sensfunc <$> disk σ !! spec1d_file cfg bn).
Proof.
  intros Hf Ha Hd Hs Hlen Hfiles std_specobjs sensfunc.
  rewrite flux_stage_eq, Hf, Hd. simpl.
  erewrite bind_Ok; [|by apply build_sensfunc_master].
  fold std_specobjs. fold sensfunc. unfold flux_all. rewrite Hlen.
  destruct (flux_loop C cfg sensfunc [] basenames
    (set_trace (λ t, t ++ [EvSensMaster k std_specobjs S]) σ) Hfiles)
    as (σ' & Hrun & Ht & Hk).
  simpl in Hrun, Ht, Hk. exists σ'. split_and!; [done | | done |].
  - rewrite Ht. by rewrite <- app_assoc.
  - intros Hnd bn Hin. rewrite Hk. by apply flux_disk_lookup.
Qed.

(** C9 (amended).  The flux stage is gated by the setting and by [std_dict]
    being non-empty, that is, by some science exposure having a standard
    assigned, whether or not that standard was reduced.  With the gate shut
    the stage does nothing at all: no collaborator is called and the state,
    the files on disk included, is left as it was.  With the gate open the
    stage first obtains the sensitivity function, unless the name [setup] is
    unbound. *)
Theorem flux_stage_gate C cfg ids basenames σ :
  (¬ (calibrate_flux cfg = true ∧ std_dict σ ≠ []) →
   flux_stage C cfg ids basenames σ = Ok tt σ) ∧
  (calibrate_flux cfg = true ∧ std_dict σ ≠ [] →
   flux_stage C cfg ids basenames σ = Raise NameError σ ∨
   ∃ ev more, is_sens_event ev = true ∧
     trace (final (flux_stage C cfg ids basenames σ)) = trace σ ++ ev :: more).
Proof.
  split; [apply flux_stage_closed | apply flux_stage_open].
Qed.

(** * Arc line lists: [load_line_lists] of [waveio.py] *)

Module WaveIO.

(** An [astropy] table, as far as the loader looks at it: column names and
    rows of cells. *)
Record Table := {
  colnames : list string;
  rows : list (list string);
}.

(** What a call of [load_line_lists] comes to. *)
Inductive PyResult :=
| RNone
| RTable (t : Table)
| RIOError (line : string)
| RTableMergeError
| RKeyError (line : string)
| RBdbQuit (line : string).

(** [pdb.set_trace()]: the session at the breakpoint lets the program go on
    ([continue]) or ends it ([quit], or the end of the input), which raises
    [bdb.BdbQuit].  A session that changes the variables or the course of
    the program is not followed. *)
Inductive Session := Continue | Quit.

(** How the loop on the lamps ends when a list is missing: with the
    [IOError] that names the lamp, or in the debugger. *)
Inductive Stop := StopIOError (line : string) | StopBdbQuit (line : string).

(** [s.rfind(c)]: the last index of [c] in [s], or [-1]. *)
Fixpoint rfind_from (c : Ascii.ascii) (l : list Ascii.ascii) (i acc : Z) : Z :=
  match l with
  | [] => acc
  | x :: r => rfind_from c r (i + 1) (if Ascii.eqb x c then i else acc)
  end.

Definition rfind (c : Ascii.ascii) (s : string) : Z :=
  rfind_from c (String.list_ascii_of_string s) 0 (-1).

(** [s[a:b]] with Python's reading of negative and overlong indices. *)
Definition py_index (n i : Z) : Z :=
  if (i <? 0)%Z then Z.max 0 (i + n) else Z.min i n.

Definition py_slice (s : string) (a b : Z) : string :=
  let l := String.list_ascii_of_string s in
  let n := Z.of_nat (length l) in
  let a' := py_index n a in
  let b' := py_index n b in
  String.string_of_list_ascii (take (Z.to_nat (b' - a')) (drop (Z.to_nat a') l)).

(** [line_file[i0+1:i1]] with [i0 = line_file.rfind('/')] and
    [i1 = line_file.rfind('_')]: the lamp name inside a file name. *)
Definition lamp_of_file (line_file : string) : string :=
  let i0 := rfind "/"%char line_file in
  let i1 := rfind "_"%char line_file in
  py_slice line_file (i0 + 1) i1.

Section Loader.
(** The package's data directories. *)
Variable line_path nist_path : string.
(** The file system: [os.path.isfile], [glob.glob(line_path+'*_lines.dat')]
    and [Table.read]. *)
Variable isfile : string → bool.
Variable glob_line_files : list string.
Variable Table_read : string → Table.
(** The debugger session at the breakpoint of line 159, reached for the
    lamp [line]. *)
Variable pdb_set_trace : string → Session.
(** The clean-up of a NIST table (lines 84-116), which parses
    floating-point intensities. *)
Variable nist_clean : string → Table → Table.
(** [astropy.table.vstack]: with [join_type='exact'] tables whose columns
    differ are a [TableMergeError]; the default join always stacks. *)
Variable vstack_exact : list Table → option Table.
Variable vstack_outer : list Table → Table.
(** [defs.lines()], the rows of [UNKNWNs.dat] a flag selects, and
    [Table.remove_column]. *)
Variable line_flag : string → option nat.
Variable select_flagged : list nat → Table → Table.
Variable remove_column : string → Table → Table.

(** [load_line_list(line_file, add_path, use_ion, NIST)] *)
Definition load_line_list (line_file : string) (use_ion NIST : bool) : Table :=
  let path := if NIST then nist_path else line_path in
  let line_file :=
    if use_ion then
      if NIST then path +:+ line_file +:+ "_vacuum.ascii"
      else path +:+ line_file +:+ "_lines.dat"
    else line_file in
  let line_list := Table_read line_file in
  if NIST then nist_clean line_file line_list else line_list.

(** The file a lamp name stands for. *)
Definition line_file_of (NIST : bool) (line : string) : string :=
  if NIST then nist_path +:+ line +:+ "_vacuum.ascii"
  else line_path +:+ line +:+ "_lines.dat".

(** The loop "Read standard files", lines 150-162.  Unless [skip] is set, a
    missing file stops the program at the breakpoint of line 159, and
    raises [IOError] when the session lets it go on. *)
Fixpoint read_lists (skip NIST : bool) (lines : list string) (lists : list Table)
    : Stop + list Table :=
  match lines with
  | [] => inr lists
  | line :: lines' =>
      let line_file := line_file_of NIST line in
      if negb (isfile line_file) then
        if negb skip then
          match pdb_set_trace line with
          | Continue => inl (StopIOError line)
          | Quit => inl (StopBdbQuit line)
          end
        else read_lists skip NIST lines' lists
      else read_lists skip NIST lines' (lists ++ [load_line_list line_file false NIST])
  end.

(** [load_unknown_list(lines)] with the default file and [all=False]:
    every lamp must have a flag. *)
Fixpoint lamp_flags (lines : list string) : string + list nat :=
  match lines with
  | [] => inr []
  | line :: lines' =>
      match line_flag line with
      | None => inl line
      | Some fl =>
          match lamp_flags lines' with
          | inl e => inl e
          | inr fls => inr (fl :: fls)
          end
      end
  end.

Definition load_unknown_list (lines : list string) : string + Table :=
  let line_list := load_line_list (line_path +:+ "UNKNWNs.dat") false false in
  match lamp_flags lines with
  | inl e => inl e
  | inr fls => inr (select_flagged fls line_list)
  end.

(** [load_line_lists(lines, unknown, skip, all, NIST)] *)
Definition load_line_lists (lines : list string) (unknown skip all NIST : bool)
    : PyResult :=
  let lines := if all then map lamp_of_file glob_line_files else lines in
  match read_lists skip NIST lines [] with
  | inl (StopIOError line) => RIOError line
  | inl (StopBdbQuit line) => RBdbQuit line
  | inr lists =>
      if bool_decide (length lists = 0) then RNone
      else
        match vstack_exact lists with
        | None => RTableMergeError
        | Some line_lists =>
            if unknown then
              match load_unknown_list lines with
              | inl e => RKeyError e
              | inr unkn_lines =>
                  RTable (vstack_outer
                    [line_lists; remove_column "line_flag" unkn_lines])
              end
            else RTable line_lists
        end
  end.

(** The files that exist among those the lamp names stand for. *)
Definition existing_files (NIST : bool) (lines : list string) : list string :=
  List.filter isfile (map (line_file_of NIST) lines).

Lemma read_lists_skip NIST lines lists :
  read_lists true NIST lines lists =
  inr (lists ++ map (λ f, load_line_list f false NIST) (existing_files NIST lines)).
Proof.
  revert lists. induction lines as [|line lines IH]; intros lists; simpl.
  - by rewrite app_nil_r.
  - unfold existing_files in *. simpl.
    destruct (isfile (line_file_of NIST line)); simpl.
    + by rewrite IH, <- app_assoc.
    + apply IH.
Qed.

Lemma existing_files_none NIST lines :
  (∀ line, line ∈ lines → isfile (line_file_of NIST line) = false) →
  existing_files NIST lines = [].
Proof.
  unfold existing_files. induction lines as [|line lines IH]; intros H; [done|].
  simpl. rewrite (H line) by set_solver. apply IH. intros l Hl. apply H. set_solver.
Qed.

(** C10.  With [skip=True] and [unknown=False] (and [all=False]) the
    loader never raises for a missing file: it reads the files that
    exist, in the order of the lamp names, leaves the others out, and
    stacks what it has read; when none of the files exists it returns
    [None]. *)
Theorem load_line_lists_skips_missing (lines : list string) (NIST : bool) :
  let files := existing_files NIST lines in
  let tables := map (λ f, load_line_list f false NIST) files in
  load_line_lists lines false true false NIST =
    match files with
    | [] => RNone
    | _ :: _ =>
        match vstack_exact tables with
        | Some t => RTable t
        | None => RTableMergeError
        end
    end ∧
  ((∀ line, line ∈ lines → isfile (line_file_of NIST line) = false) →
   load_line_lists lines false true false NIST = RNone).
Proof.
  intros files tables.
  assert (Heq : load_line_lists lines false true false NIST =
    match files with
    | [] => RNone
    | _ :: _ =>
        match vstack_exact tables with
        | Some t => RTable t
        | None => RTableMergeError
        end
    end).
  { unfold load_line_lists. rewrite read_lists_skip. simpl. fold files. fold tables.
    unfold tables. destruct files as [|f files']; [done|]. simpl.
    by destruct (vstack_exact _). }
  split; [exact Heq|]. intros Hnone. rewrite Heq. unfold files.
  by rewrite existing_files_none.
Qed.
End Loader.

End WaveIO.

(** * Concrete runs *)

(** ** Reading off a result *)

Definition status_of (r : Result nat) : option nat :=
  match r with Ok s _ => Some s | Raise _ _ => None end.

Definition raised {A} (r : Result A) : option Exn :=
  match r with Ok _ _ => None | Raise e _ => Some e end.

Definition returns {A} (r : Result A) (a : A) : Prop :=
  match r with Ok a' _ => a' = a | Raise _ _ => False end.

Lemma returns_Ok {A} (r : Result A) a : returns r a → r = Ok a (final r).
Proof. destruct r; simpl; [by intros -> | done]. Qed.

Lemma raised_Raise {A} (r : Result A) e : raised r = Some e → r = Raise e (final r).
Proof. destruct r; simpl; [done | by intros [= ->]]. Qed.

(** A calibration product is computed. *)
Definition is_computation (ev : Event) : bool :=
  match ev with EvBuild _ _ _ _ _ => true | _ => false end.

(** A frame is reduced. *)
Definition is_reduce (ev : Event) : bool :=
  match ev with EvReduce _ _ _ _ => true | _ => false end.

(** The flux stage is at work. *)
Definition is_flux_event (ev : Event) : bool :=
  match ev with
  | EvSensMaster _ _ _ | EvSensArchival _ | EvLoadSpecobj _
  | EvFluxScience _ _ | EvWriteScience _ => true
  | _ => false
  end.

(** A frame of table row [row] is loaded, reduced or written. *)
Definition is_row_event (row : nat) (ev : Event) : bool :=
  match ev with
  | EvLoadFrames r _ _ _ | EvReduce _ r _ _ | EvSaveObjInfo r | EvSave2d r =>
      bool_decide (r = row)
  | _ => false
  end.

(** ** Collaborators, tables and settings *)

Definition ex_slits : TraceSlits :=
  {| lcen := [[1; 2]]%Z; rcen := [[3; 4]]%Z; pixcen := []; pixwid := [];
     lordpix := []; rordpix := []; slitpix := [] |}.

(** Collaborators that always answer alike; every frame can be loaded and
    every file written. *)
Definition ex_C : Collab :=
  {| bias_master := λ _ _ _ _, VStr "overscan";
     arc_master := λ _ _ _ _ _, VArr [[1]]%Z;
     bpm_build := λ _ _ _ _, VArr [[0]]%Z;
     gen_pixloc := λ _ _, VArr [];
     from_master_files := λ _ _, None;
     trace_slits := λ _ _ _ _ _ _ _, ex_slits;
     MasterWaveCalib := λ _ _ _ _, (true, VArr [[5]]%Z);
     load_master_frame := λ _ _ _ _, VNone;
     multislit_tilt := λ _ _ _ _, (VArr [[7]]%Z, VNone, VNone);
     MasterFlatField := λ _ _ _ _ _, (true, VArr [[8]]%Z, VArr []);
     MasterWave := λ _ _ _ _, (true, VArr [[9]]%Z);
     UpdateMasters_writes := λ _ _ _ _ _, [];
     load_frames := λ _ _ _ _ _, Some (VArr [[3]]%Z);
     reduce_multislit := λ _ _ _ _ _ _ _ _, VArr [[4]]%Z;
     save_1d_spectra_fits := λ _ _, true;
     sens_master := λ _ _ _ _, VStr "sens";
     sens_archival := λ _ _, VStr "arch";
     flux_apply := λ s l, s :: l |}.

(** The science frame of table row 11 is missing. *)
Definition ex_C_missing : Collab :=
  {| bias_master := bias_master ex_C; arc_master := arc_master ex_C;
     bpm_build := bpm_build ex_C; gen_pixloc := gen_pixloc ex_C;
     from_master_files := from_master_files ex_C; trace_slits := trace_slits ex_C;
     MasterWaveCalib := MasterWaveCalib ex_C;
     load_master_frame := load_master_frame ex_C;
     multislit_tilt := multislit_tilt ex_C; MasterFlatField := MasterFlatField ex_C;
     MasterWave := MasterWave ex_C; UpdateMasters_writes := UpdateMasters_writes ex_C;
     load_frames := λ _ row _ _ _, if decide (row = 11) then None else Some (VArr [[3]]%Z);
     reduce_multislit := reduce_multislit ex_C;
     save_1d_spectra_fits := save_1d_spectra_fits ex_C;
     sens_master := sens_master ex_C; sens_archival := sens_archival ex_C;
     flux_apply := flux_apply ex_C |}.

Definition ex_basename (row : nat) : string :=
  if decide (row = 11) then "E1" else if decide (row = 12) then "E2" else "STD".

(** Two science exposures (science IDs 1 and 2, table rows 11 and 12) of
    one setup, without a standard. *)
Definition ex_tbl : FitsTbl :=
  {| tbl_sci_IDs := [1; 2];
     science_row := λ sid, sid + 10;
     standard_rows := λ _, [];
     row_basename := ex_basename;
     instr_setup := λ _ _, "A_01_aa";
     datasec_trimmed := λ _ _, VNone |}.

(** The same two exposures, both pointing at the standard of row 5. *)
Definition ex_tbl_std : FitsTbl :=
  {| tbl_sci_IDs := [1; 2];
     science_row := λ sid, sid + 10;
     standard_rows := λ _, [5];
     row_basename := ex_basename;
     instr_setup := λ _ _, "A_01_aa";
     datasec_trimmed := λ _ _, VNone |}.

(** A table without science exposures. *)
Definition ex_tbl_empty : FitsTbl :=
  {| tbl_sci_IDs := [];
     science_row := λ sid, sid + 10;
     standard_rows := λ _, [];
     row_basename := ex_basename;
     instr_setup := λ _ _, "A_01_aa";
     datasec_trimmed := λ _ _, VNone |}.

(** One detector, masters not reused, no flux calibration. *)
Definition ex_cfg : Settings :=
  {| ndet := 1; detnum := None; masters_reuse := false; masters_force := false;
     calibrate_flux := false; sensfunc_archival := "None"; science_dir := "Science" |}.

(** Flux calibration from the reduced standard. *)
Definition ex_cfg_flux : Settings :=
  {| ndet := 1; detnum := None; masters_reuse := false; masters_force := false;
     calibrate_flux := true; sensfunc_archival := "None"; science_dir := "Science" |}.

(** Flux calibration from an archival file, the reduction restricted to a
    detector the instrument does not have. *)
Definition ex_cfg_skip : Settings :=
  {| ndet := 1; detnum := Some [2]; masters_reuse := false; masters_force := false;
     calibrate_flux := true; sensfunc_archival := "sens.fits"; science_dir := "Science" |}.

Definition ex_init : RunState := init_state (λ _, VNone) ∅.

Definition ex_e1 : Exposure := ScienceExposure (SciObj 0) 1 11 "E1".
Definition ex_e2 : Exposure := ScienceExposure (SciObj 1) 2 12 "E2".
Definition ex_std : Exposure := ScienceExposure (StdObj 5) 1 5 "STD".

(** The state after the exposures of [ex_tbl] have been set up, and after
    the first of them has been through its iteration. *)
Definition ex_σ0 : RunState := final (init_sciexp ex_tbl None ex_init).
Definition ex_σ1 : RunState :=
  final (reduce_exposure ex_C ex_tbl ex_cfg false 0 ex_σ0).

(** The same with the standard of [ex_tbl_std]. *)
Definition ex_σ0_std : RunState := final (init_sciexp ex_tbl_std None ex_init).

(** The state in which the flux stage of the run on [ex_tbl_std] starts. *)
Definition ex_σ_flux : RunState :=
  final ((for_each (seq 0 2) (reduce_exposure ex_C ex_tbl_std ex_cfg_flux false) ;;;
          write_standards ex_C ex_cfg_flux) ex_σ0_std).

(** ** The claims on these runs *)

Lemma calibration_product_computed_once_witness :
  cached_kind Bias = true ∧
  let t := trace (final (ARMS ex_C ex_tbl ex_cfg false None ex_init)) in
  count (is_build "A_01_aa" Bias) t ≤ 1 ∧ count (is_load "A_01_aa" Bias) t ≤ 1 ∧
  ∀ det1 det2 v1 v2,
    EvResolved Bias "A_01_aa" det1 v1 ∈ t → EvResolved Bias "A_01_aa" det2 v2 ∈ t →
    v1 = v2.
Proof.
  split; [reflexivity|].
  apply (calibration_product_computed_once ex_C ex_tbl ex_cfg false None
           (λ _, VNone) ∅ "A_01_aa" Bias).
  reflexivity.
Defined.

(** In that run the bias is built exactly once, for the first exposure. *)
Example ex_bias_built_once :
  List.filter (is_build "A_01_aa" Bias)
    (trace (final (ARMS ex_C ex_tbl ex_cfg false None ex_init))) =
  [EvBuild Bias "A_01_aa" 1 1 []].
Proof. vm_compute. reflexivity. Qed.

(** C2, as stated, fails: the second exposure of the same setup and
    detector computes the tilts again (they are kept on the exposure, and
    masters are not reused here), after the first one has computed bias,
    arc, bad-pixel mask, trace and tilts. *)
Lemma second_reduction_computes_tilts_again :
  List.filter is_computation
    (emitted (reduce_detector ex_C ex_tbl ex_cfg false 0 ex_e1 1) ex_σ0) =
  [EvBuild Bias "A_01_aa" 1 1 [];
   EvBuild Arc "A_01_aa" 1 1 [VStr "overscan"];
   EvBuild Bpm "A_01_aa" 1 1 [VArr [[1]]%Z; VStr "overscan"];
   EvBuild Trace "A_01_aa" 1 1 [VStr "overscan"; VArr []; VArr [[0]]%Z];
   EvBuild Tilt "A_01_aa" 1 1 [VArr [[1]]%Z]] ∧
  List.filter is_computation
    (emitted (reduce_detector ex_C ex_tbl ex_cfg false 1 ex_e2 1) ex_σ1) =
  [EvBuild Tilt "A_01_aa" 1 2 [VArr [[1]]%Z]].
Proof. split; vm_compute; reflexivity. Qed.

Lemma second_reduction_reuses_cached_products_witness :
  det_skipped ex_cfg 1 = false ∧
  instr_setup ex_tbl (sci_ID ex_e2) 1 = instr_setup ex_tbl (sci_ID ex_e1) 1 ∧
  calib_dict ex_σ0 !! instr_setup ex_tbl (sci_ID ex_e1) 1 = None ∧
  returns (reduce_detector ex_C ex_tbl ex_cfg false 0 ex_e1 1 ex_σ0) tt ∧
  let σ1 := final (reduce_detector ex_C ex_tbl ex_cfg false 0 ex_e1 1 ex_σ0) in
  let first := emitted (reduce_detector ex_C ex_tbl ex_cfg false 0 ex_e1 1) ex_σ0 in
  let second := emitted (reduce_detector ex_C ex_tbl ex_cfg false 1 ex_e2 1) σ1 in
  (count (is_build "A_01_aa" Bias) first = 1 ∧ count (is_build "A_01_aa" Arc) first = 1 ∧
   count (is_build "A_01_aa" Bpm) first = 1 ∧ count (is_build "A_01_aa" Trace) first ≤ 1 ∧
   1 ≤ count (is_build "A_01_aa" Trace) first + count (is_load "A_01_aa" Trace) first) ∧
  ∀ K, cached_kind K = true →
    count (is_build "A_01_aa" K) second = 0 ∧ count (is_load "A_01_aa" K) second = 0 ∧
    ∃ v, stored "A_01_aa" K σ1 = Some v ∧ EvResolved K "A_01_aa" 1 v ∈ second ∧
         ∀ det' v', EvResolved K "A_01_aa" det' v' ∈ second → v' = v.
Proof.
  assert (Hrun : returns (reduce_detector ex_C ex_tbl ex_cfg false 0 ex_e1 1 ex_σ0) tt)
    by (vm_compute; reflexivity).
  split_and!; [reflexivity | reflexivity | vm_compute; reflexivity | exact Hrun |].
  apply (second_reduction_reuses_cached_products ex_C ex_tbl ex_cfg false
           0 ex_e1 1 ex_e2 1 ex_σ0 _ _);
    [reflexivity | reflexivity | vm_compute; reflexivity
    | apply returns_Ok, Hrun | reflexivity].
Defined.

Lemma calibration_resolved_in_dependency_order_witness :
  let run := reduce_detector ex_C ex_tbl ex_cfg false 0 ex_e1 1 in
  let evs := emitted run ex_σ0 in
  run ex_σ0 = Ok tt (final (run ex_σ0)) ∧
  marks evs = block_marks ∧
  evs !! 0 = Some (EvResolve Bias "A_01_aa" 1) ∧
  evs !! 7 = Some (EvBuild Bpm "A_01_aa" 1 1 [VArr [[1]]%Z; VStr "overscan"]) ∧
  (∃ v, resolved_before "A_01_aa" 1 evs 7 Bias v) ∧
  resolved_before "A_01_aa" 1 evs 7 Arc (VArr [[1]]%Z) ∧
  evs !! 27 = Some (EvLoadFrames 11 1 science (VStr "overscan")) ∧
  (∃ v, resolved_before "A_01_aa" 1 evs 27 Wave v) ∧
  stored "A_01_aa" Bpm (final (run ex_σ0)) = Some (VArr [[0]]%Z).
Proof.
  assert (Hret : reduce_detector ex_C ex_tbl ex_cfg false 0 ex_e1 1 ex_σ0 =
                 Ok tt (final (reduce_detector ex_C ex_tbl ex_cfg false 0 ex_e1 1 ex_σ0)))
    by (vm_compute; reflexivity).
  assert (H7 : emitted (reduce_detector ex_C ex_tbl ex_cfg false 0 ex_e1 1) ex_σ0 !! 7 =
               Some (EvBuild Bpm "A_01_aa" 1 1 [VArr [[1]]%Z; VStr "overscan"]))
    by (vm_compute; reflexivity).
  assert (H8 : emitted (reduce_detector ex_C ex_tbl ex_cfg false 0 ex_e1 1) ex_σ0 !! 8 =
               Some (EvResolved Bpm "A_01_aa" 1 (VArr [[0]]%Z)))
    by (vm_compute; reflexivity).
  assert (H27 : emitted (reduce_detector ex_C ex_tbl ex_cfg false 0 ex_e1 1) ex_σ0 !! 27 =
                Some (EvLoadFrames 11 1 science (VStr "overscan")))
    by (vm_compute; reflexivity).
  destruct (calibration_resolved_in_dependency_order ex_C ex_tbl ex_cfg false
              0 ex_e1 1 ex_σ0)
    as ((_ & Hstart & Hwhole & _) & Hlow & Hin & _ & Hframe & Hcache).
  split_and!.
  - exact Hret.
  - exact (Hwhole _ Hret).
  - exact (Hstart eq_refl).
  - exact H7.
  - apply (Hlow 7 _ Bpm H7 eq_refl Bias). simpl. lia.
  - apply (Hin 7 _ Arc (VArr [[1]]%Z) H7). simpl. apply list_elem_of_here.
  - exact H27.
  - exact (Hframe 27 _ H27 eq_refl Wave).
  - exact (Hcache 8 Bpm (VArr [[0]]%Z) eq_refl H8).
Defined.

(** What that reduction asks of its collaborators, in this order: with
    nothing in [calib_dict] every product is built or resolved by its
    collaborator. *)
Example ex_calibration_calls :
  List.filter (λ ev, bool_decide (is_Some (step_kind ev)))
    (emitted (reduce_detector ex_C ex_tbl ex_cfg false 0 ex_e1 1) ex_σ0) =
  [EvBuild Bias "A_01_aa" 1 1 [];
   EvBuild Arc "A_01_aa" 1 1 [VStr "overscan"];
   EvBuild Bpm "A_01_aa" 1 1 [VArr [[1]]%Z; VStr "overscan"];
   EvBuild Trace "A_01_aa" 1 1 [VStr "overscan"; VArr []; VArr [[0]]%Z];
   EvSaveMaster Trace "A_01_aa" 1;
   EvMethod WvCalib 1 1 [VArr [[1]]%Z];
   EvLoadMaster Tilt "A_01_aa";
   EvBuild Tilt "A_01_aa" 1 1 [VArr [[1]]%Z];
   EvSaveMaster Tilt "A_01_aa" 1;
   EvMethod Flat 1 1 [VStr "overscan"; VNone];
   EvMethod Wave 1 1 []].
Proof. vm_compute. reflexivity. Qed.


(** After that reduction the standard shows the tilts of the science
    exposure; in the whole run it is reduced once, though both science
    exposures point at it. *)
Example ex_standard_tilts :
  let σ' := final (reduce_detector ex_C ex_tbl_std ex_cfg false 0 ex_e1 1 ex_σ0_std) in
  (λ x, heap σ' (refs x a_tilts, 0)) <$> dict_get 5 (std_dict σ') = Some (VArr [[7]]%Z).
Proof. vm_compute. reflexivity. Qed.

Example ex_standard_reduced_once :
  List.filter (is_std_reduce 5 1)
    (trace (final (ARMS ex_C ex_tbl_std ex_cfg false None ex_init))) =
  [EvReduce true 5 1 [VArr [[3]]%Z; VArr [[0]]%Z; VNone]].
Proof. vm_compute. reflexivity. Qed.

(** C6, as stated, fails: the science frame of the first exposure cannot be
    loaded; the run ends with that exception instead of a status, and the
    second exposure (table row 12) is never loaded, reduced or written. *)
Lemma missing_frame_ends_the_run :
  raised (ARMS ex_C_missing ex_tbl ex_cfg false None ex_init) = Some MissingInputError ∧
  status_of (ARMS ex_C_missing ex_tbl ex_cfg false None ex_init) = None ∧
  List.filter (is_row_event 12)
    (trace (final (ARMS ex_C_missing ex_tbl ex_cfg false None ex_init))) = [].
Proof. split_and!; vm_compute; reflexivity. Qed.

Lemma exposure_failure_aborts_run_witness :
  returns (init_sciexp ex_tbl None ex_init) (Some [1; 2], ["E1"; "E2"]%string) ∧
  0 < length (sciexp ex_σ0) ∧
  for_each (seq 0 0) (reduce_exposure ex_C_missing ex_tbl ex_cfg false) ex_σ0 = Ok tt ex_σ0 ∧
  raised (reduce_exposure ex_C_missing ex_tbl ex_cfg false 0 ex_σ0) = Some MissingInputError ∧
  ARMS ex_C_missing ex_tbl ex_cfg false None ex_init =
  Raise MissingInputError (final (reduce_exposure ex_C_missing ex_tbl ex_cfg false 0 ex_σ0)).
Proof.
  assert (Hinit : returns (init_sciexp ex_tbl None ex_init)
                    (Some [1; 2], ["E1"; "E2"]%string)) by (vm_compute; reflexivity).
  assert (Hfail : raised (reduce_exposure ex_C_missing ex_tbl ex_cfg false 0 ex_σ0)
                  = Some MissingInputError) by (vm_compute; reflexivity).
  split_and!; [exact Hinit | vm_compute; lia | reflexivity | exact Hfail |].
  apply (exposure_failure_aborts_run ex_C_missing ex_tbl ex_cfg false None ex_init
           (Some [1; 2], ["E1"; "E2"]%string) ex_σ0 0 ex_σ0);
    [apply returns_Ok, Hinit | vm_compute; lia | reflexivity
    | apply raised_Raise, Hfail].
Defined.

(** C7, as stated, fails: no run returns 1.  The run on a table without
    science exposures goes through the set-up alone, reducing and writing
    nothing, and returns 0 like every run that returns. *)
Lemma status_one_is_never_returned :
  status_of (ARMS ex_C ex_tbl_empty ex_cfg false None ex_init) = Some 0 ∧
  trace (final (ARMS ex_C ex_tbl_empty ex_cfg false None ex_init)) = [] ∧
  ∀ C tbl cfg reuseMaster arg σ0,
    status_of (ARMS C tbl cfg reuseMaster arg σ0) ≠ Some 1.
Proof.
  split_and!; [vm_compute; reflexivity | vm_compute; reflexivity |].
  intros C tbl cfg reuseMaster arg σ0.
  destruct (ARMS C tbl cfg reuseMaster arg σ0) as [s σ'|e σ'] eqn:E; [|done].
  apply ARMS_status in E as ->. done.
Qed.

Lemma returned_status_is_zero_witness :
  returns (ARMS ex_C ex_tbl ex_cfg false None ex_init) 0 ∧
  0 = 0 ∧
  ∃ names σ1, init_sciexp ex_tbl None ex_init = Ok names σ1 ∧
    ∀ sc, sc < length (sciexp σ1) →
      ∃ slf, sciexp σ1 !! sc = Some (Some slf) ∧
        EvSave2d (idx_sci slf) ∈
          trace (final (ARMS ex_C ex_tbl ex_cfg false None ex_init)) ∧
        (∃ specobjs, EvSave1d (spec1d_file ex_cfg (basename slf)) specobjs
                              (IdxInt (idx_sci slf)) ∈
           trace (final (ARMS ex_C ex_tbl ex_cfg false None ex_init))) ∧
        ∀ det, 1 ≤ det ≤ ndet ex_cfg → det_skipped ex_cfg det = false →
               ∃ inputs, EvReduce false (idx_sci slf) det inputs ∈
                 trace (final (ARMS ex_C ex_tbl ex_cfg false None ex_init)).
Proof.
  assert (Hrun : returns (ARMS ex_C ex_tbl ex_cfg false None ex_init) 0)
    by (vm_compute; reflexivity).
  split; [exact Hrun|].
  apply (returned_status_is_zero ex_C ex_tbl ex_cfg false None ex_init 0 _).
  apply returns_Ok, Hrun.
Defined.

Lemma flux_uses_first_standard_witness :
  calibrate_flux ex_cfg_flux = true ∧
  sensfunc_archival ex_cfg_flux = "None"%string ∧
  std_dict ex_σ_flux = (5, set_extracted 0 true (share_attrs ex_e1 ex_std)) :: [] ∧
  setup_var ex_σ_flux = Some "A_01_aa"%string ∧
  length [1; 2] = length ["E1"; "E2"]%string ∧
  (∀ bn, bn ∈ ["E1"; "E2"]%string →
         is_Some (disk ex_σ_flux !! spec1d_file ex_cfg_flux bn)) ∧
  let x := set_extracted 0 true (share_attrs ex_e1 ex_std) in
  let std_specobjs := attr_list (heap ex_σ_flux) x a_specobjs (ndet ex_cfg_flux) in
  let sensfunc := sens_master ex_C (trace ex_σ_flux) std_specobjs "A_01_aa" 5 in
  ∃ σ', flux_stage ex_C ex_cfg_flux (Some [1; 2]) ["E1"; "E2"]%string ex_σ_flux = Ok tt σ' ∧
    trace σ' = trace ex_σ_flux ++ EvSensMaster 5 std_specobjs "A_01_aa" ::
                 flux_events ex_cfg_flux sensfunc ["E1"; "E2"]%string ∧
    disk σ' = flux_disk ex_C ex_cfg_flux sensfunc ["E1"; "E2"]%string (disk ex_σ_flux) ∧
    (NoDup (spec1d_file ex_cfg_flux <$> ["E1"; "E2"]%string) →
     ∀ bn, bn ∈ ["E1"; "E2"]%string →
       disk σ' !! spec1d_file ex_cfg_flux bn =
       flux_apply ex_C sensfunc <$> disk ex_σ_flux !! spec1d_file ex_cfg_flux bn).
Proof.
  assert (Hfiles : ∀ bn, bn ∈ ["E1"; "E2"]%string →
            is_Some (disk ex_σ_flux !! spec1d_file ex_cfg_flux bn)).
  { intros bn Hin. apply list_elem_of_In in Hin.
    destruct Hin as [<-|[<-|[]]]; vm_compute; eauto. }
  split_and!; [reflexivity | reflexivity | vm_compute; reflexivity
              | vm_compute; reflexivity | reflexivity | exact Hfiles |].
  apply (flux_uses_first_standard ex_C ex_cfg_flux [1; 2] ["E1"; "E2"]%string
           ex_σ_flux 5 _ [] "A_01_aa"%string);
    [reflexivity | reflexivity | vm_compute; reflexivity
    | vm_compute; reflexivity | reflexivity | exact Hfiles].
Defined.

(** Each science exposure has a standard of its own (table rows 7 and 8). *)
Definition ex_tbl_two_std : FitsTbl :=
  {| tbl_sci_IDs := [1; 2];
     science_row := λ sid, sid + 10;
     standard_rows := λ sid, [sid + 6];
     row_basename := ex_basename;
     instr_setup := λ _ _, "A_01_aa";
     datasec_trimmed := λ _ _, VNone |}.

(** With two standards in [std_dict] the flux stage of the whole run builds
    one sensitivity function, from the standard at the first key, and
    applies it to both science files. *)
Example ex_flux_of_run :
  List.filter is_flux_event
    (trace (final (ARMS ex_C ex_tbl_two_std ex_cfg_flux false None ex_init))) =
  [EvSensMaster 7 [VArr [[4]]%Z] "A_01_aa";
   EvLoadSpecobj "Science/spec1d_E1.fits";
   EvFluxScience "Science/spec1d_E1.fits" (VStr "sens");
   EvWriteScience "Science/spec1d_E1.fits";
   EvLoadSpecobj "Science/spec1d_E2.fits";
   EvFluxScience "Science/spec1d_E2.fits" (VStr "sens");
   EvWriteScience "Science/spec1d_E2.fits"].
Proof. vm_compute. reflexivity. Qed.

(** C9, as stated, fails: the reduction is restricted to a detector the
    instrument does not have, so that no frame, and no standard, is
    reduced; a standard is assigned all the same, [std_dict] is not empty,
    and the flux stage runs and rewrites the science file. *)
Lemma flux_stage_runs_without_reduced_standard :
  status_of (ARMS ex_C ex_tbl_std ex_cfg_skip false None ex_init) = Some 0 ∧
  List.filter is_reduce
    (trace (final (ARMS ex_C ex_tbl_std ex_cfg_skip false None ex_init))) = [] ∧
  List.filter is_flux_event
    (trace (final (ARMS ex_C ex_tbl_std ex_cfg_skip false None ex_init))) =
  [EvSensArchival "sens.fits";
   EvLoadSpecobj "Science/spec1d_E1.fits";
   EvFluxScience "Science/spec1d_E1.fits" (VStr "arch");
   EvWriteScience "Science/spec1d_E1.fits";
   EvLoadSpecobj "Science/spec1d_E2.fits";
   EvFluxScience "Science/spec1d_E2.fits" (VStr "arch");
   EvWriteScience "Science/spec1d_E2.fits"].
Proof. split_and!; vm_compute; reflexivity. Qed.

(** The lamp name inside a file name of the package. *)
Example ex_lamp_of_file :
  WaveIO.lamp_of_file "/pypeit/data/arc_lines/lists/ThAr_lines.dat" = "ThAr"%string.
Proof. vm_compute. reflexivity. Qed.

(** * Further properties of the driver and of the line-list files *)

(** * Invariants with results

    [safe I E m Q]: started in a state where [I] holds, [m] either returns
    a value that satisfies [Q] or raises an exception that satisfies [E],
    and [I] holds again in the state it leaves. *)

Definition safe {A} (I : RunState → Prop) (E : Exn → Prop) (m : M A) (Q : A → Prop)
    : Prop :=
  ∀ σ, I σ → match m σ with
             | Ok a σ' => I σ' ∧ Q a
             | Raise e σ' => I σ' ∧ E e
             end.

Section safe.
Context (I : RunState → Prop) (E : Exn → Prop).

Lemma safe_ret {A} (a : A) (Q : A → Prop) : Q a → safe I E (ret a) Q.
Proof. intros HQ σ HI. by split. Qed.

Lemma safe_ret_any {A} (a : A) : safe I E (ret a) (λ _, True).
Proof. by apply safe_ret. Qed.

Lemma safe_raise {A} e (Q : A → Prop) : E e → safe I E (raise e) Q.
Proof. intros HE σ HI. by split. Qed.

Lemma safe_raise_any {A} e : E e → safe I E (@raise A e) (λ _, True).
Proof. apply safe_raise. Qed.

(** What is read from the state is read from a state where [I] holds. *)
Lemma safe_gets {A} (f : RunState → A) :
  safe I E (gets f) (λ a, ∃ σ, I σ ∧ a = f σ).
Proof. intros σ HI. split; [done|]. by exists σ. Qed.

Lemma safe_modify (f : RunState → RunState) :
  (∀ σ, I σ → I (f σ)) → safe I E (modify f) (λ _, True).
Proof. intros Hf σ HI. split; [by apply Hf | done]. Qed.

Lemma safe_call {A} ev (oracle : History → A) :
  (∀ σ, I σ → I (set_trace (λ t, t ++ [ev]) σ)) →
  safe I E (call ev oracle) (λ _, True).
Proof. intros Hf σ HI. split; [by apply Hf | done]. Qed.

Lemma safe_bind {A B} (m : M A) (k : A → M B) (Q1 : A → Prop) (Q2 : B → Prop) :
  safe I E m Q1 → (∀ a, Q1 a → safe I E (k a) Q2) → safe I E (bind m k) Q2.
Proof.
  intros Hm Hk σ HI. unfold bind. specialize (Hm σ HI).
  destruct (m σ) as [a σ1|e σ1]; [|done]. destruct Hm as [HI1 HQ].
  by apply Hk.
Qed.

Lemma safe_for_each {A} (l : list A) (body : A → M unit) :
  (∀ x, x ∈ l → safe I E (body x) (λ _, True)) →
  safe I E (for_each l body) (λ _, True).
Proof.
  induction l as [|x l IH]; intros Hb; simpl.
  - apply safe_ret_any.
  - eapply safe_bind; [apply Hb; by left|]. intros _ _. apply IH.
    intros y Hy. apply Hb. by right.
Qed.

Lemma safe_conseq {A} (m : M A) (Q Q' : A → Prop) :
  safe I E m Q → (∀ a, Q a → Q' a) → safe I E m Q'.
Proof.
  intros Hm HQ σ HI. specialize (Hm σ HI). destruct (m σ); [|done].
  destruct Hm. split; [done | by apply HQ].
Qed.

Lemma safe_any {A} (m : M A) (Q : A → Prop) :
  safe I E m Q → safe I E m (λ _, True).
Proof. intros Hm. by eapply safe_conseq. Qed.
End safe.

Lemma safe_final {A} I E (m : M A) Q σ : safe I E m Q → I σ → I (final (m σ)).
Proof. intros Hm HI. specialize (Hm σ HI). by destruct (m σ) as [a σ'|e σ']; destruct Hm. Qed.

(** Walks through a program as [rel_walk_with] does.  What is read from
    the state comes with the state it was read from; [leaf] closes the
    conditions on single steps and the branches that cannot be taken. *)
Ltac safe_walk_with leaf :=
  repeat first
    [ solve [leaf]
    | simple apply safe_ret_any | simple apply safe_gets
    | simple apply safe_raise_any
    | simple apply safe_modify | simple apply safe_call
    | simple eapply safe_bind
    | simple apply safe_for_each
    | match goal with
      | |- True => exact Logic.I
      | |- (∃ σ, _ ∧ _ = _) → _ => intros (? & ? & ->)
      | |- True → _ => intros _
      | |- ∀ _, _ => intros ?; cbv beta
      | |- safe _ _ (match ?x with _ => _ end) _ => destruct x eqn:?
      | |- safe _ _ (let _ := _ in _) _ => cbv zeta
      end ].

(** ** A run on exposures handed in by the caller *)

(** The standard star is worked on, or the flux stage is. *)
Definition is_standard_event (ev : Event) : bool :=
  match ev with
  | EvLoadFrames _ _ standard _ | EvReduce true _ _ _ => true
  | EvSensMaster _ _ _ | EvSensArchival _ | EvLoadSpecobj _
  | EvFluxScience _ _ | EvWriteScience _ => true
  | _ => false
  end.

Definition no_standards (σ : RunState) : Prop :=
  std_dict σ = [] ∧ Forall (λ ev, is_standard_event ev = false) (trace σ).

Lemma safe_Ok {A} I E (m : M A) Q σ a σ' :
  safe I E m Q → I σ → m σ = Ok a σ' → I σ' ∧ Q a.
Proof. intros Hm HI Hr. specialize (Hm σ HI). by rewrite Hr in Hm. Qed.

(** Each element of a loop that returns has had its turn, from a state
    where the invariant held. *)
Lemma for_each_turn {A} I E (l : list A) (body : A → M unit) σ σ' x :
  (∀ y, safe I E (body y) (λ _, True)) → I σ →
  for_each l body σ = Ok tt σ' → x ∈ l →
  ∃ σa σb, I σa ∧ body x σa = Ok tt σb.
Proof.
  intros Hb. revert σ. induction l as [|y l IH]; intros σ HI H Hin.
  - by apply elem_of_nil in Hin.
  - simpl in H. apply bind_inv_Ok in H as ([] & σm & Hy & H).
    apply elem_of_cons in Hin as [->|Hin].
    + by exists σ, σm.
    + eapply IH; [|exact H|exact Hin].
      exact (proj1 (safe_Ok _ _ _ _ _ _ _ (Hb y) HI Hy)).
Qed.

Ltac no_std_leaf :=
  first
    [ exact I
    | match goal with
      | |- ∀ σ, no_standards σ → no_standards _ =>
          let H := fresh in
          intros ? [H ?]; split; simpl;
          [ first [exact H | by rewrite H]
          | first [assumption | apply Forall_app; split; [assumption | by repeat constructor]] ]
      | H : no_standards ?σ, H' : context [std_dict ?σ] |- _ =>
          destruct H as [H _]; rewrite H in H'; simpl in H';
          first [ discriminate
                | apply andb_true_iff in H' as [_ H'];
                  first [ discriminate
                        | apply bool_decide_eq_true in H'; simpl in H'; lia ] ]
      end ].

Section Supplied.
Variable C : Collab.
Variable tbl : FitsTbl.
Variable cfg : Settings.
Variable reuseMaster : bool.

Lemma reduce_detector_no_standards sc slf det :
  safe no_standards (λ _, True) (reduce_detector C tbl cfg reuseMaster sc slf det)
    (λ _, True).
Proof. unfold_detector. safe_walk_with no_std_leaf. Qed.

Lemma reduce_exposure_no_standards sc :
  safe no_standards (λ _, True) (reduce_exposure C tbl cfg reuseMaster sc) (λ _, True).
Proof.
  unfold reduce_exposure, write_exposure, save_1d, emit.
  safe_walk_with ltac:(first [apply reduce_detector_no_standards | no_std_leaf]).
Qed.

Lemma ARMS_no_standards l :
  safe no_standards (λ _, True) (ARMS C tbl cfg reuseMaster (Some l)) (λ _, True).
Proof.
  unfold ARMS, init_sciexp, write_standards, flux_stage, build_sensfunc, flux_all,
    flux_one, save_1d, emit.
  safe_walk_with ltac:(first [apply reduce_exposure_no_standards | no_std_leaf]).
Qed.

(** Without an entry in [std_dict] a detector is got through only by an
    exposure that has no standard frame. *)
Lemma reduce_detector_returns_no_standard sc slf det σ σ' :
  no_standards σ → det_skipped cfg det = false →
  reduce_detector C tbl cfg reuseMaster sc slf det σ = Ok tt σ' →
  standard_rows tbl (sci_ID slf) = [].
Proof.
  intros HI Hskip. unfold reduce_detector. rewrite Hskip. cbv zeta. intros H.
  apply bind_inv_Ok in H as ([] & σ1 & H1 & H).
  eapply (safe_Ok no_standards (λ _, True)) in H1 as [HI1 _]; [|safe_walk_with no_std_leaf|done].
  apply bind_inv_Ok in H as ([] & σ2 & H2 & H).
  eapply (safe_Ok no_standards (λ _, True)) in H2 as [HI2 _];
    [|unfold init_calib; safe_walk_with no_std_leaf|done].
  apply bind_inv_Ok in H as (ms & σ3 & H3 & H).
  eapply (safe_Ok no_standards (λ _, True)) in H3 as [HI3 _];
    [|unfold_detector; safe_walk_with no_std_leaf|done].
  apply bind_inv_Ok in H as (sciframe & σ4 & H4 & H).
  eapply (safe_Ok no_standards (λ _, True)) in H4 as [HI4 _];
    [|unfold_detector; safe_walk_with no_std_leaf|done].
  apply bind_inv_Ok in H as ([] & σ5 & H5 & H).
  eapply (safe_Ok no_standards (λ _, True)) in H5 as [[Hd _] _];
    [|unfold_detector; safe_walk_with no_std_leaf|done].
  unfold reduce_standard in H. cbv zeta in H.
  destruct (standard_rows tbl (sci_ID slf)) as [|k rest]; [done|].
  unfold bind, modify, gets in H. simpl in H. rewrite Hd in H. done.
Qed.

Lemma reduce_exposure_returns_no_standard sc slf det σ σ' :
  no_standards σ → sciexp σ !! sc = Some (Some slf) →
  1 ≤ det ≤ ndet cfg → det_skipped cfg det = false →
  reduce_exposure C tbl cfg reuseMaster sc σ = Ok tt σ' →
  standard_rows tbl (sci_ID slf) = [].
Proof.
  intros HI Hsc Hdet Hskip. unfold reduce_exposure. unfold bind at 1, gets at 1.
  rewrite Hsc. intros H. apply bind_inv_Ok in H as ([] & σ1 & H1 & _).
  destruct (for_each_turn no_standards (λ _, True) _ _ _ _ det
              (reduce_detector_no_standards sc slf) HI H1) as (σa & σb & Ha & Hb).
  { apply elem_of_seq. lia. }
  by eapply reduce_detector_returns_no_standard.
Qed.

Lemma exposure_loop_turn I E n a σ σ' sc :
  (∀ sc, safe I E (reduce_exposure C tbl cfg reuseMaster sc) (λ _, True)) → I σ →
  for_each (seq a n) (reduce_exposure C tbl cfg reuseMaster) σ = Ok tt σ' →
  a ≤ sc < a + n →
  ∃ σa σb, I σa ∧ sciexp σa !! sc = sciexp σ !! sc ∧
           reduce_exposure C tbl cfg reuseMaster sc σa = Ok tt σb.
Proof.
  intros Hs. revert a σ. induction n as [|n IH]; intros a σ HI H Hsc; [lia|].
  simpl in H. apply bind_inv_Ok in H as ([] & σm & Ha & H).
  destruct (decide (sc = a)) as [->|Hne].
  - by exists σ, σm.
  - destruct (IH (S a) σm) as (σa & σb & HIa & Hsa & Hb); [|done|lia|].
    { exact (proj1 (safe_Ok _ _ _ _ _ _ _ (Hs a) HI Ha)). }
    exists σa, σb. split_and!; [done| |done].
    rewrite Hsa. eapply (rel_spec_Ok (later_same sc)); [|exact Ha|done].
    apply reduce_exposure_later_same. lia.
Qed.

End Supplied.

(** X2.  When the caller hands in the list of exposures, [std_dict] stays empty:
    no standard frame is loaded or reduced and the flux stage does not run,
    whatever the table and the settings say; and the run returns only if no
    exposure of the list has a standard frame on an instrument with a
    selected detector, since the look-up of the standard in [std_dict]
    fails otherwise. *)
Theorem supplied_exposures_have_no_standard
    C tbl cfg reuseMaster (l : list Exposure) h0 disk0 :
  let r := ARMS C tbl cfg reuseMaster (Some l) (init_state h0 disk0) in
  std_dict (final r) = [] ∧
  Forall (λ ev, is_standard_event ev = false) (trace (final r)) ∧
  ∀ s σ' e det, r = Ok s σ' → e ∈ l →
    1 ≤ det ≤ ndet cfg → det_skipped cfg det = false →
    standard_rows tbl (sci_ID e) = [].
Proof.
  intros r.
  assert (H0 : no_standards (init_state h0 disk0)) by (split; [done | constructor]).
  pose proof (safe_final _ _ _ _ _ (ARMS_no_standards C tbl cfg reuseMaster l) H0) as [Hd Ht].
  split_and!; [exact Hd | exact Ht |].
  intros s σ' e det Hr He Hdet Hskip. unfold r, ARMS in Hr. cbv zeta in Hr.
  unfold init_sciexp in Hr. unfold bind at 1, modify at 1 in Hr. simpl in Hr.
  unfold bind at 1, gets at 1 in Hr. simpl in Hr.
  apply bind_inv_Ok in Hr as ([] & σ2 & Hloop & _).
  apply list_elem_of_lookup in He as [sc Hsc].
  rewrite length_fmap in Hloop.
  assert (H1 : no_standards (set_sciexp (λ _, Some <$> l) (init_state h0 disk0)))
    by (split; [done | constructor]).
  destruct (exposure_loop_turn C tbl cfg reuseMaster no_standards (λ _, True)
              _ _ _ _ sc (reduce_exposure_no_standards C tbl cfg reuseMaster)
              H1 Hloop) as (σa & σb & HIa & Hsa & Hb).
  { apply lookup_lt_Some in Hsc. lia. }
  eapply (reduce_exposure_returns_no_standard C tbl cfg reuseMaster sc e det σa σb);
    try done.
  rewrite Hsa. simpl. by rewrite list_lookup_fmap, Hsc.
Qed.

(** ** The detectors a run works on *)

(** The detector an event is about. *)
Definition event_det (ev : Event) : option nat :=
  match ev with
  | EvResolve _ _ det | EvResolved _ _ det _ | EvBuild _ _ det _ _
  | EvSaveMaster _ _ det | EvMethod _ _ det _ | EvUpdateMasters _ det _ _
  | EvLoadFrames _ det _ _ | EvReduce _ _ det _ => Some det
  | _ => None
  end.

(** Detector [det] is one of the instrument's and is not left out by
    [detnum]. *)
Definition det_selected (cfg : Settings) (det : nat) : bool :=
  bool_decide (1 ≤ det ≤ ndet cfg) && negb (det_skipped cfg det).

Definition on_selected (cfg : Settings) (ev : Event) : bool :=
  match event_det ev with
  | Some det => det_selected cfg det
  | None => true
  end.

Definition trace_all (P : Event → bool) (σ : RunState) : Prop :=
  Forall (λ ev, P ev = true) (trace σ).

Lemma trace_all_call P ev σ :
  P ev = true → trace_all P σ → trace_all P (set_trace (λ t, t ++ [ev]) σ).
Proof. intros Hev H. apply Forall_app. split; [exact H | by repeat constructor]. Qed.

Ltac trace_all_leaf tac :=
  idtac;
  match goal with
  | |- ∀ σ, trace_all _ σ → trace_all _ (set_trace _ σ) =>
      intros ? ?; apply trace_all_call; [solve [tac] | assumption]
  | |- ∀ σ, trace_all _ σ → trace_all _ _ => intros ? ?; assumption
  end.

(** Setting up the exposures calls no collaborator. *)
Lemma init_loop_trace (Φ : History → Prop) E tbl ids i sv bn :
  safe (λ σ, Φ (trace σ)) E (init_loop tbl ids i sv bn) (λ _, True).
Proof.
  revert i sv bn. induction ids as [|sid ids IH]; intros i sv bn; simpl.
  - apply safe_ret_any.
  - safe_walk_with ltac:(first [apply IH | intros ? ?; assumption]).
Qed.

Section Selected.
Variable C : Collab.
Variable tbl : FitsTbl.
Variable cfg : Settings.
Variable reuseMaster : bool.

Lemma reduce_detector_on_selected sc slf det :
  1 ≤ det ≤ ndet cfg →
  safe (trace_all (on_selected cfg)) (λ _, True)
    (reduce_detector C tbl cfg reuseMaster sc slf det) (λ _, True).
Proof.
  intros Hdet. unfold reduce_detector.
  destruct (det_skipped cfg det) eqn:Hskip; [apply safe_ret_any|].
  assert (Hsel : det_selected cfg det = true).
  { unfold det_selected. by rewrite Hskip, bool_decide_eq_true_2. }
  unfold_detector.
  safe_walk_with ltac:(trace_all_leaf ltac:(first [reflexivity | exact Hsel])).
Qed.

Lemma ARMS_on_selected arg :
  safe (trace_all (on_selected cfg)) (λ _, True)
    (ARMS C tbl cfg reuseMaster arg) (λ _, True).
Proof.
  unfold ARMS, init_sciexp, reduce_exposure, write_exposure, write_standards,
    flux_stage, build_sensfunc, flux_all, flux_one, save_1d, emit.
  safe_walk_with ltac:(first
    [ simple apply reduce_detector_on_selected;
      match goal with H : _ ∈ seq _ _ |- _ => apply elem_of_seq in H; lia end
    | trace_all_leaf ltac:(reflexivity)
    | apply (init_loop_trace (Forall (λ ev, on_selected cfg ev = true))) ]).
Qed.

End Selected.

(** X3.  Every collaborator call that names a detector names one of the
    instrument's detectors, and one that [detnum] selects when it is given:
    nothing is built, loaded or reduced for a detector that is skipped. *)
Theorem only_selected_detectors C tbl cfg reuseMaster arg h0 disk0 ev det :
  ev ∈ trace (final (ARMS C tbl cfg reuseMaster arg (init_state h0 disk0))) →
  event_det ev = Some det →
  1 ≤ det ≤ ndet cfg ∧
  ∀ l, detnum cfg = Some l → det ∈ l.
Proof.
  intros Hev Hdet.
  assert (H0 : trace_all (on_selected cfg) (init_state h0 disk0)) by constructor.
  pose proof (safe_final _ _ _ _ _ (ARMS_on_selected C tbl cfg reuseMaster arg) H0) as H.
  unfold trace_all in H. rewrite list.Forall_forall in H.
  specialize (H ev Hev). unfold on_selected in H. rewrite Hdet in H.
  unfold det_selected in H. apply andb_true_iff in H as [H1 H2].
  apply bool_decide_eq_true in H1. split; [done|]. intros l Hl.
  unfold det_skipped in H2. rewrite Hl in H2.
  apply negb_true_iff, negb_false_iff, bool_decide_eq_true in H2. done.
Qed.



(** ** Masters handed on to later exposures *)

Definition is_update (ev : Event) : bool :=
  match ev with EvUpdateMasters _ _ _ _ => true | _ => false end.

Definition not_update (ev : Event) : bool := negb (is_update ev).

Lemma ARMS_not_update C tbl cfg arg :
  safe (trace_all not_update) (λ _, True) (ARMS C tbl cfg false arg) (λ _, True).
Proof.
  unfold ARMS, init_sciexp, reduce_exposure, write_exposure, write_standards,
    flux_stage, build_sensfunc, flux_all, flux_one, save_1d.
  unfold_detector.
  safe_walk_with ltac:(first
    [ trace_all_leaf ltac:(reflexivity)
    | apply (init_loop_trace (Forall (λ ev, not_update ev = true)))
    | match goal with
      | H : _ && false = true |- _ => rewrite andb_false_r in H; discriminate
      end ]).
Qed.

(** X4.  With [reuseMaster] left at [False] the driver never hands a master
    frame on to the exposures that follow: [UpdateMasters] is not called. *)
Theorem masters_not_handed_on C tbl cfg arg h0 disk0 ev :
  ev ∈ trace (final (ARMS C tbl cfg false arg (init_state h0 disk0))) →
  is_update ev = false.
Proof.
  intros Hev.
  assert (H0 : trace_all not_update (init_state h0 disk0)) by constructor.
  pose proof (safe_final _ _ _ _ _ (ARMS_not_update C tbl cfg arg) H0) as H.
  unfold trace_all in H. rewrite list.Forall_forall in H.
  specialize (H ev Hev). by apply negb_true_iff in H.
Qed.

(** ** Masters that are built are saved *)

(** The products the driver itself saves to the master store. *)
Definition saved_kind (K : Kind) : bool :=
  match K with Trace | Tilt => true | _ => false end.

Definition pending (ev : Event) : bool :=
  match ev with EvBuild K _ _ _ _ => saved_kind K | _ => false end.

(** Every build of such a product is followed at once by its save. *)
Definition saved_next (t : list Event) : Prop :=
  ∀ i K S det sid inputs, saved_kind K = true →
    t !! i = Some (EvBuild K S det sid inputs) →
    t !! (i + 1) = Some (EvSaveMaster K S det).

Lemma saved_next_nil : saved_next [].
Proof. intros i K S det sid inputs _ H. done. Qed.

Lemma saved_next_app (t1 t2 : list Event) : saved_next t1 → saved_next t2 → saved_next (t1 ++ t2).
Proof.
  intros H1 H2 i K S det sid inputs HK Hi.
  destruct (decide (i < length t1)) as [Hlt|Hge].
  - rewrite lookup_app_l in Hi by done. specialize (H1 _ _ _ _ _ _ HK Hi).
    apply lookup_app_l_Some. done.
  - rewrite lookup_app_r in Hi by lia. specialize (H2 _ _ _ _ _ _ HK Hi).
    rewrite lookup_app_r by lia. rewrite <- H2. f_equal. lia.
Qed.

Lemma saved_next_one ev : pending ev = false → saved_next [ev].
Proof.
  intros Hev i K S det sid inputs HK Hi. destruct i as [|i]; [|done].
  simpl in Hi. injection Hi as ->. simpl in Hev. congruence.
Qed.

Lemma saved_next_pair K S det sid inputs :
  saved_next [EvBuild K S det sid inputs; EvSaveMaster K S det].
Proof.
  intros i K' S' det' sid' inputs' HK Hi. destruct i as [|[|i]]; [|done|done].
  simpl in Hi. by injection Hi as -> -> -> _ _.
Qed.

Definition builds_saved (σ : RunState) : Prop := saved_next (trace σ).

(** A build whose continuation does nothing to the trace but log the save. *)
Lemma safe_build_save {A B} E K S det sid inputs (oracle : History → A) (k : A → M B) :
  (∀ a σ, ∃ b σ', k a σ = Ok b σ' ∧ trace σ' = trace σ ++ [EvSaveMaster K S det]) →
  safe builds_saved E (bind (call (EvBuild K S det sid inputs) oracle) k) (λ _, True).
Proof.
  intros Hk σ HI. unfold bind, call.
  destruct (Hk (oracle (trace σ)) (set_trace (λ t, t ++ [EvBuild K S det sid inputs]) σ))
    as (b & σ' & -> & Ht).
  split; [|done]. unfold builds_saved. rewrite Ht. simpl. rewrite <- app_assoc.
  apply saved_next_app; [exact HI | apply saved_next_pair].
Qed.

Ltac saved_leaf :=
  idtac;
  match goal with
  | |- ∀ σ, builds_saved σ → builds_saved (set_trace _ σ) =>
      intros ? ?; apply saved_next_app; [assumption | by apply saved_next_one]
  | |- ∀ σ, builds_saved σ → builds_saved _ => intros ? ?; assumption
  | |- safe builds_saved _ (bind (call (EvBuild _ _ _ _ _) _) _) _ =>
      apply safe_build_save; intros ? ?; eexists _, _; split; [reflexivity|];
      simpl; by rewrite <- ?app_assoc
  end.

Lemma ARMS_builds_saved C tbl cfg reuseMaster arg :
  safe builds_saved (λ _, True) (ARMS C tbl cfg reuseMaster arg) (λ _, True).
Proof.
  unfold ARMS, init_sciexp, reduce_exposure, write_exposure, write_standards,
    flux_stage, build_sensfunc, flux_all, flux_one, save_1d.
  unfold_detector.
  safe_walk_with ltac:(first [saved_leaf | apply (init_loop_trace saved_next)]).
Qed.

(** X5.  Whenever the driver has the slits traced or the tilts derived, the very
    next thing it asks of a collaborator is to save that product to the
    master store, for the same setup and detector. *)
Theorem built_masters_are_saved
    C tbl cfg reuseMaster arg h0 disk0 i K (S : Setup) det sid inputs :
  let t := trace (final (ARMS C tbl cfg reuseMaster arg (init_state h0 disk0))) in
  K = Trace ∨ K = Tilt →
  t !! i = Some (EvBuild K S det sid inputs) →
  t !! (i + 1) = Some (EvSaveMaster K S det).
Proof.
  intros t HK Hi.
  assert (H0 : builds_saved (init_state h0 disk0)) by apply saved_next_nil.
  pose proof (safe_final _ _ _ _ _ (ARMS_builds_saved C tbl cfg reuseMaster arg) H0) as H.
  apply (H i K S det sid inputs); [by destruct HK as [->| ->] | exact Hi].
Qed.

(** ** The flux stage with an archival sensitivity function *)

(** X7.  When the settings name an archival file, the sensitivity function is
    read from it: the spectra of the standards are not looked at (though a
    standard must be assigned for the stage to run at all), the name
    [setup] is not needed, and every science file is read, fluxed with the
    archival function and written back. *)
Theorem flux_from_archival_file C cfg ids basenames σ :
  calibrate_flux cfg = true → sensfunc_archival cfg ≠ "None"%string →
  std_dict σ ≠ [] → length ids = length basenames →
  (∀ bn, bn ∈ basenames → is_Some (disk σ !! spec1d_file cfg bn)) →
  let sensfunc := sens_archival C (trace σ) (sensfunc_archival cfg) in
  ∃ σ', flux_stage C cfg (Some ids) basenames σ = Ok tt σ' ∧
    trace σ' = trace σ ++ EvSensArchival (sensfunc_archival cfg) ::
                 flux_events cfg sensfunc basenames ∧
    disk σ' = flux_disk C cfg sensfunc basenames (disk σ) ∧
    heap σ' = heap σ ∧ std_dict σ' = std_dict σ.
Proof.
  intros Hf Ha Hd Hlen Hfiles sensfunc.
  rewrite flux_stage_eq, Hf.
  destruct (std_dict σ) as [|p d] eqn:Ed; [done|]. simpl.
  erewrite bind_Ok; [|by apply build_sensfunc_archival].
  fold sensfunc. unfold flux_all. rewrite Hlen.
  destruct (flux_loop C cfg sensfunc [] basenames
    (set_trace (λ t, t ++ [EvSensArchival (sensfunc_archival cfg)]) σ) Hfiles)
    as (σ' & Hrun & Ht & Hk).
  simpl in Hrun, Ht, Hk. exists σ'.
  assert (Hsame : rel_spec (same (λ σ, (heap σ, std_dict σ)))
            (for_each (seq 0 (length basenames)) (flux_one C cfg sensfunc basenames))).
  { unfold flux_one, emit. same_walk. }
  pose proof (rel_spec_Ok _ _ _ _ _ Hsame Hrun) as Hs. unfold same in Hs. simpl in Hs.
  injection Hs as Hh Hsd.
  split_and!; [done | | done | done | by rewrite Hsd, Ed].
  rewrite Ht. by rewrite <- app_assoc.
Qed.

(** ** Writing the standards *)

(** What the loop on [std_dict] asks the writer for: the spectra of each
    standard, under the file name of the standard, with one and the same
    header row [hdr]. *)
Definition standard_writes (cfg : Settings) (h : Heap) (hdr : PyIdx)
    (d : list (nat * Exposure)) : History :=
  map (λ p, EvSave1d (spec1d_file cfg (basename p.2))
                     (attr_list h p.2 a_specobjs (ndet cfg)) hdr) d.

(** The body of the loop on [std_dict], lines 331-334. *)
Definition write_standard (C : Collab) (cfg : Settings) (p : nat * Exposure) : M unit :=
  h <- gets heap ;;
  hdr <- gets std_idx_var ;;
  match hdr with
  | None => raise NameError
  | Some i => save_1d C (spec1d_file cfg (basename p.2))
                      (attr_list h p.2 a_specobjs (ndet cfg)) i
  end.

Lemma write_standard_eq C cfg hdr p σ :
  std_idx_var σ = Some hdr →
  let ev := EvSave1d (spec1d_file cfg (basename p.2))
                     (attr_list (heap σ) p.2 a_specobjs (ndet cfg)) hdr in
  write_standard C cfg p σ =
  if save_1d_spectra_fits C (trace σ) (spec1d_file cfg (basename p.2))
  then Ok tt (set_disk <[spec1d_file cfg (basename p.2) :=
                          attr_list (heap σ) p.2 a_specobjs (ndet cfg)]>
               (set_trace (λ t, t ++ [ev]) σ))
  else Raise WriteFailure (set_trace (λ t, t ++ [ev]) σ).
Proof.
  intros Hhdr ev. unfold write_standard, save_1d. unfold bind, gets, call, modify.
  simpl. rewrite Hhdr. simpl. by destruct (save_1d_spectra_fits C _ _).
Qed.

Lemma write_standards_loop C cfg hdr (d : list (nat * Exposure)) σ :
  std_idx_var σ = Some hdr →
  ∃ n, n ≤ length d ∧
    trace (final (for_each d (write_standard C cfg) σ)) =
      trace σ ++ standard_writes cfg (heap σ) hdr (take n d) ∧
    match for_each d (write_standard C cfg) σ with
    | Ok _ _ => n = length d
    | Raise e _ => e = WriteFailure
    end.
Proof.
  revert σ. induction d as [|p d IH]; intros σ Hhdr.
  - exists 0. simpl. by rewrite app_nil_r.
  - simpl. unfold bind. rewrite (write_standard_eq C cfg hdr p σ Hhdr). cbv zeta.
    destruct (save_1d_spectra_fits C (trace σ) _) eqn:Es.
    + match goal with |- context [for_each d _ ?σ1] =>
        destruct (IH σ1 Hhdr) as (n & Hn & Ht & Hr) end.
      exists (S n). split; [simpl; lia|]. split.
      * rewrite Ht. simpl. by rewrite <- app_assoc.
      * destruct (for_each d _ _); [by rewrite Hr | done].
    + exists 1. simpl. split; [lia|]. split; [|done]. by destruct d.
Qed.

(** X6.  The standards are written in the order of [std_dict], up to the first
    write that fails; and each of them is written with the header row that
    the name [std_idx] was last bound to, not with its own row. *)
Theorem standards_written_with_leftover_index C cfg σ hdr :
  std_idx_var σ = Some hdr →
  ∃ n, n ≤ length (std_dict σ) ∧
    trace (final (write_standards C cfg σ)) =
      trace σ ++ standard_writes cfg (heap σ) hdr (take n (std_dict σ)) ∧
    match write_standards C cfg σ with
    | Ok _ _ => n = length (std_dict σ)
    | Raise e _ => e = WriteFailure
    end.
Proof.
  intros Hhdr. exact (write_standards_loop C cfg hdr (std_dict σ) σ Hhdr).
Qed.

(** ** Setting up the exposures *)

(** The science exposure built for the science ID [sid], the [i]-th of the
    table, and the standard exposure built for table row [k] on behalf of
    [sid]. *)
Definition new_exposure (tbl : FitsTbl) (i sid : nat) : Exposure :=
  ScienceExposure (SciObj i) sid (science_row tbl sid)
    (row_basename tbl (science_row tbl sid)).

Definition new_standard (tbl : FitsTbl) (sid k : nat) : Exposure :=
  ScienceExposure (StdObj k) sid k (row_basename tbl k).

(** What one science ID adds to [std_dict]. *)
Definition add_standard (tbl : FitsTbl) (d : list (nat * Exposure)) (sid : nat)
    : list (nat * Exposure) :=
  match standard_rows tbl sid with
  | k :: _ => if bool_decide (k ∈ d.*1) then d else d ++ [(k, new_standard tbl sid k)]
  | [] => d
  end.

Lemma dict_set_fresh {A} k (v : A) (d : list (nat * A)) :
  k ∉ d.*1 → dict_set k v d = d ++ [(k, v)].
Proof.
  induction d as [|[k' v'] d IH]; intros Hk; simpl; [done|].
  rewrite fmap_cons in Hk. apply not_elem_of_cons in Hk as [Hne Hk]. simpl in Hne.
  rewrite decide_False by done. by rewrite IH.
Qed.

Lemma init_loop_spec tbl ids i sv bn σ :
  sv = (std_dict σ).*1 →
  ∃ σ', init_loop tbl ids i sv bn σ =
          Ok (bn ++ map (λ sid, row_basename tbl (science_row tbl sid)) ids) σ' ∧
    sciexp σ' = sciexp σ ++ imap (λ j sid, Some (new_exposure tbl (i + j) sid)) ids ∧
    std_dict σ' = foldl (add_standard tbl) (std_dict σ) ids ∧
    trace σ' = trace σ ∧ calib_dict σ' = calib_dict σ ∧ disk σ' = disk σ ∧
    setup_var σ' = setup_var σ ∧
    (ids ≠ [] → is_Some (std_idx_var σ')).
Proof.
  revert i sv bn σ. induction ids as [|sid ids IH]; intros i sv bn σ Hsv.
  - exists σ. simpl. rewrite !app_nil_r. by split_and!.
  - cbn [init_loop]. cbv zeta. unfold bind at 1, modify at 1.
    unfold bind at 1, modify at 1. unfold bind at 1, modify at 1.
    unfold bind at 1.
    set (σa := set_std_idx_var _ _).
    assert (Hstep : ∃ σb,
      (match standard_rows tbl sid with
       | [] => ret sv
       | k :: _ =>
           if bool_decide (k ∈ sv) then ret sv
           else bind (modify (set_heap (alloc (StdObj k))))
                  (λ _, bind (modify (set_std_dict
                     (dict_set k (ScienceExposure (StdObj k) sid k (row_basename tbl k)))))
                     (λ _, ret (sv ++ [k])))
       end) σa = Ok ((add_standard tbl (std_dict σ) sid).*1) σb ∧
      std_dict σb = add_standard tbl (std_dict σ) sid ∧
      sciexp σb = sciexp σ ++ [Some (new_exposure tbl i sid)] ∧
      trace σb = trace σ ∧ calib_dict σb = calib_dict σ ∧ disk σb = disk σ ∧
      setup_var σb = setup_var σ ∧ is_Some (std_idx_var σb)).
    { unfold add_standard. destruct (standard_rows tbl sid) as [|k rest].
      - exists σa. subst sv. by split_and!.
      - subst sv. case_bool_decide as Hk.
        + exists σa. by split_and!.
        + eexists. unfold bind, modify, ret. rewrite fmap_app.
          split; [reflexivity|]. split_and!; try done.
          simpl. by apply dict_set_fresh. }
    destruct Hstep as (σb & -> & Hd & Hs & Ht & Hc & Hk & Hv & Hi).
    destruct (IH (S i) ((add_standard tbl (std_dict σ) sid).*1) (bn ++ [basename (ScienceExposure (SciObj i) sid
                  (science_row tbl sid) (row_basename tbl (science_row tbl sid)))]) σb)
      as (σ' & Hrun & Hs' & Hd' & Ht' & Hc' & Hk' & Hv' & Hi').
    { by rewrite Hd. }
    exists σ'. rewrite Hrun. split_and!.
    + f_equal. simpl. by rewrite <- app_assoc.
    + rewrite Hs', Hs, <- app_assoc. simpl. f_equal. f_equal.
      * unfold new_exposure. by rewrite Nat.add_0_r.
      * apply imap_ext. intros j x _. simpl. f_equal. f_equal. lia.
    + by rewrite Hd', Hd.
    + by rewrite Ht'.
    + by rewrite Hc'.
    + by rewrite Hk'.
    + by rewrite Hv'.
    + intros _. destruct ids as [|sid' ids'].
      * simpl in Hrun. injection Hrun as _ <-. exact Hi.
      * by apply Hi'.
Qed.

Lemma add_standard_keys tbl d sid :
  (add_standard tbl d sid).*1 =
  match head (standard_rows tbl sid) with
  | Some k => if bool_decide (k ∈ d.*1) then d.*1 else d.*1 ++ [k]
  | None => d.*1
  end.
Proof.
  unfold add_standard. destruct (standard_rows tbl sid) as [|k rest]; simpl; [done|].
  case_bool_decide; [done|]. by rewrite fmap_app.
Qed.

Lemma add_standard_keys_mono tbl d sid k :
  k ∈ d.*1 → k ∈ (add_standard tbl d sid).*1.
Proof.
  intros Hk. rewrite add_standard_keys. destruct (head (standard_rows tbl sid)); [|done].
  case_bool_decide; [done|]. apply elem_of_app. by left.
Qed.

Lemma standards_spec tbl ids d :
  NoDup d.*1 →
  let d' := foldl (add_standard tbl) d ids in
  NoDup d'.*1 ∧
  (∀ k, k ∈ d'.*1 ↔
        k ∈ d.*1 ∨ ∃ sid, sid ∈ ids ∧ head (standard_rows tbl sid) = Some k) ∧
  (∀ k x, (k, x) ∈ d' →
        (k, x) ∈ d ∨
        (k ∉ d.*1) ∧
        ∃ pre sid post, ids = pre ++ sid :: post ∧
          head (standard_rows tbl sid) = Some k ∧
          (∀ s, s ∈ pre → head (standard_rows tbl s) ≠ Some k) ∧
          x = new_standard tbl sid k).
Proof.
  revert d. induction ids as [|sid ids IH]; intros d Hnd; simpl.
  - split_and!; [done | | by left]. intros k. split; [by left|].
    intros [H|(sid & H & _)]; [done | by apply elem_of_nil in H].
  - assert (Hnd' : NoDup (add_standard tbl d sid).*1).
    { rewrite add_standard_keys. destruct (head (standard_rows tbl sid)) as [k|]; [|done].
      case_bool_decide as Hk; [done|]. apply list.NoDup_app. split_and!; [done | |].
      - intros x Hx ->%list_elem_of_singleton. done.
      - apply NoDup_singleton. }
    destruct (IH _ Hnd') as (H1 & H2 & H3). split_and!; [done | |].
    + intros k. rewrite H2, add_standard_keys.
      destruct (head (standard_rows tbl sid)) as [k0|] eqn:Eh.
      * case_bool_decide as Hk.
        -- split.
           ++ intros [H|(s & Hs & Hh)]; [by left|]. right. exists s. split; [by right | done].
           ++ intros [H|(s & Hs & Hh)]; [by left|].
              apply elem_of_cons in Hs as [->|Hs].
              ** left. congruence.
              ** right. by exists s.
        -- rewrite elem_of_app, list_elem_of_singleton. split.
           ++ intros [[H| ->]|(s & Hs & Hh)]; [by left | |].
              ** right. exists sid. split; [by left | done].
              ** right. exists s. split; [by right | done].
           ++ intros [H|(s & Hs & Hh)]; [left; by left|].
              apply elem_of_cons in Hs as [->|Hs].
              ** left. right. congruence.
              ** right. by exists s.
      * split.
        -- intros [H|(s & Hs & Hh)]; [by left|]. right. exists s. split; [by right | done].
        -- intros [H|(s & Hs & Hh)]; [by left|].
           apply elem_of_cons in Hs as [->|Hs]; [congruence|]. right. by exists s.
    + intros k x Hin.
      apply H3 in Hin as [Hin|(Hout & pre & s & post & -> & Hh & Hpre & ->)].
      * unfold add_standard in Hin.
        destruct (standard_rows tbl sid) as [|k0 rest] eqn:Er; [by left|].
        case_bool_decide as Hk; [by left|].
        apply elem_of_app in Hin as [Hin|Hin]; [by left|].
        apply list_elem_of_singleton in Hin. injection Hin as -> ->.
        right. split; [done|].
        exists [], sid, ids. split_and!; [done | by rewrite Er | | done].
        intros s Hs. by apply elem_of_nil in Hs.
      * right. split.
        { intros Hk. apply Hout. by apply add_standard_keys_mono. }
        exists (sid :: pre), s, post. split_and!; [done | done | | done].
        intros s' Hs'. apply elem_of_cons in Hs' as [->|Hs']; [|by apply Hpre].
        intros Heq. apply Hout. rewrite add_standard_keys, Heq.
        case_bool_decide; [done|]. apply elem_of_app. right.
        by apply list_elem_of_singleton.
Qed.

Lemma dict_get_elem_of {A} k (x : A) (d : list (nat * A)) :
  dict_get k d = Some x → (k, x) ∈ d.
Proof.
  induction d as [|[k' v] d IH]; simpl; [done|].
  case_decide as Hk; [intros [= ->]; subst; by left | intros H; right; by apply IH].
Qed.

Lemma dict_get_is_Some {A} k (d : list (nat * A)) :
  is_Some (dict_get k d) ↔ k ∈ d.*1.
Proof.
  induction d as [|[k' v] d IH].
  - simpl. split; [by intros [? ?] | by intros ?%elem_of_nil].
  - rewrite fmap_cons, elem_of_cons. simpl. case_decide as Hk.
    + split; [intros _; by left | by eexists].
    + rewrite IH. split; [by right | intros [->|H]; done].
Qed.

(** X1.  Lines 57-77.  When the caller hands in no list, the driver builds one
    science exposure per science ID of the table, in the order of the table,
    and notes their base names in the same order.  [std_dict] gets one
    standard exposure per table row that is the first standard of some
    science ID: a row that several science IDs point at is entered once,
    on behalf of the first of them.  No collaborator is called, the
    calibration cache is empty and the disk is as it was. *)
Theorem exposures_set_up_from_table tbl h0 disk0 :
  let ids := tbl_sci_IDs tbl in
  ∃ σ1, init_sciexp tbl None (init_state h0 disk0) =
          Ok (Some ids, map (λ sid, row_basename tbl (science_row tbl sid)) ids) σ1 ∧
    sciexp σ1 = imap (λ i sid, Some (new_exposure tbl i sid)) ids ∧
    NoDup (std_dict σ1).*1 ∧
    (∀ k, k ∈ (std_dict σ1).*1 ↔
          ∃ sid, sid ∈ ids ∧ head (standard_rows tbl sid) = Some k) ∧
    (∀ k x, dict_get k (std_dict σ1) = Some x →
          ∃ pre sid post, ids = pre ++ sid :: post ∧
            head (standard_rows tbl sid) = Some k ∧
            (∀ s, s ∈ pre → head (standard_rows tbl s) ≠ Some k) ∧
            x = new_standard tbl sid k) ∧
    trace σ1 = [] ∧ calib_dict σ1 = ∅ ∧ disk σ1 = disk0.
Proof.
  intros ids. unfold init_sciexp.
  destruct (init_loop_spec tbl ids 0 [] [] (init_state h0 disk0) eq_refl)
    as (σ1 & Hrun & Hs & Hd & Ht & Hc & Hk & _ & _).
  exists σ1. unfold bind. fold ids. rewrite Hrun. simpl in *.
  destruct (standards_spec tbl ids [] ltac:(constructor)) as (H1 & H2 & H3).
  rewrite Hd. split_and!; try done.
  - intros k. rewrite H2. split; [|by right]. intros [H|H]; [by apply elem_of_nil in H | done].
  - intros k x Hx. apply dict_get_elem_of in Hx.
    apply H3 in Hx as [Hx|(_ & Hx)]; [by apply elem_of_nil in Hx | done].
Qed.

(** ** Exposures are released once they are written *)

Section Release.
Variable C : Collab.
Variable tbl : FitsTbl.
Variable cfg : Settings.
Variable reuseMaster : bool.

Lemma reduce_detector_same_sciexp sc slf det :
  rel_spec (same sciexp) (reduce_detector C tbl cfg reuseMaster sc slf det).
Proof. unfold_detector. same_walk. Qed.

Lemma write_exposure_same_sciexp slf :
  rel_spec (same sciexp) (write_exposure C cfg slf).
Proof. unfold write_exposure, save_1d, emit. same_walk. Qed.

Lemma after_loop_same_sciexp ids basenames :
  rel_spec (same sciexp) (write_standards C cfg ;;; flux_stage C cfg ids basenames).
Proof.
  unfold write_standards, flux_stage, build_sensfunc, flux_all, flux_one, save_1d, emit.
  same_walk.
Qed.

(** Line 328: [sciexp[sc] = None], and nothing else happens to the list. *)
Lemma reduce_exposure_releases sc σ σ' :
  reduce_exposure C tbl cfg reuseMaster sc σ = Ok tt σ' →
  sciexp σ' = <[sc := None]> (sciexp σ).
Proof.
  unfold reduce_exposure. unfold bind at 1, gets at 1.
  destruct (sciexp σ !! sc) as [[slf|]|]; [|done|done]. intros H.
  apply bind_inv_Ok in H as ([] & σ1 & H1 & H).
  apply bind_inv_Ok in H as ([] & σ2 & H2 & H). injection H as <-. simpl.
  assert (Hs1 : sciexp σ1 = sciexp σ).
  { eapply (rel_spec_Ok (same sciexp)); [|exact H1].
    apply rel_for_each; [apply _|]. intros det. apply reduce_detector_same_sciexp. }
  assert (Hs2 : sciexp σ2 = sciexp σ1).
  { eapply (rel_spec_Ok (same sciexp)); [|exact H2]. apply write_exposure_same_sciexp. }
  by rewrite Hs2, Hs1.
Qed.

Lemma exposure_loop_releases n a σ σ' j :
  for_each (seq a n) (reduce_exposure C tbl cfg reuseMaster) σ = Ok tt σ' →
  sciexp σ' !! j =
  if decide (a ≤ j < a + n) then (λ _, None) <$> sciexp σ !! j else sciexp σ !! j.
Proof.
  revert a σ. induction n as [|n IH]; intros a σ H.
  - simpl in H. injection H as <-. by rewrite decide_False by lia.
  - simpl in H. apply bind_inv_Ok in H as ([] & σm & Ha & H).
    apply reduce_exposure_releases in Ha. rewrite (IH _ _ H), Ha.
    rewrite list_lookup_insert. destruct (decide (j = a)) as [->|Hne].
    + rewrite (decide_False (P := S a ≤ a < _)) by lia.
      rewrite (decide_True (P := a ≤ a < _)) by lia.
      case_decide as Hc.
      * destruct (lookup_lt_is_Some_2 (sciexp σ) a) as [x ->]; [lia | done].
      * rewrite lookup_ge_None_2; [done|]. lia.
    + rewrite (decide_False (P := a = j ∧ _)) by lia.
      destruct (decide (S a ≤ j < S a + n)).
      * rewrite decide_True by lia. done.
      * rewrite decide_False by lia. done.
Qed.
End Release.

(** X15.  A run that returns has released every exposure of its list: each entry
    of [sciexp] has been replaced by [None] (line 328), and the list has
    kept its length. *)
Theorem exposures_released C tbl cfg reuseMaster arg σ0 s σ' :
  ARMS C tbl cfg reuseMaster arg σ0 = Ok s σ' →
  ∃ names σ1, init_sciexp tbl arg σ0 = Ok names σ1 ∧
    sciexp σ' = replicate (length (sciexp σ1)) None.
Proof.
  unfold ARMS. cbv zeta. intros H.
  apply bind_inv_Ok in H as (names & σ1 & Hinit & H).
  apply bind_inv_Ok in H as (numsci & σ1' & Hn & H). injection Hn as <- <-.
  apply bind_inv_Ok in H as ([] & σ2 & Hloop & H).
  exists names, σ1. split; [done|].
  assert (Hs : sciexp σ' = sciexp σ2).
  { pose proof (after_loop_same_sciexp C cfg names.1 names.2 σ2) as Hsame.
    unfold same in Hsame. rewrite <- Hsame. clear Hsame.
    unfold bind in *. destruct (write_standards C cfg σ2) as [[] σ3|]; [|done]. simpl.
    destruct (flux_stage C cfg names.1 names.2 σ3) as [[] σ4|]; [|done].
    by injection H as _ <-. }
  rewrite Hs. apply list_eq. intros j.
  rewrite (exposure_loop_releases C tbl cfg reuseMaster _ _ _ _ j Hloop).
  destruct (decide (0 ≤ j < 0 + length (sciexp σ1))) as [Hj|Hj].
  - destruct (lookup_lt_is_Some_2 (sciexp σ1) j) as [x ->]; [lia|]. simpl.
    symmetry. apply lookup_replicate. split; [done | lia].
  - rewrite lookup_ge_None_2 by lia. symmetry. apply lookup_replicate_None. lia.
Qed.

(** ** The order in which science frames are reduced and written *)

(** The science frame of a table row is reduced on a detector; the images
    of a table row are written (the last of the writes of lines 309-326). *)
Inductive Step := Reduced (row det : nat) | Written (row : nat).

Definition step_of (ev : Event) : option Step :=
  match ev with
  | EvReduce false row det _ => Some (Reduced row det)
  | EvSave2d row => Some (Written row)
  | _ => None
  end.

Definition steps (evs : History) : list Step := omap step_of evs.

Definition no_step (ev : Event) : bool :=
  match step_of ev with Some _ => false | None => true end.

(** [m] goes through the steps [L], or through the first of them when it
    raises. *)
Definition runs_steps {A} (m : M A) (L : list Step) : Prop :=
  ∀ σ, ∃ evs, trace (final (m σ)) = trace σ ++ evs ∧
    match m σ with
    | Ok _ _ => steps evs = L
    | Raise _ _ => steps evs `prefix_of` L
    end.

Lemma steps_app e1 e2 : steps (e1 ++ e2) = steps e1 ++ steps e2.
Proof. unfold steps. apply omap_app. Qed.

Lemma steps_no_step evs : Forall (λ ev, no_step ev = true) evs → steps evs = [].
Proof.
  induction 1 as [|ev evs Hev _ IH]; [done|]. unfold steps in *. simpl.
  unfold no_step in Hev. destruct (step_of ev); [done|]. exact IH.
Qed.

Lemma runs_steps_quiet {A} (m : M A) L :
  rel_spec (emits_only no_step) m → L = [] → runs_steps m L.
Proof.
  intros Hm -> σ. destruct (Hm σ) as (evs & Ht & Hu). exists evs.
  split; [done|]. rewrite (steps_no_step _ Hu). by destruct (m σ).
Qed.

Lemma runs_steps_bind {A B} (m : M A) (k : A → M B) L1 L2 L :
  runs_steps m L1 → (∀ a, runs_steps (k a) L2) → L = L1 ++ L2 →
  runs_steps (bind m k) L.
Proof.
  intros Hm Hk -> σ. unfold bind. destruct (Hm σ) as (e1 & Ht1 & H1).
  destruct (m σ) as [a σ1|e σ1]; simpl in *.
  - destruct (Hk a σ1) as (e2 & Ht2 & H2). exists (e1 ++ e2).
    split; [by rewrite Ht2, Ht1, app_assoc|]. rewrite steps_app, H1.
    destruct (k a σ1); [by rewrite H2 | by apply prefix_app].
  - exists e1. split; [done|]. by apply prefix_app_r.
Qed.

Lemma runs_steps_call {A} ev (oracle : History → A) L :
  L = steps [ev] → runs_steps (call ev oracle) L.
Proof. intros -> σ. exists [ev]. by split. Qed.

Lemma runs_steps_ret {A} (a : A) L : L = [] → runs_steps (ret a) L.
Proof. intros -> σ. exists []. split; [by rewrite app_nil_r | done]. Qed.

Lemma runs_steps_for_each {A} (l : list A) (body : A → M unit) (Lf : A → list Step) :
  (∀ x, runs_steps (body x) (Lf x)) →
  runs_steps (for_each l body) (l ≫= Lf).
Proof.
  intros Hb. induction l as [|x l IH]; simpl.
  - by apply runs_steps_ret.
  - eapply runs_steps_bind; [apply Hb | intros _; apply IH | done].
Qed.

Section DriverSteps.
Variable C : Collab.
Variable tbl : FitsTbl.
Variable cfg : Settings.
Variable reuseMaster : bool.

Lemma runs_steps_reduce_detector sc slf det :
  runs_steps (reduce_detector C tbl cfg reuseMaster sc slf det)
    (if det_skipped cfg det then [] else [Reduced (idx_sci slf) det]).
Proof.
  unfold reduce_detector. destruct (det_skipped cfg det).
  { by apply runs_steps_ret. }
  cbv zeta.
  eapply runs_steps_bind;
    [apply runs_steps_quiet; [only_walk | reflexivity] | intros _ | reflexivity].
  eapply runs_steps_bind;
    [apply runs_steps_quiet; [unfold init_calib; only_walk | reflexivity]
    | intros _ | reflexivity].
  eapply runs_steps_bind;
    [apply runs_steps_quiet; [unfold_detector; only_walk | reflexivity]
    | intros ms | reflexivity].
  eapply runs_steps_bind;
    [apply runs_steps_quiet; [unfold_detector; only_walk | reflexivity]
    | intros sciframe | reflexivity].
  eapply (runs_steps_bind _ _ [Reduced (idx_sci slf) det] []); [| intros _ | reflexivity].
  { unfold reduce.
    eapply runs_steps_bind;
      [apply runs_steps_quiet; [unfold the_view; only_walk | reflexivity]
      | intros vw | reflexivity].
    eapply runs_steps_bind; [by apply runs_steps_call | intros spec | reflexivity].
    apply runs_steps_quiet; [unfold SetFrame; only_walk | reflexivity]. }
  apply runs_steps_quiet; [|reflexivity]. unfold_detector. only_walk.
Qed.

Lemma runs_steps_write_exposure slf :
  runs_steps (write_exposure C cfg slf) [Written (idx_sci slf)].
Proof.
  unfold write_exposure.
  eapply runs_steps_bind;
    [apply runs_steps_quiet; [only_walk | reflexivity] | intros h | reflexivity].
  eapply runs_steps_bind;
    [apply runs_steps_quiet; [unfold save_1d; only_walk | reflexivity]
    | intros _ | reflexivity].
  eapply runs_steps_bind;
    [apply runs_steps_quiet; [unfold emit; only_walk | reflexivity]
    | intros _ | reflexivity].
  unfold emit. by apply runs_steps_call.
Qed.

(** The detectors that are worked on, in the order of the loop. *)
Definition selected_dets : list nat :=
  List.filter (λ det, negb (det_skipped cfg det)) (seq 1 (ndet cfg)).

(** What becomes of one exposure. *)
Definition exposure_steps (row : nat) : list Step :=
  map (Reduced row) selected_dets ++ [Written row].

Lemma selected_dets_steps row (l : list nat) :
  (l ≫= λ det, if det_skipped cfg det then [] else [Reduced row det]) =
  map (Reduced row) (List.filter (λ det, negb (det_skipped cfg det)) l).
Proof.
  induction l as [|det l IH]; [done|]. rewrite bind_cons, IH. simpl.
  by destruct (det_skipped cfg det).
Qed.

Lemma runs_steps_exposure sc slf :
  runs_steps (for_each (seq 1 (ndet cfg)) (reduce_detector C tbl cfg reuseMaster sc slf) ;;;
              write_exposure C cfg slf ;;;
              modify (set_sciexp <[sc := None]>))
    (exposure_steps (idx_sci slf)).
Proof.
  eapply runs_steps_bind;
    [apply (runs_steps_for_each _ _
       (λ det, if det_skipped cfg det then [] else [Reduced (idx_sci slf) det]));
     intros det; apply runs_steps_reduce_detector
    | intros _ | unfold exposure_steps, selected_dets; by rewrite selected_dets_steps].
  eapply runs_steps_bind; [apply runs_steps_write_exposure | intros _ | reflexivity].
  apply runs_steps_quiet; [only_walk | reflexivity].
Qed.

(** The loop on the exposures [es] that are still in the list. *)
Lemma exposure_loop_steps (es : list Exposure) a σ :
  (∀ j e, es !! j = Some e → sciexp σ !! (a + j) = Some (Some e)) →
  ∃ evs, trace (final (for_each (seq a (length es))
                         (reduce_exposure C tbl cfg reuseMaster) σ)) = trace σ ++ evs ∧
    match for_each (seq a (length es)) (reduce_exposure C tbl cfg reuseMaster) σ with
    | Ok _ _ => steps evs = es ≫= λ e, exposure_steps (idx_sci e)
    | Raise _ _ => steps evs `prefix_of` (es ≫= λ e, exposure_steps (idx_sci e))
    end.
Proof.
  revert a σ. induction es as [|e es IH]; intros a σ Hes.
  - exists []. simpl. by rewrite app_nil_r.
  - assert (Hloop : for_each (seq a (length (e :: es)))
                      (reduce_exposure C tbl cfg reuseMaster) σ =
              match reduce_exposure C tbl cfg reuseMaster a σ with
              | Ok _ σm => for_each (seq (S a) (length es))
                             (reduce_exposure C tbl cfg reuseMaster) σm
              | Raise ex σm => Raise ex σm
              end) by reflexivity.
    rewrite Hloop. clear Hloop. rewrite bind_cons.
    assert (Ha : reduce_exposure C tbl cfg reuseMaster a σ =
      (for_each (seq 1 (ndet cfg)) (reduce_detector C tbl cfg reuseMaster a e) ;;;
       write_exposure C cfg e ;;; modify (set_sciexp <[a := None]>)) σ).
    { unfold reduce_exposure. unfold bind at 1, gets at 1.
      specialize (Hes 0 e eq_refl). rewrite Nat.add_0_r in Hes. by rewrite Hes. }
    destruct (runs_steps_exposure a e σ) as (e1 & Ht1 & H1). rewrite <- Ha in Ht1, H1.
    clear Ha.
    destruct (reduce_exposure C tbl cfg reuseMaster a σ) as [[] σm|ex σm] eqn:Em.
    + destruct (IH (S a) σm) as (e2 & Ht2 & H2).
      { intros j e' Hj. replace (S a + j) with (a + S j) by lia.
        rewrite <- (Hes (S j) e' Hj).
        eapply (rel_spec_Ok (later_same (S a))); [|exact Em|lia].
        apply reduce_exposure_later_same. lia. }
      exists (e1 ++ e2). simpl in Ht1. split; [by rewrite Ht2, Ht1, app_assoc|].
      rewrite steps_app, H1.
      destruct (for_each _ _ σm); [f_equal; exact H2 | apply prefix_app; exact H2].
    + exists e1. split; [done|]. by apply prefix_app_r.
Qed.

Lemma after_loop_quiet ids basenames :
  rel_spec (emits_only no_step)
    (write_standards C cfg ;;; flux_stage C cfg ids basenames).
Proof.
  unfold write_standards, flux_stage, build_sensfunc, flux_all, flux_one, save_1d, emit.
  only_walk.
Qed.

End DriverSteps.

Lemma bind_imap {A B D} (f : nat → A → B) (F : B → list D) (G : A → list D)
    (l : list A) :
  (∀ i x, F (f i x) = G x) → imap f l ≫= F = l ≫= G.
Proof.
  intros H. revert f H. induction l as [|x l IH]; intros f H; [done|].
  rewrite imap_cons, !bind_cons, H. f_equal. apply IH. intros i y. apply H.
Qed.

(** X16.  When the driver builds the exposure list itself, the science frames are
    gone through in the order of the table: each is reduced on the selected
    detectors in increasing order, exactly once on each, and its images are
    then written, before the next exposure is touched.  A run that returns
    has gone through all of them; a run that raises has gone through the
    first of them. *)
Theorem science_frames_in_table_order C tbl cfg reuseMaster h0 disk0 :
  let r := ARMS C tbl cfg reuseMaster None (init_state h0 disk0) in
  let expected :=
    tbl_sci_IDs tbl ≫= λ sid, exposure_steps cfg (science_row tbl sid) in
  match r with
  | Ok _ _ => steps (trace (final r)) = expected
  | Raise _ _ => steps (trace (final r)) `prefix_of` expected
  end.
Proof.
  intros r expected.
  destruct (init_loop_spec tbl (tbl_sci_IDs tbl) 0 [] [] (init_state h0 disk0) eq_refl)
    as (σ1 & Hrun & Hs & _ & Ht & _).
  set (es := imap (λ i sid, new_exposure tbl i sid) (tbl_sci_IDs tbl)).
  assert (Hes : sciexp σ1 = Some <$> es).
  { rewrite Hs. simpl. unfold es. rewrite fmap_imap. by apply imap_ext. }
  assert (Hexp : es ≫= (λ e, exposure_steps cfg (idx_sci e)) = expected).
  { unfold expected, es. by apply bind_imap. }
  destruct (exposure_loop_steps C tbl cfg reuseMaster es 0 σ1) as (e1 & Ht1 & H1).
  { intros j e Hj. rewrite Hes, list_lookup_fmap. simpl. by rewrite Hj. }
  rewrite Ht in Ht1. simpl in Ht1. rewrite Hexp in H1.
  unfold r, ARMS, init_sciexp. cbv zeta. unfold bind, gets, ret. rewrite Hrun.
  cbv beta iota. rewrite Hes, length_fmap. cbn [fst snd].
  destruct (for_each (seq 0 (length es)) _ σ1) as [[] σ2|ex σ2] eqn:Eloop.
  - pose proof (after_loop_quiet C cfg (Some (tbl_sci_IDs tbl))
      (map (λ sid, row_basename tbl (science_row tbl sid)) (tbl_sci_IDs tbl)) σ2)
      as (e2 & Ht2 & Hq).
    simpl in Ht1. unfold bind in Ht2. apply steps_no_step in Hq.
    destruct (write_standards C cfg σ2) as [[] σ3|ex σ3].
    + destruct (flux_stage C cfg _ _ σ3) as [[] σ4|ex σ4]; simpl in *;
        rewrite Ht2, Ht1, steps_app, Hq, app_nil_r, H1; done.
    + simpl in *. rewrite Ht2, Ht1, steps_app, Hq, app_nil_r, H1. done.
  - simpl in *. by rewrite Ht1.
Qed.

(** ** What the run keeps in its dictionaries *)

(** The exceptions that stand for a collaborator's failure: a frame that
    cannot be loaded, a file that cannot be written. *)
Definition frame_or_file (e : Exn) : Prop :=
  e = MissingInputError ∨ e = WriteFailure.

(** [calib_dict] holds nothing but the four cached products, and what it
    holds as a trace is a [TraceSlits] object. *)
Definition cache_ok (σ : RunState) : Prop :=
  ∀ (S : Setup) r K v, calib_dict σ !! S = Some r → r !! K = Some v →
    cached_kind K = true ∧ (K = Trace → ∃ t, v = VSlits t).

(** The first standard of every science ID of the table is in [std_dict]. *)
Definition standards_known (tbl : FitsTbl) (σ : RunState) : Prop :=
  ∀ sid k, sid ∈ tbl_sci_IDs tbl → head (standard_rows tbl sid) = Some k →
    is_Some (dict_get k (std_dict σ)).

(** The name [std_idx] is bound as soon as there is a standard. *)
Definition std_idx_bound (σ : RunState) : Prop :=
  std_dict σ ≠ [] → is_Some (std_idx_var σ).

Definition sound (tbl : FitsTbl) (σ : RunState) : Prop :=
  cache_ok σ ∧ standards_known tbl σ ∧ std_idx_bound σ.

(** Inside the loop on detectors the record of the setup is there. *)
Definition sound_at (tbl : FitsTbl) (S : Setup) (σ : RunState) : Prop :=
  sound tbl σ ∧ is_Some (calib_dict σ !! S).

Lemma dict_alter_nil {A} (f : A → A) k (d : list (nat * A)) :
  dict_alter f k d = [] → d = [].
Proof. destruct d as [|[k' v] d]; [done|]. simpl. by case_decide. Qed.

Lemma sound_at_alter tbl S (f : Exposure → Exposure) k σ :
  sound_at tbl S σ → sound_at tbl S (set_std_dict (dict_alter f k) σ).
Proof.
  intros [(Hc & Hk & Hi) Hs]. split; [split_and!|]; try assumption.
  - intros sid k' Hsid Hh. simpl. rewrite dict_get_alter.
    destruct (Hk sid k' Hsid Hh) as [x Hx]. rewrite Hx. case_decide; by eexists.
  - intros Hd. apply Hi. simpl in Hd. intros Hnil. apply Hd. by rewrite Hnil.
Qed.

Ltac sound_leaf :=
  idtac;
  match goal with
  | |- ∀ σ, sound_at _ _ σ → sound_at _ _ (set_std_dict (dict_alter _ _) σ) =>
      intros ? ?; by apply sound_at_alter
  | |- ∀ σ, sound_at _ _ σ → sound_at _ _ _ =>
      intros ? [(? & ? & ?) ?]; split; [split_and!|];
      first [assumption | intros _; simpl; by eexists]
  | |- ∀ σ, sound _ σ → sound _ _ =>
      intros ? (? & ? & ?); split_and!;
      first [assumption | intros _; simpl; by eexists]
  | |- frame_or_file _ => first [by left | by right]
  end.

Section Sound.
Variable C : Collab.
Variable tbl : FitsTbl.
Variable cfg : Settings.
Variable reuseMaster : bool.

Lemma lookup_or_compute_sound (S : Setup) K compute (Q : Value → Prop) :
  cached_kind K = true →
  safe (sound_at tbl S) frame_or_file compute Q →
  (K = Trace → ∀ v, Q v → ∃ t, v = VSlits t) →
  safe (sound_at tbl S) frame_or_file (lookup_or_compute S K compute)
    (λ v, K = Trace → ∃ t, v = VSlits t).
Proof.
  intros HK Hc HQ σ HI. unfold lookup_or_compute, bind, gets.
  destruct HI as [Hs [r Hr]]. rewrite Hr.
  destruct (r !! K) as [v|] eqn:Ev.
  - simpl. split; [by split; [|eexists]|]. intros HT.
    destruct Hs as (Hc0 & _). destruct (Hc0 _ _ _ _ Hr Ev) as [_ H]. by apply H.
  - assert (HI : sound_at tbl S σ) by (split; [done | by eexists]).
    specialize (Hc σ HI). destruct (compute σ) as [v σ1|e σ1]; [|done].
    destruct Hc as [[(Hc1 & Hk1 & Hi1) [r1 Hr1]] Hv]. rewrite Hr1. simpl.
    split; [|by auto]. split; [split_and!; [|assumption|assumption]|].
    + intros S' r' K' v' Hl Hlk. simpl in Hl. rewrite lookup_insert in Hl.
      case_decide as HS; [|by eapply Hc1]. injection Hl as <-.
      rewrite lookup_insert in Hlk. case_decide as HKK.
      * injection Hlk as <-. subst K'. split; [done|]. intros HT. by apply HQ.
      * by eapply Hc1.
    + simpl. rewrite lookup_insert. rewrite decide_True by done. by eexists.
Qed.

Lemma block_sound (S0 S : Setup) K det body (Q : Value → Prop) :
  safe (sound_at tbl S0) frame_or_file body Q →
  safe (sound_at tbl S0) frame_or_file (block S K det body) Q.
Proof.
  intros Hb. unfold block, emit.
  eapply safe_bind; [apply safe_call; sound_leaf|]. intros _ _.
  eapply safe_bind; [exact Hb|]. intros v Hv.
  eapply safe_bind; [apply safe_call; sound_leaf|]. intros _ _.
  by apply safe_ret.
Qed.

Lemma resolve_cached_sound slf det (S : Setup) :
  safe (sound_at tbl S) frame_or_file (resolve_cached C cfg slf det S)
    (λ r, ∃ t, r.2 = VSlits t).
Proof.
  unfold resolve_cached, cached. cbv zeta.
  eapply safe_bind.
  { apply block_sound, (lookup_or_compute_sound _ _ _ (λ _, True));
      [done | apply safe_call; sound_leaf | done]. }
  intros msbias _. eapply safe_bind.
  { apply block_sound, (lookup_or_compute_sound _ _ _ (λ _, True));
      [done | apply safe_call; sound_leaf | done]. }
  intros msarc _. eapply safe_bind.
  { apply block_sound, (lookup_or_compute_sound _ _ _ (λ _, True));
      [done | apply safe_call; sound_leaf | done]. }
  intros msbpm _. eapply safe_bind.
  { unfold SetFrame. apply safe_modify. sound_leaf. }
  intros _ _. eapply safe_bind.
  { apply block_sound, (lookup_or_compute_sound _ _ _ (λ v, ∃ t, v = VSlits t));
      [done | | by auto].
    eapply (safe_bind _ _ _ _ (λ _, True)).
    { destruct (masters_reuse cfg || masters_force cfg);
        [apply safe_call; sound_leaf | apply safe_ret_any]. }
    intros loaded _. destruct loaded as [t|]; [apply safe_ret; by eexists|].
    unfold slot, emit.
    eapply safe_bind; [apply safe_gets|]. intros pix _.
    eapply safe_bind; [apply safe_call; sound_leaf|]. intros t _.
    eapply safe_bind; [apply safe_call; sound_leaf|]. intros _ _.
    apply safe_ret. by eexists. }
  intros Tslits HT. apply safe_ret. simpl. by apply HT.
Qed.

Lemma resolve_on_exposure_sound sc slf det (S : Setup) datasec_img msbias msarc t :
  safe (sound_at tbl S) frame_or_file
    (resolve_on_exposure C reuseMaster sc slf det S datasec_img msbias msarc (VSlits t))
    (λ _, True).
Proof.
  unfold resolve_on_exposure, block, UpdateMasters, SetFrame, slot, the_view, emit.
  safe_walk_with sound_leaf.
Qed.

Lemma calibrate_sound sc slf det (S : Setup) datasec_img :
  safe (sound_at tbl S) frame_or_file
    (calibrate C cfg reuseMaster sc slf det S datasec_img) (λ _, True).
Proof.
  unfold calibrate.
  eapply safe_bind; [apply resolve_cached_sound|]. intros r [t Ht]. rewrite Ht.
  eapply safe_bind; [apply resolve_on_exposure_sound|]. intros _ _.
  apply safe_ret_any.
Qed.

Lemma reduce_standard_sound slf det (S : Setup) msbias msbpm datasec_img :
  sci_ID slf ∈ tbl_sci_IDs tbl →
  safe (sound_at tbl S) frame_or_file
    (reduce_standard C tbl slf det msbias msbpm datasec_img) (λ _, True).
Proof.
  intros Hsid. unfold reduce_standard, load_frame, reduce, SetFrame, the_view.
  safe_walk_with sound_leaf.
  exfalso.
  match goal with
  | Hs : sound_at _ _ ?σ, Hn : dict_get ?k (std_dict ?σ) = None,
    Hr : standard_rows _ _ = _ |- _ =>
      destruct Hs as [(_ & Hk & _) _];
      assert (Hh : head (standard_rows tbl (sci_ID slf)) = Some k) by (by rewrite Hr);
      destruct (Hk _ _ Hsid Hh) as [? ?]; congruence
  end.
Qed.

Lemma reduce_detector_sound sc slf det :
  sci_ID slf ∈ tbl_sci_IDs tbl →
  safe (sound tbl) frame_or_file (reduce_detector C tbl cfg reuseMaster sc slf det)
    (λ _, True).
Proof.
  intros Hsid σ HI. unfold reduce_detector.
  destruct (det_skipped cfg det); [by split|]. cbv zeta.
  set (S := instr_setup tbl (sci_ID slf) det).
  unfold bind at 1, modify at 1. unfold bind at 1, init_calib, modify at 1.
  match goal with |- context [bind _ _ ?σ2] => set (σa := σ2) end.
  assert (Ha : sound_at tbl S σa).
  { destruct HI as (Hc & Hk & Hi). unfold σa. split; [split_and!; [|done|done]|].
    - intros S' r K v Hl Hlk. simpl in Hl.
      destruct (calib_dict σ !! S) eqn:Es; [by eapply Hc|].
      rewrite lookup_insert in Hl. case_decide; [|by eapply Hc].
      injection Hl as <-. by rewrite lookup_empty in Hlk.
    - simpl. destruct (calib_dict σ !! S) eqn:Es; [by rewrite Es|].
      rewrite lookup_insert, decide_True by done. by eexists. }
  assert (Hrest : safe (sound_at tbl S) frame_or_file
    (ms <- calibrate C cfg reuseMaster sc slf det S
             (datasec_trimmed tbl det (idx_sci slf)) ;;
     sciframe <- load_frame C (idx_sci slf) det science ms.1 ;;
     reduce C slf sciframe ms.2 (datasec_trimmed tbl det (idx_sci slf))
       (idx_sci slf) det false ;;;
     reduce_standard C tbl slf det ms.1 ms.2 (datasec_trimmed tbl det (idx_sci slf)))
    (λ _, True)).
  { eapply safe_bind; [apply calibrate_sound|]. intros ms _.
    unfold load_frame, reduce, SetFrame, the_view.
    safe_walk_with ltac:(first [by apply reduce_standard_sound | sound_leaf]). }
  specialize (Hrest σa Ha).
  match goal with |- match ?m with _ => _ end =>
    match type of Hrest with match ?m' with _ => _ end => change m with m' end end.
  destruct (bind _ _ σa) as [[] σ'|e σ']; destruct Hrest as [[Hs _] Hq]; by split.
Qed.

Lemma write_exposure_sound slf :
  safe (sound tbl) frame_or_file (write_exposure C cfg slf) (λ _, True).
Proof. unfold write_exposure, save_1d, emit. safe_walk_with sound_leaf. Qed.

(** One turn of the loop on exposures. *)
Lemma reduce_exposure_sound sc slf σ :
  sound tbl σ → sciexp σ !! sc = Some (Some slf) → sci_ID slf ∈ tbl_sci_IDs tbl →
  match reduce_exposure C tbl cfg reuseMaster sc σ with
  | Ok _ σ' => sound tbl σ'
  | Raise e σ' => sound tbl σ' ∧ frame_or_file e
  end.
Proof.
  intros HI Hsc Hsid. unfold reduce_exposure. unfold bind at 1, gets at 1. rewrite Hsc.
  assert (Hs : safe (sound tbl) frame_or_file
    (for_each (seq 1 (ndet cfg)) (reduce_detector C tbl cfg reuseMaster sc slf) ;;;
     write_exposure C cfg slf ;;; modify (set_sciexp <[sc := None]>)) (λ _, True)).
  { safe_walk_with ltac:(first
      [ by apply reduce_detector_sound | apply write_exposure_sound | sound_leaf ]). }
  specialize (Hs σ HI). destruct (bind _ _ σ) as [[] σ'|e σ']; tauto.
Qed.

End Sound.

Section Whole.
Variable C : Collab.
Variable tbl : FitsTbl.
Variable cfg : Settings.
Variable reuseMaster : bool.

(** No detector is selected. *)
Definition all_skipped : Prop :=
  ∀ det, 1 ≤ det ≤ ndet cfg → det_skipped cfg det = true.

(** The loop on the exposures [es] that are still in the list. *)
Lemma exposure_loop_sound (es : list Exposure) a σ :
  sound tbl σ →
  (∀ e, e ∈ es → sci_ID e ∈ tbl_sci_IDs tbl) →
  (∀ j e, es !! j = Some e → sciexp σ !! (a + j) = Some (Some e)) →
  sound tbl (final (for_each (seq a (length es))
                      (reduce_exposure C tbl cfg reuseMaster) σ)).
Proof.
  revert a σ. induction es as [|e es IH]; intros a σ HI Hids Hes.
  - done.
  - assert (Hloop : for_each (seq a (length (e :: es)))
                      (reduce_exposure C tbl cfg reuseMaster) σ =
              match reduce_exposure C tbl cfg reuseMaster a σ with
              | Ok _ σm => for_each (seq (S a) (length es))
                             (reduce_exposure C tbl cfg reuseMaster) σm
              | Raise ex σm => Raise ex σm
              end) by reflexivity.
    rewrite Hloop. clear Hloop.
    assert (Ha : sciexp σ !! a = Some (Some e)).
    { specialize (Hes 0 e eq_refl). by rewrite Nat.add_0_r in Hes. }
    pose proof (reduce_exposure_sound C tbl cfg reuseMaster a e σ HI Ha
                  ltac:(apply Hids; by left)) as Hs.
    destruct (reduce_exposure C tbl cfg reuseMaster a σ) as [[] σm|ex σm] eqn:Em;
      [|by destruct Hs].
    apply IH; [done | intros e' He'; apply Hids; by right |].
    intros j e' Hj. replace (S a + j) with (a + S j) by lia.
    rewrite <- (Hes (S j) e' Hj).
    eapply (rel_spec_Ok (later_same (S a))); [|exact Em|lia].
    apply reduce_exposure_later_same. lia.
Qed.

End Whole.

(** ** The run from the table *)

Lemma rel_final {A} (R : relation RunState) (m : M A) σ :
  rel_spec R m → R σ (final (m σ)).
Proof. intros H. apply H. Qed.

Section Run.
Variable C : Collab.
Variable tbl : FitsTbl.
Variable cfg : Settings.
Variable reuseMaster : bool.

(** The exposures the table gives (lines 57-77). *)
Definition table_exposures : list Exposure :=
  imap (new_exposure tbl) (tbl_sci_IDs tbl).

Definition table_basenames : list string :=
  map (λ sid, row_basename tbl (science_row tbl sid)) (tbl_sci_IDs tbl).

Lemma table_exposures_sci_ID e :
  e ∈ table_exposures → sci_ID e ∈ tbl_sci_IDs tbl.
Proof.
  unfold table_exposures. intros (i & sid & -> & Hi)%elem_of_lookup_imap.
  simpl. by eapply list_elem_of_lookup_2.
Qed.

(** The state in which the loop on the exposures starts. *)
Lemma init_sound h0 disk0 :
  ∃ σ1, init_loop tbl (tbl_sci_IDs tbl) 0 [] [] (init_state h0 disk0) =
          Ok table_basenames σ1 ∧
    sciexp σ1 = Some <$> table_exposures ∧ sound tbl σ1.
Proof.
  destruct (init_loop_spec tbl (tbl_sci_IDs tbl) 0 [] [] (init_state h0 disk0) eq_refl)
    as (σ1 & Hrun & Hs & Hd & _ & Hc & _ & Hv & Hi).
  exists σ1. split; [exact Hrun|]. split.
  { rewrite Hs. simpl. unfold table_exposures. rewrite fmap_imap. by apply imap_ext. }
  simpl in Hd. split; [|split].
  - intros S r K v HS. rewrite Hc in HS. simpl in HS. by rewrite lookup_empty in HS.
  - intros sid k Hsid Hk. apply dict_get_is_Some. rewrite Hd.
    destruct (standards_spec tbl (tbl_sci_IDs tbl) []) as (_ & Hkeys & _);
      [constructor|].
    apply Hkeys. right. by exists sid.
  - intros Hne. apply Hi. intros Hnil. apply Hne. rewrite Hd, Hnil. done.
Qed.

Lemma ARMS_unfold h0 disk0 σ1 :
  init_loop tbl (tbl_sci_IDs tbl) 0 [] [] (init_state h0 disk0) = Ok table_basenames σ1 →
  sciexp σ1 = Some <$> table_exposures →
  ARMS C tbl cfg reuseMaster None (init_state h0 disk0) =
  match for_each (seq 0 (length table_exposures))
          (reduce_exposure C tbl cfg reuseMaster) σ1 with
  | Ok _ σ2 =>
      match write_standards C cfg σ2 with
      | Ok _ σ3 =>
          match flux_stage C cfg (Some (tbl_sci_IDs tbl)) table_basenames σ3 with
          | Ok _ σ4 => Ok 0 σ4
          | Raise e σ4 => Raise e σ4
          end
      | Raise e σ3 => Raise e σ3
      end
  | Raise e σ2 => Raise e σ2
  end.
Proof.
  intros Hrun Hes. unfold ARMS, init_sciexp. cbv zeta. unfold bind, gets, ret.
  rewrite Hrun. cbv beta iota. rewrite Hes, length_fmap. cbn [fst snd].
  destruct (for_each _ _ σ1) as [[] σ2|]; [|done].
  destruct (write_standards C cfg σ2) as [[] σ3|]; [|done].
  by destruct (flux_stage C cfg _ _ σ3) as [[] σ4|].
Qed.

Lemma table_lookup σ1 a :
  sciexp σ1 = Some <$> table_exposures →
  ∀ j e, table_exposures !! j = Some e → a = 0 → sciexp σ1 !! (a + j) = Some (Some e).
Proof. intros Hes j e Hj ->. rewrite Hes, list_lookup_fmap. simpl. by rewrite Hj. Qed.

(** The cache at the end of the whole run. *)
Lemma run_cache_ok h0 disk0 :
  cache_ok (final (ARMS C tbl cfg reuseMaster None (init_state h0 disk0))).
Proof.
  destruct (init_sound h0 disk0) as (σ1 & Hrun & Hes & Hs).
  rewrite (ARMS_unfold h0 disk0 σ1 Hrun Hes).
  pose proof (exposure_loop_sound C tbl cfg reuseMaster table_exposures 0 σ1 Hs
    table_exposures_sci_ID (λ j e Hj, table_lookup σ1 0 Hes j e Hj eq_refl)) as [Hc _].
  destruct (for_each _ _ σ1) as [[] σ2|e σ2]; [|exact Hc]. simpl in Hc.
  assert (Hc3 : calib_dict (final (write_standards C cfg σ2)) = calib_dict σ2).
  { apply (rel_final (same calib_dict)). unfold write_standards, save_1d, emit.
    same_walk. }
  destruct (write_standards C cfg σ2) as [[] σ3|e σ3]; simpl in Hc3.
  2:{ unfold cache_ok. simpl. by rewrite Hc3. }
  assert (Hc4 : calib_dict (final (flux_stage C cfg (Some (tbl_sci_IDs tbl))
                                     table_basenames σ3)) = calib_dict σ3).
  { apply (rel_final (same calib_dict)).
    unfold flux_stage, build_sensfunc, flux_all, flux_one, save_1d, emit. same_walk. }
  assert (Hc' : cache_ok (final (flux_stage C cfg (Some (tbl_sci_IDs tbl))
                                   table_basenames σ3))).
  { unfold cache_ok. by rewrite Hc4, Hc3. }
  by destruct (flux_stage C cfg _ _ σ3) as [[] σ4|e σ4].
Qed.

(** With no detector selected an exposure is only written. *)
Lemma skipped_detectors sc slf σ :
  all_skipped cfg →
  for_each (seq 1 (ndet cfg)) (reduce_detector C tbl cfg reuseMaster sc slf) σ = Ok tt σ.
Proof.
  intros Hall.
  assert (H : ∀ l, (∀ det, det ∈ l → 1 ≤ det ≤ ndet cfg) →
            for_each l (reduce_detector C tbl cfg reuseMaster sc slf) σ = Ok tt σ).
  { induction l as [|det l IH]; intros Hl; [done|]. simpl. unfold bind.
    unfold reduce_detector at 1. rewrite Hall by (apply Hl; by left).
    unfold ret. apply IH. intros d Hd. apply Hl. by right. }
  apply H. intros det Hdet%elem_of_seq. lia.
Qed.

Definition names_same : relation RunState := λ σ σ',
  setup_var σ' = setup_var σ ∧ std_dict σ' = std_dict σ ∧ std_idx_var σ' = std_idx_var σ.

Lemma skipped_exposure sc slf σ :
  all_skipped cfg → sciexp σ !! sc = Some (Some slf) →
  match reduce_exposure C tbl cfg reuseMaster sc σ with
  | Ok _ σ' => names_same σ σ'
  | Raise e _ => e = WriteFailure
  end.
Proof.
  intros Hall Hsc. unfold reduce_exposure. unfold bind at 1, gets at 1. rewrite Hsc.
  unfold bind at 1. rewrite skipped_detectors by done.
  unfold write_exposure, save_1d, emit. unfold bind, gets, call, modify, raise. simpl.
  by destruct (save_1d_spectra_fits C _ _).
Qed.

Lemma skipped_loop (es : list Exposure) a σ :
  all_skipped cfg →
  (∀ j e, es !! j = Some e → sciexp σ !! (a + j) = Some (Some e)) →
  match for_each (seq a (length es)) (reduce_exposure C tbl cfg reuseMaster) σ with
  | Ok _ σ' => names_same σ σ'
  | Raise e _ => e = WriteFailure
  end.
Proof.
  intros Hall. revert a σ. induction es as [|e es IH]; intros a σ Hes.
  - simpl. by split_and!.
  - assert (Hloop : for_each (seq a (length (e :: es)))
                      (reduce_exposure C tbl cfg reuseMaster) σ =
              match reduce_exposure C tbl cfg reuseMaster a σ with
              | Ok _ σm => for_each (seq (S a) (length es))
                             (reduce_exposure C tbl cfg reuseMaster) σm
              | Raise ex σm => Raise ex σm
              end) by reflexivity.
    rewrite Hloop. clear Hloop.
    assert (Ha : sciexp σ !! a = Some (Some e)).
    { specialize (Hes 0 e eq_refl). by rewrite Nat.add_0_r in Hes. }
    pose proof (skipped_exposure a e σ Hall Ha) as H1.
    destruct (reduce_exposure C tbl cfg reuseMaster a σ) as [[] σm|ex σm] eqn:Em; [|done].
    specialize (IH (S a) σm).
    assert (Hes' : ∀ j e', es !! j = Some e' → sciexp σm !! (S a + j) = Some (Some e')).
    { intros j e' Hj. replace (S a + j) with (a + S j) by lia.
      rewrite <- (Hes (S j) e' Hj).
      eapply (rel_spec_Ok (later_same (S a))); [|exact Em|lia].
      apply reduce_exposure_later_same. lia. }
    specialize (IH Hes').
    destruct (for_each (seq (S a) (length es)) _ σm) as [[] σ'|ex σ']; [|done].
    destruct H1 as (H1 & H2 & H3), IH as (H4 & H5 & H6).
    split_and!; congruence.
Qed.

End Run.

(** X18.  At the end of a run made from the table, with or without an exception,
    the per-setup dictionary [calib_dict] holds nothing but the four
    products the driver stores there (bias, arc, bad-pixel mask, trace), and
    what it holds for the trace is a [TraceSlits] object.  The tilts, the
    flat and the wavelength image are not in it. *)
Theorem calib_dict_holds_four_products C tbl cfg reuseMaster h0 disk0
    (S : Setup) r (K : Kind) v :
  calib_dict (final (ARMS C tbl cfg reuseMaster None (init_state h0 disk0))) !! S
    = Some r →
  r !! K = Some v →
  (K = Bias ∨ K = Arc ∨ K = Bpm ∨ K = Trace) ∧ (K = Trace → ∃ t, v = VSlits t).
Proof.
  intros HS HK.
  destruct (run_cache_ok C tbl cfg reuseMaster h0 disk0 S r K v HS HK) as [Hk Ht].
  split; [|exact Ht].
  destruct K; try discriminate Hk; auto.
Qed.

(** X19.  When flux calibration is asked from the run's own standards
    ([sensfunc_archival] is ["None"]), [detnum] selects no detector and some
    science exposure has a standard, the run made from the table does not
    return: it raises [WriteFailure] when a file cannot be written, and
    otherwise [NameError], after every spectrum file has been written, since
    the name [setup] was never bound. *)
Theorem flux_without_detector_never_returns C tbl cfg reuseMaster h0 disk0 sid :
  calibrate_flux cfg = true →
  sensfunc_archival cfg = "None"%string →
  (∀ det, 1 ≤ det ≤ ndet cfg → det_skipped cfg det = true) →
  sid ∈ tbl_sci_IDs tbl → standard_rows tbl sid ≠ [] →
  ∃ e σ', ARMS C tbl cfg reuseMaster None (init_state h0 disk0) = Raise e σ' ∧
          (e = WriteFailure ∨ e = NameError).
Proof.
  intros Hflux Harch Hall Hsid Hstd.
  destruct (init_loop_spec tbl (tbl_sci_IDs tbl) 0 [] [] (init_state h0 disk0) eq_refl)
    as (σ1 & Hrun & Hs & Hd & _ & _ & _ & Hv & Hi).
  assert (Hes : sciexp σ1 = Some <$> table_exposures tbl).
  { rewrite Hs. simpl. unfold table_exposures. rewrite fmap_imap. by apply imap_ext. }
  rewrite (ARMS_unfold C tbl cfg reuseMaster h0 disk0 σ1 Hrun Hes).
  simpl in Hd, Hv.
  assert (Hne : std_dict σ1 ≠ []).
  { destruct (standard_rows tbl sid) as [|k rest] eqn:Ek; [done|].
    destruct (standards_spec tbl (tbl_sci_IDs tbl) []) as (_ & Hkeys & _);
      [constructor|].
    assert (Hk : k ∈ (std_dict σ1).*1).
    { rewrite Hd. apply Hkeys. right. exists sid. by rewrite Ek. }
    intros Hnil. rewrite Hnil in Hk. by apply elem_of_nil in Hk. }
  destruct Hi as [hdr Hhdr]; [intros Hnil; rewrite Hnil in Hsid; by apply elem_of_nil in Hsid|].
  pose proof (skipped_loop C tbl cfg reuseMaster (table_exposures tbl) 0 σ1 Hall
    (λ j e Hj, table_lookup tbl σ1 0 Hes j e Hj eq_refl)) as Hloop.
  destruct (for_each _ _ σ1) as [[] σ2|e σ2]; [|exists e, σ2; split; [done | by left]].
  destruct Hloop as (H1 & H2 & H3).
  destruct (write_standards_loop C cfg hdr (std_dict σ2) σ2) as (n & _ & _ & Hr);
    [congruence|].
  change (for_each (std_dict σ2) (write_standard C cfg) σ2)
    with (write_standards C cfg σ2) in Hr.
  assert (Hv3 : setup_var (final (write_standards C cfg σ2)) = setup_var σ2).
  { apply (rel_final (same setup_var)). unfold write_standards, save_1d, emit.
    same_walk. }
  assert (Hd3 : std_dict (final (write_standards C cfg σ2)) = std_dict σ2).
  { apply (rel_final (same std_dict)). unfold write_standards, save_1d, emit.
    same_walk. }
  destruct (write_standards C cfg σ2) as [[] σ3|e σ3];
    [|exists e, σ3; split; [done | by left]].
  simpl in Hv3, Hd3. rewrite flux_stage_eq, Hflux.
  destruct (std_dict σ3) as [|[k x] d] eqn:E3; [congruence|].
  rewrite bool_decide_eq_true_2 by (simpl; lia). cbn [andb].
  erewrite bind_Raise; [|apply build_sensfunc_unbound; [done | congruence]].
  exists NameError, σ3. split; [done | by right].
Qed.

Module LineLists.
Import WaveIO.

Definition chars (s : string) : list Ascii.ascii := String.list_ascii_of_string s.

Lemma chars_app (s1 s2 : string) : chars (s1 +:+ s2) = chars s1 ++ chars s2.
Proof. unfold chars. induction s1 as [|c s1 IH]; simpl; [done|]. by rewrite IH. Qed.

Lemma rfind_from_app c l1 l2 i acc :
  rfind_from c (l1 ++ l2) i acc =
  rfind_from c l2 (i + Z.of_nat (length l1)) (rfind_from c l1 i acc).
Proof.
  revert i acc. induction l1 as [|x l1 IH]; intros i acc; simpl.
  - f_equal. lia.
  - rewrite IH. f_equal. lia.
Qed.

Lemma rfind_from_absent c l i acc : c ∉ l → rfind_from c l i acc = acc.
Proof.
  revert i acc. induction l as [|x l IH]; intros i acc Hc; simpl; [done|].
  apply not_elem_of_cons in Hc as [Hne Hc]. rewrite IH by done.
  destruct (Ascii.eqb_spec x c); [congruence | done].
Qed.

Lemma rfind_last c l1 l2 :
  c ∉ l2 →
  rfind_from c (l1 ++ c :: l2) 0 (-1) = Z.of_nat (length l1).
Proof.
  intros Hc. rewrite rfind_from_app. simpl. rewrite Ascii.eqb_refl.
  by rewrite rfind_from_absent.
Qed.

Lemma py_slice_middle (s : string) l1 mid l3 :
  chars s = l1 ++ mid ++ l3 →
  py_slice s (Z.of_nat (length l1)) (Z.of_nat (length l1 + length mid)) =
  String.string_of_list_ascii mid.
Proof.
  intros Hs. unfold py_slice. fold (chars s). rewrite Hs. cbv zeta.
  rewrite !length_app. unfold py_index.
  repeat match goal with |- context [(?a <? 0)%Z] =>
    destruct (Z.ltb_spec a 0); [lia|] end.
  rewrite !Z.min_l by lia. rewrite Nat2Z.id.
  replace (Z.to_nat _) with (length mid) by lia.
  rewrite drop_app_length. by rewrite take_app_length.
Qed.

Section Names.
Variable dir ndir : string.

Lemma chars_line_file_of (NIST : bool) (line : string) :
  chars (line_file_of (dir +:+ "/") (ndir +:+ "/") NIST line) =
  (chars (if NIST then ndir else dir) ++ ["/"%char]) ++ chars line ++
  ("_"%char :: chars (if NIST then "vacuum.ascii" else "lines.dat")%string).
Proof. unfold line_file_of. destruct NIST; by rewrite !chars_app. Qed.

(** X8.  The lamp name is read back from the file name it stands for: with data
    directories that end in a slash, [line_file[i0+1:i1]] gives back the
    lamp name the file name was made from, for the line lists and for the
    NIST lists alike, as long as the lamp name holds no slash (an
    underscore in it does no harm, the last one being that of the
    suffix). *)
Theorem lamp_name_round_trip (NIST : bool) (line : string) :
  "/"%char ∉ chars line →
  lamp_of_file (line_file_of (dir +:+ "/") (ndir +:+ "/") NIST line) = line.
Proof.
  intros Hline. unfold lamp_of_file. cbv zeta.
  pose proof (chars_line_file_of NIST line) as Hf.
  set (f := line_file_of (dir +:+ "/") (ndir +:+ "/") NIST line) in *.
  set (d := if NIST then ndir else dir) in *.
  set (tail := (if NIST then "vacuum.ascii" else "lines.dat")%string) in *.
  assert (Ht : ("/"%char ∉ chars tail) ∧ ("_"%char ∉ chars tail)).
  { unfold tail. destruct NIST; split; vm_compute; intros H;
      repeat (apply elem_of_cons in H as [H|H]; [done|]); by apply elem_of_nil in H. }
  destruct Ht as [Ht1 Ht2].
  unfold rfind. fold (chars f). rewrite Hf.
  assert (H0 : rfind_from "/" ((chars d ++ ["/"%char]) ++ chars line ++ ("_"%char :: chars tail))
                 0 (-1) = Z.of_nat (length (chars d))).
  { rewrite <- app_assoc. simpl. apply rfind_last.
    intros H. apply elem_of_app in H as [H|H]; [done|].
    apply elem_of_cons in H as [H|H]; [done | done]. }
  assert (H1 : rfind_from "_" ((chars d ++ ["/"%char]) ++ chars line ++ ("_"%char :: chars tail))
                 0 (-1) = Z.of_nat (length (chars d ++ ["/"%char]) + length (chars line))).
  { rewrite app_assoc. rewrite rfind_last by done. by rewrite length_app. }
  rewrite H0, H1.
  replace (Z.of_nat (length (chars d)) + 1)%Z
    with (Z.of_nat (length (chars d ++ ["/"%char]))).
  2: { rewrite length_app. simpl. lia. }
  erewrite py_slice_middle; [apply String.string_of_list_ascii_of_string|].
  exact Hf.
Qed.
End Names.

Section Loading.
Variable line_path nist_path : string.
Variable isfile : string → bool.
Variable Table_read : string → Table.
Variable pdb_set_trace : string → Session.
Variable nist_clean : string → Table → Table.
Variable vstack_exact : list Table → option Table.
Variable vstack_outer : list Table → Table.
Variable line_flag : string → option nat.
Variable select_flagged : list nat → Table → Table.
Variable remove_column : string → Table → Table.

Let file_of := line_file_of line_path nist_path.
Let load_one := load_line_list line_path nist_path Table_read nist_clean.
Let loader glob := load_line_lists line_path nist_path isfile glob Table_read
  pdb_set_trace nist_clean vstack_exact vstack_outer line_flag select_flagged
  remove_column.
Let reader := read_lists line_path nist_path isfile Table_read pdb_set_trace nist_clean.

Lemma read_lists_strict NIST lines lists :
  reader false NIST lines lists =
  match List.find (λ l, negb (isfile (file_of NIST l))) lines with
  | Some line =>
      match pdb_set_trace line with
      | Continue => inl (StopIOError line)
      | Quit => inl (StopBdbQuit line)
      end
  | None => inr (lists ++ map (λ l, load_one (file_of NIST l) false NIST) lines)
  end.
Proof.
  revert lists. induction lines as [|l lines IH]; intros lists; simpl.
  - by rewrite app_nil_r.
  - fold (file_of NIST l). destruct (isfile (file_of NIST l)); simpl; [|done].
    unfold reader in IH. rewrite IH. destruct (List.find _ lines); [done|].
    by rewrite <- app_assoc.
Qed.

Lemma find_first_missing (P : string → bool) lines line :
  List.find P lines = Some line ↔
  ∃ pre post, lines = pre ++ line :: post ∧ (∀ l, l ∈ pre → P l = false) ∧ P line = true.
Proof.
  induction lines as [|l lines IH]; simpl.
  - split; [done|]. intros (pre & post & H & _). by destruct pre.
  - destruct (P l) eqn:El.
    + split.
      * intros [= ->]. exists [], lines. split_and!; [done | | done].
        intros x Hx. by apply elem_of_nil in Hx.
      * intros (pre & post & H & Hpre & Hl). destruct pre as [|x pre].
        { simpl in H. by injection H as -> _. }
        simpl in H. injection H as -> _. rewrite Hpre in El; [done|]. apply elem_of_cons. by left.
    + rewrite IH. split.
      * intros (pre & post & -> & Hpre & Hl). exists (l :: pre), post.
        split_and!; [done | | done]. intros x Hx. apply elem_of_cons in Hx as [->|Hx]; auto.
      * intros (pre & post & H & Hpre & Hl). destruct pre as [|x pre].
        { simpl in H. injection H as -> _. congruence. }
        simpl in H. injection H as -> ->. exists pre, post. split_and!; [done | | done].
        intros y Hy. apply Hpre. apply elem_of_cons. by right.
Qed.

(** The first lamp of the list whose file is missing. *)
Definition first_missing (NIST : bool) (lines : list string) (line : string) : Prop :=
  ∃ pre post, lines = pre ++ line :: post ∧
    (∀ l, l ∈ pre → isfile (file_of NIST l) = true) ∧
    isfile (file_of NIST line) = false.

(** X10.  Lines 150-162 with [skip=False]: a call comes to a stop at the first
    lamp of the list whose file is missing, at the breakpoint of line 159.
    It raises the [IOError] that names this lamp exactly when the debugger
    session lets the program go on, and [BdbQuit] exactly when the session
    is quit; with no file missing it raises neither.  Whether [unknown] is
    set makes no difference. *)
Theorem missing_list_raises glob (lines : list string) (unknown NIST : bool) (line : string) :
  (loader glob lines unknown false false NIST = RIOError line ↔
   first_missing NIST lines line ∧ pdb_set_trace line = Continue) ∧
  (loader glob lines unknown false false NIST = RBdbQuit line ↔
   first_missing NIST lines line ∧ pdb_set_trace line = Quit).
Proof.
  assert (Hfirst : first_missing NIST lines line ↔
            List.find (λ l, negb (isfile (file_of NIST l))) lines = Some line).
  { unfold first_missing. rewrite find_first_missing.
    split; intros (pre & post & H1 & H2 & H3); exists pre, post; split_and!; try done.
    - intros l Hl. apply negb_false_iff. by apply H2.
    - by apply negb_true_iff.
    - intros l Hl. apply negb_false_iff. by apply H2.
    - by apply negb_true_iff. }
  rewrite !Hfirst. unfold loader, load_line_lists. fold reader.
  rewrite read_lists_strict. simpl.
  destruct (List.find _ lines) as [l|].
  - destruct (pdb_set_trace l) eqn:El; (split; split);
      try (intros [= <-]; by split); try (intros [[= <-] ?]; congruence);
      try discriminate.
  - split; (split; [|by intros [? _]]); case_bool_decide; try done;
      (destruct (vstack_exact _); [|done]); (destruct unknown; [|done]);
      by destruct (load_unknown_list _ _ _ _ _ _ _).
Qed.

End Loading.

Section AllLists.
Variable dir nist_path : string.
Variable isfile : string → bool.
Variable Table_read : string → Table.
Variable pdb_set_trace : string → Session.
Variable nist_clean : string → Table → Table.
Variable vstack_exact : list Table → option Table.
Variable vstack_outer : list Table → Table.
Variable line_flag : string → option nat.
Variable select_flagged : list nat → Table → Table.
Variable remove_column : string → Table → Table.

Let line_path := dir +:+ "/".
Let file_of := line_file_of line_path nist_path false.

Lemma lamp_names_of_glob (names : list string) :
  Forall (λ X, "/"%char ∉ chars X) names →
  map lamp_of_file (map file_of names) = names.
Proof.
  induction 1 as [|X names HX _ IH]; simpl; [done|]. rewrite IH. f_equal.
  unfold file_of, line_path.
  change (line_file_of (dir +:+ "/") nist_path false X) with
    (line_file_of (dir +:+ "/") (dir +:+ "/") false X).
  by apply lamp_name_round_trip.
Qed.

(** X9.  With [all=True] the lamp names are read back from the globbed file
    names, and the files they stand for are the globbed files again: the
    loader reads exactly the files [glob] found, in the order it found
    them, whatever [lines] and [skip] are, and returns [None] when there
    are none. *)
Theorem all_lists_reads_globbed_files (names lines : list string) (skip : bool) :
  Forall (λ X, "/"%char ∉ chars X) names →
  Forall (λ f, isfile f = true) (map file_of names) →
  load_line_lists line_path nist_path isfile (map file_of names) Table_read
    pdb_set_trace nist_clean
    vstack_exact vstack_outer line_flag select_flagged remove_column
    lines false skip true false =
  match names with
  | [] => RNone
  | _ :: _ =>
      match vstack_exact (map Table_read (map file_of names)) with
      | Some t => RTable t
      | None => RTableMergeError
      end
  end.
Proof.
  intros Hn Hf. unfold load_line_lists. rewrite lamp_names_of_glob by done.
  assert (Hr : ∀ lists, read_lists line_path nist_path isfile Table_read pdb_set_trace
                 nist_clean skip false names lists =
               inr (lists ++ map Table_read (map file_of names))).
  { clear Hn. induction names as [|X names IH]; intros lists; simpl.
    - by rewrite app_nil_r.
    - simpl in Hf. apply list.Forall_cons in Hf as [HX Hf].
      unfold file_of, line_file_of in *. rewrite HX. simpl. rewrite IH by done.
      by rewrite <- app_assoc. }
  rewrite Hr. simpl. destruct names as [|X names]; [done|]. simpl.
  by destruct (vstack_exact _).
Qed.
End AllLists.
End LineLists.

Module UnknownLines.
Import WaveIO.

(** [a % b] on [numpy] integers: the sign follows the divisor, and a zero
    divisor gives zero. *)
Definition np_mod (a b : Z) : Z := if (b =? 0)%Z then 0%Z else (a mod b)%Z.

(** [line_list['line_flag'] % (2*line_flag) >= line_flag], for one row. *)
Definition flag_match (line_flag : nat) (x : Z) : bool :=
  (Z.of_nat line_flag <=? np_mod x (2 * Z.of_nat line_flag))%Z.

(** [msk[match] = True] *)
Definition mask_lamp (col : list Z) (msk : list bool) (line_flag : nat) : list bool :=
  zip_with (λ m x, if flag_match line_flag x then true else m) msk col.

(** Lines 316-320: [msk] starts all [False] and takes in the rows of every
    lamp. *)
Definition lamp_mask (col : list Z) (flags : list nat) : list bool :=
  foldl (mask_lamp col) (replicate (length col) false) flags.

(** [line_list[msk]] *)
Definition table_select (msk : list bool) (t : Table) : Table :=
  {| colnames := colnames t;
     rows := (List.filter snd (zip (rows t) msk)).*1 |}.

Section Select.
(** The integer a row holds in its column [line_flag]. *)
Variable row_flag : list string → Z.

Definition select_flagged (flags : list nat) (t : Table) : Table :=
  table_select (lamp_mask (map row_flag (rows t)) flags) t.

Lemma mask_lamp_map (col : list Z) (p : Z → bool) fl :
  mask_lamp col (map p col) fl = map (λ x, flag_match fl x || p x) col.
Proof.
  unfold mask_lamp. induction col as [|x col IH]; simpl; [done|].
  by rewrite IH.
Qed.

Lemma lamp_mask_spec (col : list Z) flags :
  lamp_mask col flags = map (λ x, existsb (λ fl, flag_match fl x) flags) col.
Proof.
  unfold lamp_mask.
  assert (H : ∀ p : Z → bool, foldl (mask_lamp col) (map p col) flags =
            map (λ x, existsb (λ fl, flag_match fl x) flags || p x) col).
  { induction flags as [|fl flags IH]; intros p; simpl.
    - done.
    - rewrite mask_lamp_map, IH. apply List.map_ext. intros x.
      destruct (flag_match fl x), (existsb _ flags), (p x); done. }
  replace (replicate (length col) false) with (map (λ _ : Z, false) col).
  - rewrite H. apply List.map_ext. intros x. by rewrite orb_false_r.
  - clear H. induction col; simpl; [done | by f_equal].
Qed.

Lemma table_select_map (p : list string → bool) (t : Table) :
  rows (table_select (map p (rows t)) t) = List.filter p (rows t).
Proof.
  unfold table_select. simpl. induction (rows t) as [|r l IH]; [done|].
  csimpl. destruct (p r); csimpl; by rewrite IH.
Qed.

(** For a flag that is a power of two the test reads one bit. *)
Lemma flag_match_bit (k : nat) (x : Z) :
  flag_match (2 ^ k) x = Z.testbit x (Z.of_nat k).
Proof.
  unfold flag_match, np_mod.
  assert (Hp : Z.of_nat (2 ^ k) = (2 ^ Z.of_nat k)%Z).
  { rewrite Nat2Z.inj_pow. done. }
  rewrite Hp. assert (0 < 2 ^ Z.of_nat k)%Z by (apply Z.pow_pos_nonneg; lia).
  destruct (Z.eqb_spec (2 * 2 ^ Z.of_nat k) 0); [lia|].
  rewrite (Z.mul_comm 2). rewrite Z.rem_mul_r by lia.
  pose proof (Z.mod_pos_bound x (2 ^ Z.of_nat k) ltac:(lia)).
  pose proof (Z.mod_pos_bound (x `div` 2 ^ Z.of_nat k) 2 ltac:(lia)).
  destruct (Z.testbit x (Z.of_nat k)) eqn:Eb.
  - apply Z.testbit_true in Eb; [|lia]. rewrite Eb. apply Z.leb_le. lia.
  - apply Z.leb_gt.
    assert ((x `div` 2 ^ Z.of_nat k) `mod` 2 ≠ 1)%Z.
    { intros E. apply Z.testbit_true in E; [|lia]. congruence. }
    assert ((x `div` 2 ^ Z.of_nat k) `mod` 2 = 0)%Z by lia. lia.
Qed.

Variable line_path nist_path : string.
Variable Table_read : string → Table.
Variable nist_clean : string → Table → Table.
Variable line_flag : string → option nat.

(** X11.  Lines 306-322.  When the flag of every requested lamp is a power of
    two, [load_unknown_list] returns the rows of [UNKNWNs.dat] whose
    [line_flag] has the bit of at least one requested lamp set, in the order
    of the file and with the columns of the file. *)
Theorem unknown_lines_by_lamp_bit (lines : list string) (bits : list nat) :
  lamp_flags line_flag lines = inr (map (λ k, 2 ^ k) bits) →
  let unkn := Table_read (line_path +:+ "UNKNWNs.dat") in
  load_unknown_list line_path nist_path Table_read nist_clean line_flag
    select_flagged lines =
  inr {| colnames := colnames unkn;
         rows := List.filter
           (λ row, existsb (λ k, Z.testbit (row_flag row) (Z.of_nat k)) bits)
           (rows unkn) |}.
Proof.
  intros Hfl unkn. unfold load_unknown_list. rewrite Hfl. cbv zeta.
  unfold load_line_list. fold unkn. f_equal. unfold select_flagged.
  rewrite lamp_mask_spec, map_map.
  transitivity {| colnames := colnames unkn;
                  rows := rows (table_select
                    (map (λ row, existsb (λ fl, flag_match fl (row_flag row))
                                   (map (λ k, 2 ^ k) bits)) (rows unkn)) unkn) |}.
  { done. }
  rewrite table_select_map. f_equal. apply List.filter_ext. intros row.
  clear Hfl. induction bits as [|k bits IH]; [done|].
  cbn [existsb map]. by rewrite flag_match_bit, IH.
Qed.
End Select.
End UnknownLines.

Module NistColumns.

(** [sub in s] on strings. *)
Fixpoint py_in (sub s : string) : bool :=
  String.prefix sub s ||
  match s with
  | EmptyString => false
  | String _ s' => py_in sub s'
  end.

(** The column names a NIST table is stripped of (line 87). *)
Definition unwanted : list string :=
  ["Ritz"; "Acc."; "Type"; "Ei"; "Lower"; "Upper"; "TP"; "Line"].

(** [line_list.remove_column(tkey)] on the column names: a [KeyError] when
    the table has no such column. *)
Definition remove_column (tkey : string) (cols : list string) : option (list string) :=
  if bool_decide (tkey ∈ cols) then Some (filter (λ c, c ≠ tkey) cols) else None.

(** [for tkey in tkeys: if badkey in tkey: line_list.remove_column(tkey)] *)
Fixpoint remove_matching (badkey : string) (tkeys cols : list string)
    : option (list string) :=
  match tkeys with
  | [] => Some cols
  | tkey :: tkeys' =>
      if py_in badkey tkey then
        cols' ← remove_column tkey cols; remove_matching badkey tkeys' cols'
      else remove_matching badkey tkeys' cols
  end.

(** Lines 86-90: [tkeys] is the list of names the table had on entry. *)
Fixpoint remove_badkeys (badkeys tkeys cols : list string) : option (list string) :=
  match badkeys with
  | [] => Some cols
  | badkey :: badkeys' =>
      cols' ← remove_matching badkey tkeys cols;
      remove_badkeys badkeys' tkeys cols'
  end.

Definition remove_unwanted (cols : list string) : option (list string) :=
  remove_badkeys unwanted cols cols.

(** How many of the keys a column name contains. *)
Definition hits (badkeys : list string) (c : string) : nat :=
  length (filter (λ b, py_in b c = true) badkeys).

(** The removals the loops ask for, in order. *)
Definition removals (badkeys tkeys : list string) : list string :=
  badkeys ≫= λ b, filter (λ t, py_in b t = true) tkeys.

Fixpoint remove_all (ops cols : list string) : option (list string) :=
  match ops with
  | [] => Some cols
  | t :: ops' => cols' ← remove_column t cols; remove_all ops' cols'
  end.

Lemma remove_all_app ops1 ops2 cols :
  remove_all (ops1 ++ ops2) cols = cols' ← remove_all ops1 cols; remove_all ops2 cols'.
Proof.
  revert cols. induction ops1 as [|t ops1 IH]; intros cols; simpl; [done|].
  destruct (remove_column t cols) as [cols'|]; simpl; [apply IH | done].
Qed.

Lemma remove_matching_all b tkeys cols :
  remove_matching b tkeys cols = remove_all (filter (λ t, py_in b t = true) tkeys) cols.
Proof.
  revert cols. induction tkeys as [|t tkeys IH]; intros cols; simpl; [done|].
  rewrite filter_cons. destruct (py_in b t) eqn:Eb.
  - rewrite decide_True by done. simpl.
    destruct (remove_column t cols); simpl; [apply IH | done].
  - rewrite decide_False by done. apply IH.
Qed.

Lemma remove_badkeys_all badkeys tkeys cols :
  remove_badkeys badkeys tkeys cols = remove_all (removals badkeys tkeys) cols.
Proof.
  revert cols. induction badkeys as [|b badkeys IH]; intros cols; [done|].
  unfold removals. rewrite bind_cons, remove_all_app. cbn [remove_badkeys].
  rewrite remove_matching_all.
  destruct (remove_all _ cols); simpl; [apply IH | done].
Qed.

Lemma filter_iff_in {A} (P1 P2 : A → Prop) `{!∀ x, Decision (P1 x)}
    `{!∀ x, Decision (P2 x)} (l : list A) :
  (∀ x, x ∈ l → P1 x ↔ P2 x) → filter P1 l = filter P2 l.
Proof.
  induction l as [|x l IH]; intros Hiff; [done|]. rewrite !filter_cons.
  rewrite IH by (intros y Hy; apply Hiff; by right).
  destruct (decide (P1 x)) as [H1|H1], (decide (P2 x)) as [H2|H2]; try done.
  - destruct H2. apply Hiff; [by left | done].
  - destruct H1. apply Hiff; [by left | done].
Qed.

Lemma filter_all {A} (P : A → Prop) `{!∀ x, Decision (P x)} (l : list A) :
  (∀ x, x ∈ l → P x) → filter P l = l.
Proof.
  induction l as [|x l IH]; intros Hall; [done|]. rewrite filter_cons.
  rewrite decide_True by (apply Hall; by left). f_equal. apply IH.
  intros y Hy. apply Hall. by right.
Qed.

Lemma remove_all_ok ops cols :
  NoDup ops → (∀ t, t ∈ ops → t ∈ cols) →
  remove_all ops cols = Some (filter (λ c, c ∉ ops) cols).
Proof.
  intros Hnd. revert cols. induction Hnd as [|t ops Ht Hnd IH]; intros cols Hsub; simpl.
  - f_equal. symmetry. apply filter_all. intros c _. apply not_elem_of_nil.
  - unfold remove_column. rewrite bool_decide_eq_true_2 by (apply Hsub; left). simpl.
    rewrite IH.
    + f_equal. rewrite list_filter_filter. apply list_filter_iff. intros c.
      rewrite not_elem_of_cons. tauto.
    + intros t' Ht'. apply list_elem_of_filter. split; [by intros -> | apply Hsub; by right].
Qed.

Lemma remove_all_gone t ops cols :
  t ∈ ops → t ∉ cols → remove_all ops cols = None.
Proof.
  revert cols. induction ops as [|t' ops IH]; intros cols Hin Hout.
  - by apply elem_of_nil in Hin.
  - simpl. unfold remove_column. case_bool_decide as Hc; simpl; [|done].
    apply elem_of_cons in Hin as [->|Hin]; [done|].
    apply IH; [done|]. rewrite list_elem_of_filter. tauto.
Qed.

Lemma remove_all_dup ops cols : ¬ NoDup ops → remove_all ops cols = None.
Proof.
  revert cols. induction ops as [|t ops IH]; intros cols Hnd.
  - destruct Hnd. constructor.
  - simpl. unfold remove_column. case_bool_decide as Hc; simpl; [|done].
    destruct (decide (t ∈ ops)) as [Hin|Hout].
    + eapply remove_all_gone; [exact Hin|]. rewrite list_elem_of_filter. tauto.
    + apply IH. intros Hnd'. apply Hnd. by constructor.
Qed.

Lemma hits_cons b badkeys c :
  hits (b :: badkeys) c = (if py_in b c then 1 else 0) + hits badkeys c.
Proof.
  unfold hits. rewrite filter_cons. destruct (py_in b c).
  - by rewrite decide_True.
  - by rewrite decide_False.
Qed.

Lemma elem_of_removals badkeys tkeys t :
  t ∈ removals badkeys tkeys ↔ t ∈ tkeys ∧ 0 < hits badkeys t.
Proof.
  unfold removals. induction badkeys as [|b badkeys IH].
  - simpl. rewrite elem_of_nil. unfold hits. simpl. lia.
  - rewrite bind_cons, elem_of_app, IH, list_elem_of_filter, hits_cons.
    destruct (py_in b t); simpl; [intuition lia|].
    split; [intros [[? _]|?]; [done | tauto] | tauto].
Qed.

Lemma NoDup_removals badkeys tkeys :
  NoDup tkeys →
  NoDup (removals badkeys tkeys) ↔ ∀ t, t ∈ tkeys → hits badkeys t ≤ 1.
Proof.
  intros Hnd. induction badkeys as [|b badkeys IH].
  - split; [|intros _; constructor]. intros _ t _. unfold hits. simpl. lia.
  - unfold removals. rewrite bind_cons. fold (removals badkeys tkeys).
    rewrite list.NoDup_app, IH. split.
    + intros (_ & Hdis & Hrest) t Ht. rewrite hits_cons.
      destruct (py_in b t) eqn:Eb; [|apply Hrest, Ht].
      assert (Hout : t ∉ removals badkeys tkeys).
      { apply Hdis. apply list_elem_of_filter. done. }
      rewrite elem_of_removals in Hout.
      assert (hits badkeys t = 0) by (destruct (hits badkeys t); [done|]; exfalso; apply Hout; split; [done | lia]).
      lia.
    + intros H. split_and!.
      * by apply list.NoDup_filter.
      * intros t [Eb Ht]%list_elem_of_filter. rewrite elem_of_removals.
        specialize (H t Ht). rewrite hits_cons, Eb in H. lia.
      * intros t Ht. specialize (H t Ht). rewrite hits_cons in H. lia.
Qed.

(** X12.  Lines 86-90.  A table whose column names each hold at most one of the
    unwanted keys loses exactly the columns that hold one, the others
    staying in order; a column name that holds two of the keys is removed
    twice, and the second removal is a [KeyError]. *)
Theorem unwanted_columns_removed (cols : list string) :
  NoDup cols →
  ((∀ c, c ∈ cols → hits unwanted c ≤ 1) →
   remove_unwanted cols = Some (filter (λ c, hits unwanted c = 0) cols)) ∧
  ((∃ c, c ∈ cols ∧ 2 ≤ hits unwanted c) → remove_unwanted cols = None).
Proof.
  intros Hnd. unfold remove_unwanted. rewrite remove_badkeys_all. split.
  - intros Hone. rewrite remove_all_ok.
    + f_equal. apply filter_iff_in. intros c Hc.
      rewrite elem_of_removals. split; [|lia]. intros H.
      destruct (hits unwanted c); [done|]. exfalso. apply H. split; [done | lia].
    + by apply NoDup_removals.
    + intros t Ht. apply elem_of_removals in Ht. tauto.
  - intros (c & Hc & Htwo). apply remove_all_dup. rewrite NoDup_removals by done.
    intros H. specialize (H c Hc). lia.
Qed.

End NistColumns.

Module Spectrum.
Import WaveIO LineLists NistColumns.

(** What a call of [load_spectrum] comes to. *)
Inductive Loaded (Data : Type) :=
| Spec (spec : Data)
| IndexError_
| KeyError_ (key : string)
| IOError_ (msg : string)
| UnboundLocalError_.
Arguments Spec {Data} spec.
Arguments IndexError_ {Data}.
Arguments KeyError_ {Data} key.
Arguments IOError_ {Data} msg.
Arguments UnboundLocalError_ {Data}.

(** [spec_file[iext:]] with [iext = spec_file.rfind('.')]. *)
Definition extension (spec_file : string) : string :=
  let iext := rfind "."%char spec_file in
  py_slice spec_file iext (Z.of_nat (String.length spec_file)).

Section Readers.
Variable Data : Type.
(** [Table.read(spec_file, format='ascii')]: the columns in order;
    [fits.open]: the data of the extensions; [h5py.File]: its keys and its
    datasets; [ltu.loadjson]: a dictionary; [str(index)]. *)
Variable read_ascii : string → list (string * Data).
Variable fits_open : string → list Data.
Variable hdf_keys : string → list string.
Variable hdf_get : string → string → option Data.
Variable loadjson : string → list (string * Data).
Variable str : Z → string.

Fixpoint dict_lookup (k : string) (d : list (string * Data)) : option Data :=
  match d with
  | [] => None
  | (k', v) :: d' => if String.eqb k' k then Some v else dict_lookup k d'
  end.

(** The [if]/[elif] chain of lines 340-358 on the text [ext]. *)
Definition read_as (ext spec_file : string) (index : Z) : Loaded Data :=
  if py_in "ascii" ext then
    match read_ascii spec_file with
    | [] => IndexError_
    | (key, data) :: _ => Spec data
    end
  else if py_in "fits" ext then
    match fits_open spec_file with
    | [] => IndexError_
    | data :: _ => Spec data
    end
  else if py_in "hdf5" ext then
    if bool_decide ("arcs"%string ∈ hdf_keys spec_file) then
      let key := "arcs/" +:+ str index +:+ "/spec" in
      match hdf_get spec_file key with
      | Some data => Spec data
      | None => KeyError_ key
      end
    else IOError_ "Not ready for this hdf5 file"
  else if py_in "json" ext then
    match dict_lookup "spec" (loadjson spec_file) with
    | Some data => Spec data
    | None => IOError_ "spec not in your JSON dict"
    end
  else UnboundLocalError_.

(** [load_spectrum(spec_file, index)] *)
Definition load_spectrum (spec_file : string) (index : Z) : Loaded Data :=
  read_as (extension spec_file) spec_file index.

Lemma length_chars (s : string) : length (chars s) = String.length s.
Proof. unfold chars. induction s as [|c s IH]; [done|]. cbn. congruence. Qed.

Lemma prefix_length (p s : string) :
  String.prefix p s = true → String.length p ≤ String.length s.
Proof.
  revert p. induction s as [|b s IH]; intros [|a p]; simpl; try lia; try done.
  destruct (Ascii.ascii_dec a b); [|done]. intros H. apply IH in H. lia.
Qed.

Lemma py_in_length (sub s : string) :
  py_in sub s = true → String.length sub ≤ String.length s.
Proof.
  induction s as [|c s IH]; cbn [py_in].
  - rewrite orb_false_r. apply prefix_length.
  - intros [H|H]%orb_true_iff; [by apply prefix_length in H|].
    apply IH in H. simpl. lia.
Qed.

Lemma read_as_short (ext spec_file : string) index :
  String.length ext < 4 → read_as ext spec_file index = UnboundLocalError_.
Proof.
  intros Hlen. unfold read_as.
  assert (H : ∀ sub, 4 ≤ String.length sub → py_in sub ext = false).
  { intros sub Hs. destruct (py_in sub ext) eqn:E; [|done].
    apply py_in_length in E. lia. }
  rewrite !H by (simpl; lia). done.
Qed.

(** X13.  A file name without a dot has no extension to go by: the text looked
    at is its last character, no reader is chosen and the function ends
    in an [UnboundLocalError]. *)
Theorem load_spectrum_without_dot (spec_file : string) (index : Z) :
  "."%char ∉ chars spec_file →
  load_spectrum spec_file index = UnboundLocalError_.
Proof.
  intros Hdot. unfold load_spectrum. apply read_as_short.
  unfold extension, rfind. fold (chars spec_file). rewrite rfind_from_absent by done.
  unfold py_slice. fold (chars spec_file). cbv zeta.
  rewrite <- length_chars. unfold chars at 1.
  rewrite String.list_ascii_of_string_of_list_ascii, length_take.
  rewrite <- (length_chars spec_file). unfold py_index. simpl.
  destruct (Z.ltb_spec (Z.of_nat (length (chars spec_file))) 0); lia.
Qed.

(** X14.  The reader is chosen by the text from the last dot on, whatever comes
    before it. *)
Theorem load_spectrum_by_last_extension (stem ext : string) (index : Z) :
  "."%char ∉ chars ext →
  load_spectrum (stem +:+ "." +:+ ext) index =
  read_as ("." +:+ ext) (stem +:+ "." +:+ ext) index.
Proof.
  intros Hdot. unfold load_spectrum. f_equal. unfold extension.
  assert (Hc : chars (stem +:+ "." +:+ ext) = chars stem ++ chars ("." +:+ ext) ++ []).
  { by rewrite app_nil_r, !chars_app. }
  unfold rfind. fold (chars (stem +:+ "." +:+ ext)).
  replace (rfind_from "." (chars (stem +:+ "." +:+ ext)) 0 (-1))
    with (Z.of_nat (length (chars stem))).
  2: { rewrite !chars_app. symmetry. by apply rfind_last. }
  replace (Z.of_nat (String.length (stem +:+ "." +:+ ext)))
    with (Z.of_nat (length (chars stem) + length (chars ("." +:+ ext)))).
  2: { rewrite <- length_chars, Hc, !length_app. simpl. lia. }
  erewrite py_slice_middle; [|exact Hc].
  apply String.string_of_list_ascii_of_string.
Qed.

End Readers.
End Spectrum.

(** * The further properties on concrete runs *)

Lemma only_selected_detectors_witness :
  EvResolve Bias "A_01_aa" 1 ∈ trace (final (ARMS ex_C ex_tbl ex_cfg false None ex_init)) ∧
  event_det (EvResolve Bias "A_01_aa" 1) = Some 1 ∧
  1 ≤ 1 ≤ ndet ex_cfg ∧ ∀ l, detnum ex_cfg = Some l → 1 ∈ l.
Proof.
  assert (Hin : EvResolve Bias "A_01_aa" 1 ∈ trace (final (ARMS ex_C ex_tbl ex_cfg false None ex_init))).
  { apply list_elem_of_In. vm_compute. left. reflexivity. }
  split; [exact Hin|]. split; [reflexivity|].
  apply (only_selected_detectors ex_C ex_tbl ex_cfg false None (λ _, VNone) ∅
           (EvResolve Bias "A_01_aa" 1) 1); [exact Hin | reflexivity].
Defined.

Lemma masters_not_handed_on_witness :
  EvResolve Bias "A_01_aa" 1 ∈ trace (final (ARMS ex_C ex_tbl ex_cfg false None ex_init)) ∧
  is_update (EvResolve Bias "A_01_aa" 1) = false.
Proof.
  assert (Hin : EvResolve Bias "A_01_aa" 1 ∈ trace (final (ARMS ex_C ex_tbl ex_cfg false None ex_init))).
  { apply list_elem_of_In. vm_compute. left. reflexivity. }
  split; [exact Hin|].
  apply (masters_not_handed_on ex_C ex_tbl ex_cfg None (λ _, VNone) ∅ _ Hin).
Defined.

Lemma built_masters_are_saved_witness :
  (Trace = Trace ∨ Trace = Tilt) ∧
  trace (final (ARMS ex_C ex_tbl ex_cfg false None ex_init)) !! 10 =
    Some (EvBuild Trace "A_01_aa" 1 1 [VStr "overscan"; VArr []; VArr [[0]]%Z]) ∧
  trace (final (ARMS ex_C ex_tbl ex_cfg false None ex_init)) !! (10 + 1) = Some (EvSaveMaster Trace "A_01_aa" 1).
Proof.
  split; [by left|]. split; [vm_compute; reflexivity|].
  apply (built_masters_are_saved ex_C ex_tbl ex_cfg false None (λ _, VNone) ∅
           10 Trace "A_01_aa" 1 1 [VStr "overscan"; VArr []; VArr [[0]]%Z]);
    [by left | vm_compute; reflexivity].
Defined.

(** The state in which the standards of the run on [ex_tbl_two_std] are
    written: the name [std_idx] is bound to row 8, the standard of the
    last exposure. *)
Definition ex_σ_written : RunState :=
  final (for_each (seq 0 2) (reduce_exposure ex_C ex_tbl_two_std ex_cfg false)
           (final (init_sciexp ex_tbl_two_std None ex_init))).

Lemma standards_written_with_leftover_index_witness :
  std_idx_var ex_σ_written = Some (IdxInt 8) ∧
  ∃ n, n ≤ length (std_dict ex_σ_written) ∧
    trace (final (write_standards ex_C ex_cfg ex_σ_written)) =
      trace ex_σ_written ++
      standard_writes ex_cfg (heap ex_σ_written) (IdxInt 8)
        (take n (std_dict ex_σ_written)) ∧
    match write_standards ex_C ex_cfg ex_σ_written with
    | Ok _ _ => n = length (std_dict ex_σ_written)
    | Raise e _ => e = WriteFailure
    end.
Proof.
  split; [vm_compute; reflexivity|].
  apply (standards_written_with_leftover_index ex_C ex_cfg ex_σ_written (IdxInt 8)).
  vm_compute. reflexivity.
Defined.

(** Both standards of that run (rows 7 and 8) are written with the header
    of row 8. *)
Example ex_standards_header :
  List.filter (λ ev, match ev with EvSave1d _ _ _ => true | _ => false end)
    (emitted (write_standards ex_C ex_cfg) ex_σ_written) =
  [EvSave1d "Science/spec1d_STD.fits" [VArr [[4]]%Z] (IdxInt 8);
   EvSave1d "Science/spec1d_STD.fits" [VArr [[4]]%Z] (IdxInt 8)].
Proof. vm_compute. reflexivity. Qed.

(** The state in which the flux stage of the run on [ex_tbl_std] starts
    when no detector is selected and an archival file is named. *)
Definition ex_σ_archival : RunState :=
  final ((for_each (seq 0 2) (reduce_exposure ex_C ex_tbl_std ex_cfg_skip false) ;;;
          write_standards ex_C ex_cfg_skip) ex_σ0_std).

Lemma flux_from_archival_file_witness :
  calibrate_flux ex_cfg_skip = true ∧
  sensfunc_archival ex_cfg_skip ≠ "None"%string ∧
  std_dict ex_σ_archival ≠ [] ∧
  length [1; 2] = length ["E1"; "E2"]%string ∧
  (∀ bn, bn ∈ ["E1"; "E2"]%string →
         is_Some (disk ex_σ_archival !! spec1d_file ex_cfg_skip bn)) ∧
  let sensfunc := sens_archival ex_C (trace ex_σ_archival) (sensfunc_archival ex_cfg_skip) in
  ∃ σ', flux_stage ex_C ex_cfg_skip (Some [1; 2]) ["E1"; "E2"]%string ex_σ_archival
          = Ok tt σ' ∧
    trace σ' = trace ex_σ_archival ++ EvSensArchival (sensfunc_archival ex_cfg_skip) ::
                 flux_events ex_cfg_skip sensfunc ["E1"; "E2"]%string ∧
    disk σ' = flux_disk ex_C ex_cfg_skip sensfunc ["E1"; "E2"]%string (disk ex_σ_archival) ∧
    heap σ' = heap ex_σ_archival ∧ std_dict σ' = std_dict ex_σ_archival.
Proof.
  assert (Hfiles : ∀ bn, bn ∈ ["E1"; "E2"]%string →
            is_Some (disk ex_σ_archival !! spec1d_file ex_cfg_skip bn)).
  { intros bn Hin. apply list_elem_of_In in Hin.
    destruct Hin as [<-|[<-|[]]]; vm_compute; eauto. }
  assert (Ha : sensfunc_archival ex_cfg_skip ≠ "None"%string) by (vm_compute; discriminate).
  assert (Hd : std_dict ex_σ_archival ≠ []) by (vm_compute; discriminate).
  split_and!; [reflexivity | exact Ha | exact Hd | reflexivity | exact Hfiles |].
  apply (flux_from_archival_file ex_C ex_cfg_skip [1; 2] ["E1"; "E2"]%string
           ex_σ_archival); [reflexivity | exact Ha | exact Hd | reflexivity | exact Hfiles].
Defined.

Lemma exposures_released_witness :
  returns (ARMS ex_C ex_tbl ex_cfg false None ex_init) 0 ∧
  ∃ names σ1, init_sciexp ex_tbl None ex_init = Ok names σ1 ∧
    sciexp (final (ARMS ex_C ex_tbl ex_cfg false None ex_init)) =
    replicate (length (sciexp σ1)) None.
Proof.
  assert (Hrun : returns (ARMS ex_C ex_tbl ex_cfg false None ex_init) 0)
    by (vm_compute; reflexivity).
  split; [exact Hrun|].
  apply (exposures_released ex_C ex_tbl ex_cfg false None ex_init 0 _).
  apply returns_Ok, Hrun.
Defined.

(** The two exposures of [ex_tbl] are reduced and written one after the
    other. *)
Example ex_science_steps :
  steps (trace (final (ARMS ex_C ex_tbl ex_cfg false None ex_init))) =
  [Reduced 11 1; Written 11; Reduced 12 1; Written 12].
Proof. vm_compute. reflexivity. Qed.

(** ** The arc-line files *)

Lemma lamp_name_round_trip_witness :
  ("/"%char ∉ LineLists.chars "ThAr") ∧
  WaveIO.lamp_of_file
    (WaveIO.line_file_of ("/pypeit/data/arc_lines/lists" +:+ "/")
       ("/pypeit/data/arc_lines/NIST" +:+ "/") false "ThAr") = "ThAr"%string.
Proof.
  assert (H : "/"%char ∉ LineLists.chars "ThAr").
  { apply (bool_decide_unpack _). vm_compute. exact I. }
  split; [exact H|].
  apply (LineLists.lamp_name_round_trip "/pypeit/data/arc_lines/lists"
           "/pypeit/data/arc_lines/NIST" false "ThAr" H).
Defined.

(** A file system with the line lists of two lamps, each read as a table
    of one column named after its file. *)
Definition ex_read (f : string) : WaveIO.Table :=
  {| WaveIO.colnames := [f]; WaveIO.rows := [] |}.

Lemma all_lists_reads_globbed_files_witness :
  let file_of := WaveIO.line_file_of ("lists" +:+ "/") "NIST/" false in
  Forall (λ X, "/"%char ∉ LineLists.chars X) ["ThAr"; "HgI"]%string ∧
  Forall (λ f, (λ _ : string, true) f = true) (map file_of ["ThAr"; "HgI"]%string) ∧
  WaveIO.load_line_lists ("lists" +:+ "/") "NIST/" (λ _, true)
    (map file_of ["ThAr"; "HgI"]%string) ex_read (λ _, WaveIO.Quit) (λ _ t, t)
    (λ l, head l) (λ l, default (ex_read "") (head l)) (λ _, None) (λ _ t, t) (λ _ t, t)
    ["NeI"]%string false false true false =
  match ["ThAr"; "HgI"]%string with
  | [] => WaveIO.RNone
  | _ :: _ =>
      match head (map ex_read (map file_of ["ThAr"; "HgI"]%string)) with
      | Some t => WaveIO.RTable t
      | None => WaveIO.RTableMergeError
      end
  end.
Proof.
  intros file_of.
  assert (H1 : Forall (λ X, "/"%char ∉ LineLists.chars X) ["ThAr"; "HgI"]%string).
  { repeat constructor; apply (bool_decide_unpack _); vm_compute; exact I. }
  assert (H2 : Forall (λ f, (λ _ : string, true) f = true)
                 (map file_of ["ThAr"; "HgI"]%string)).
  { repeat constructor. }
  split; [exact H1|]. split; [exact H2|].
  apply (LineLists.all_lists_reads_globbed_files "lists" "NIST/" (λ _, true) ex_read
           (λ _, WaveIO.Quit) (λ _ t, t) (λ l, head l) (λ l, default (ex_read "") (head l)) (λ _, None)
           (λ _ t, t) (λ _ t, t) ["ThAr"; "HgI"]%string ["NeI"]%string false H1 H2).
Defined.

(** The list of the lamp [NeI] is missing and [skip] is not set: the call
    stops at the breakpoint, and raises [IOError] when the session goes on
    and [BdbQuit] when it is quit. *)
Example ex_missing_list :
  let load session :=
    WaveIO.load_line_lists "lists/" "NIST/"
      (λ f, negb (String.eqb f "lists/NeI_lines.dat")) [] ex_read session (λ _ t, t)
      (λ l, head l) (λ l, default (ex_read "") (head l)) (λ _, None) (λ _ t, t)
      (λ _ t, t) ["ThAr"; "NeI"; "HgI"]%string false false false false in
  load (λ _, WaveIO.Continue) = WaveIO.RIOError "NeI" ∧
  load (λ _, WaveIO.Quit) = WaveIO.RBdbQuit "NeI".
Proof. split; vm_compute; reflexivity. Qed.

(** The flags of three lamps, and an [UNKNWNs.dat] of three rows whose
    first cell is the flag. *)
Definition ex_line_flag (line : string) : option nat :=
  if String.eqb line "ArI" then Some 1
  else if String.eqb line "HgI" then Some 2
  else if String.eqb line "NeI" then Some 4
  else None.

Definition ex_row_flag (row : list string) : Z :=
  match row with
  | "1"%string :: _ => 1
  | "2"%string :: _ => 2
  | "5"%string :: _ => 5
  | _ => 0
  end.

Definition ex_unknown (f : string) : WaveIO.Table :=
  {| WaveIO.colnames := ["line_flag"; "wave"]%string;
     WaveIO.rows := [["1"; "4000.1"]; ["2"; "5000.2"]; ["5"; "6000.3"]]%string |}.

Lemma unknown_lines_by_lamp_bit_witness :
  WaveIO.lamp_flags ex_line_flag ["ArI"; "NeI"]%string = inr (map (λ k, 2 ^ k) [0; 2]) ∧
  WaveIO.load_unknown_list "lists/" "NIST/" ex_unknown (λ _ t, t) ex_line_flag
    (UnknownLines.select_flagged ex_row_flag) ["ArI"; "NeI"]%string =
  inr {| WaveIO.colnames := ["line_flag"; "wave"]%string;
         WaveIO.rows := [["1"; "4000.1"]; ["5"; "6000.3"]]%string |}.
Proof.
  split; [reflexivity|].
  apply (UnknownLines.unknown_lines_by_lamp_bit ex_row_flag "lists/" "NIST/" ex_unknown
           (λ _ t, t) ex_line_flag ["ArI"; "NeI"]%string [0; 2]).
  reflexivity.
Defined.

Lemma unwanted_columns_removed_witness :
  NoDup ["Observed"; "Ritz"; "Rel."; "Acc."; "Ei           Ek"; "Type"]%string ∧
  ((∀ c, c ∈ ["Observed"; "Ritz"; "Rel."; "Acc."; "Ei           Ek"; "Type"]%string →
         NistColumns.hits NistColumns.unwanted c ≤ 1) →
   NistColumns.remove_unwanted
     ["Observed"; "Ritz"; "Rel."; "Acc."; "Ei           Ek"; "Type"]%string =
   Some (filter (λ c, NistColumns.hits NistColumns.unwanted c = 0)
           ["Observed"; "Ritz"; "Rel."; "Acc."; "Ei           Ek"; "Type"]%string)) ∧
  ((∃ c, c ∈ ["Observed"; "Ritz"; "Rel."; "Acc."; "Ei           Ek"; "Type"]%string ∧
         2 ≤ NistColumns.hits NistColumns.unwanted c) →
   NistColumns.remove_unwanted
     ["Observed"; "Ritz"; "Rel."; "Acc."; "Ei           Ek"; "Type"]%string = None).
Proof.
  assert (H : NoDup ["Observed"; "Ritz"; "Rel."; "Acc."; "Ei           Ek"; "Type"]%string).
  { apply (bool_decide_unpack _). vm_compute. exact I. }
  split; [exact H|].
  apply (NistColumns.unwanted_columns_removed _ H).
Defined.

(** A NIST table keeps its observed wavelengths and intensities; a column
    whose name holds two of the keys cannot be removed twice. *)
Example ex_remove_unwanted :
  NistColumns.remove_unwanted
    ["Observed"; "Ritz"; "Rel."; "Acc."; "Ei           Ek"; "Type"]%string =
    Some ["Observed"; "Rel."]%string ∧
  NistColumns.remove_unwanted ["Observed"; "Lower Upper"]%string = None.
Proof. split; vm_compute; reflexivity. Qed.

Lemma load_spectrum_without_dot_witness :
  ("."%char ∉ LineLists.chars "spectrum") ∧
  Spectrum.load_spectrum nat (λ _, []) (λ _, [7]) (λ _, []) (λ _ _, None) (λ _, [])
    (λ _, ""%string) "spectrum" 0 = Spectrum.UnboundLocalError_.
Proof.
  assert (H : "."%char ∉ LineLists.chars "spectrum").
  { apply (bool_decide_unpack _). vm_compute. exact I. }
  split; [exact H|].
  apply (Spectrum.load_spectrum_without_dot nat (λ _, []) (λ _, [7]) (λ _, [])
           (λ _ _, None) (λ _, []) (λ _, ""%string) "spectrum" 0 H).
Defined.

Lemma load_spectrum_by_last_extension_witness :
  ("."%char ∉ LineLists.chars "fits") ∧
  Spectrum.load_spectrum nat (λ _, []) (λ _, [7]) (λ _, []) (λ _ _, None) (λ _, [])
    (λ _, ""%string) ("Science/arc.v2" +:+ "." +:+ "fits") 0 =
  Spectrum.read_as nat (λ _, []) (λ _, [7]) (λ _, []) (λ _ _, None) (λ _, [])
    (λ _, ""%string) ("." +:+ "fits") ("Science/arc.v2" +:+ "." +:+ "fits") 0.
Proof.
  assert (H : "."%char ∉ LineLists.chars "fits").
  { apply (bool_decide_unpack _). vm_compute. exact I. }
  split; [exact H|].
  apply (Spectrum.load_spectrum_by_last_extension nat (λ _, []) (λ _, [7]) (λ _, [])
           (λ _ _, None) (λ _, []) (λ _, ""%string) "Science/arc.v2" "fits" 0 H).
Defined.

(** A FITS file is read as one wherever it lies; a compressed one is not
    recognised. *)
Example ex_load_spectrum :
  Spectrum.load_spectrum nat (λ _, []) (λ _, [7]) (λ _, []) (λ _ _, None) (λ _, [])
    (λ _, ""%string) "Science/arc.v2.fits" 0 = Spectrum.Spec 7 ∧
  Spectrum.load_spectrum nat (λ _, []) (λ _, [7]) (λ _, []) (λ _ _, None) (λ _, [])
    (λ _, ""%string) "Science/arc.fits.gz" 0 = Spectrum.UnboundLocalError_.
Proof. split; vm_compute; reflexivity. Qed.

(** What the cache holds for the setup of [ex_tbl] after the run. *)
Definition ex_cache : gmap Kind Value :=
  default ∅ (calib_dict (final (ARMS ex_C ex_tbl ex_cfg false None ex_init)) !! "A_01_aa").

Lemma calib_dict_holds_four_products_witness :
  calib_dict (final (ARMS ex_C ex_tbl ex_cfg false None ex_init)) !! "A_01_aa"
    = Some ex_cache ∧
  ex_cache !! Trace = Some (VSlits ex_slits) ∧
  (Trace = Bias ∨ Trace = Arc ∨ Trace = Bpm ∨ Trace = Trace) ∧
  (Trace = Trace → ∃ t, VSlits ex_slits = VSlits t).
Proof.
  assert (H1 : calib_dict (final (ARMS ex_C ex_tbl ex_cfg false None ex_init)) !! "A_01_aa"
                 = Some ex_cache) by (vm_compute; reflexivity).
  assert (H2 : ex_cache !! Trace = Some (VSlits ex_slits)) by (vm_compute; reflexivity).
  split; [exact H1|]. split; [exact H2|].
  apply (calib_dict_holds_four_products ex_C ex_tbl ex_cfg false (λ _, VNone) ∅
           "A_01_aa" ex_cache Trace (VSlits ex_slits) H1 H2).
Defined.

(** Flux calibration from the run's own standard, the reduction restricted
    to a detector the instrument does not have. *)
Definition ex_cfg_unbound : Settings :=
  {| ndet := 1; detnum := Some [2]; masters_reuse := false; masters_force := false;
     calibrate_flux := true; sensfunc_archival := "None"; science_dir := "Science" |}.

Lemma flux_without_detector_never_returns_witness :
  calibrate_flux ex_cfg_unbound = true ∧
  sensfunc_archival ex_cfg_unbound = "None"%string ∧
  (∀ det, 1 ≤ det ≤ ndet ex_cfg_unbound → det_skipped ex_cfg_unbound det = true) ∧
  1 ∈ tbl_sci_IDs ex_tbl_std ∧ standard_rows ex_tbl_std 1 ≠ [] ∧
  ∃ e σ', ARMS ex_C ex_tbl_std ex_cfg_unbound false None (init_state (λ _, VNone) ∅)
            = Raise e σ' ∧ (e = WriteFailure ∨ e = NameError).
Proof.
  assert (Hall : ∀ det, 1 ≤ det ≤ ndet ex_cfg_unbound →
                   det_skipped ex_cfg_unbound det = true).
  { intros det Hdet. simpl in Hdet. assert (det = 1) as -> by lia. reflexivity. }
  assert (Hin : 1 ∈ tbl_sci_IDs ex_tbl_std) by (simpl; by left).
  assert (Hstd : standard_rows ex_tbl_std 1 ≠ []) by (simpl; discriminate).
  split; [reflexivity|]. split; [reflexivity|]. split; [exact Hall|].
  split; [exact Hin|]. split; [exact Hstd|].
  apply (flux_without_detector_never_returns ex_C ex_tbl_std ex_cfg_unbound false
           (λ _, VNone) ∅ 1 eq_refl eq_refl Hall Hin Hstd).
Defined.

(** The run of [flux_without_detector_never_returns_witness]: the three
    files are written, then the name [setup] is found unbound. *)
Example ex_unbound_setup :
  match ARMS ex_C ex_tbl_std ex_cfg_unbound false None ex_init with
  | Ok _ _ => False
  | Raise e σ =>
      e = NameError ∧
      trace σ = [EvSave1d "Science/spec1d_E1.fits" [VNone] (IdxInt 11);
                 EvSaveObjInfo 11; EvSave2d 11;
                 EvSave1d "Science/spec1d_E2.fits" [VNone] (IdxInt 12);
                 EvSaveObjInfo 12; EvSave2d 12;
                 EvSave1d "Science/spec1d_STD.fits" [VNone] (IdxList [5])]
  end.
Proof. vm_compute. split; reflexivity. Qed.
